(** * A shallow embedding of the Notorious rules engine (TypeScript sources)

    Hex geometry ([utils/HexMath.ts], [config/HexConstants.ts]), the board
    ([core/Hex.ts], [core/Board.ts]), players ([core/Player.ts]), the chart
    deck ([core/ChartDeck.ts]), the five actions ([actions/*.ts]), chart
    validation ([core/ChartValidator.ts]) and the winner computation of
    [core/GameState.ts].

    Mutable objects are modelled by explicit state passing: every method that
    mutates returns the new value of the object (and its JS return value when
    the code uses it).  JavaScript numbers that the engine only ever uses as
    integers are modelled as [Z]. *)

From Stdlib Require Import ZArith List String Bool Lia Permutation Sorting.Sorted.
Import ListNotations.

Local Open Scope Z_scope.

(* ================================================================= *)
(** ** Coordinates: [types/CoordinateTypes.ts] and [utils/HexMath.ts] *)

Module HexMath.

(** [HexCoord] is [{q, r, s}] with [s = -(q + r)] always produced by
    [createHexCoord]; we keep [q], [r] and compute [s]. *)
Record HexCoord := mkHexCoord { q : Z; r : Z }.

Definition s (c : HexCoord) : Z := - (q c + r c).

Definition createHexCoord (q0 r0 : Z) : HexCoord := mkHexCoord q0 r0.

(** [hexEquals] compares [q] and [r]; [hexToKey] is ["q,r"], so key equality is
    the same test. *)
Definition hexEquals (a b : HexCoord) : bool := (q a =? q b) && (r a =? r b).

(** [(|dq| + |dr| + |ds|) / 2]; the numerator is always even (as
    [ds = -(dq + dr)]), so the JS division is exact and agrees with [Z.div]. *)
Definition hexDistance (a b : HexCoord) : Z :=
  (Z.abs (q a - q b) + Z.abs (r a - r b) + Z.abs (s a - s b)) / 2.

Definition areAdjacent (a b : HexCoord) : bool := hexDistance a b =? 1.

Definition DIRECTION_VECTORS : list HexCoord :=
  [ createHexCoord 1 0;    (* East *)
    createHexCoord 1 (-1); (* Northeast *)
    createHexCoord 0 (-1); (* Northwest *)
    createHexCoord (-1) 0; (* West *)
    createHexCoord (-1) 1; (* Southwest *)
    createHexCoord 0 1 ].  (* Southeast *)

(** [DIRECTION_VECTORS[direction % 6]]; JS [%] is [Z.rem].  The code only
    calls it with [0 <= direction < 6]. *)
Definition getNeighbor (coord : HexCoord) (direction : Z) : HexCoord :=
  let dir := nth (Z.to_nat (Z.rem direction 6)) DIRECTION_VECTORS (createHexCoord 0 0) in
  createHexCoord (q coord + q dir) (r coord + r dir).

Definition getAllNeighbors (coord : HexCoord) : list HexCoord :=
  map (fun dir => createHexCoord (q coord + q dir) (r coord + r dir)) DIRECTION_VECTORS.

(** The [for (let i = 0; i < 6; i++)] loop of [getDirection]. *)
Fixpoint getDirection_loop (from to : HexCoord) (i : Z) (fuel : nat) : Z :=
  match fuel with
  | O => -1
  | S fuel' =>
      if hexEquals (getNeighbor from i) to then i
      else getDirection_loop from to (i + 1) fuel'
  end.

Definition getDirection (from to : HexCoord) : Z :=
  if negb (areAdjacent from to) then -1 else getDirection_loop from to 0 6.

(** [findPath]: breadth-first search.  The [while] loop is given [fuel]
    iterations; [Board.findPath] below runs it with [BOARD_FUEL] iterations,
    which the lemma [PathProofs.Board_findPath_fuel] shows is never
    exhausted (more fuel gives the same result). *)
Section FindPath.
Variable isBlocked : HexCoord -> bool.
Variable canTraverse : HexCoord -> HexCoord -> bool.

Definition visited_has (c : HexCoord) (visited : list HexCoord) : bool :=
  existsb (hexEquals c) visited.

Inductive Expand :=
  | Found (path : list HexCoord)
  | Continue (visited : list HexCoord) (queue : list (HexCoord * list HexCoord)).

(** The [for (const neighbor of getAllNeighbors(current.coord))] loop. *)
Fixpoint expand (cur : HexCoord) (path : list HexCoord) (end_ : HexCoord)
  (ns : list HexCoord) (visited : list HexCoord) (queue : list (HexCoord * list HexCoord))
  : Expand :=
  match ns with
  | [] => Continue visited queue
  | neighbor :: ns' =>
      if visited_has neighbor visited then expand cur path end_ ns' visited queue
      else if isBlocked neighbor then expand cur path end_ ns' visited queue
      else if negb (canTraverse cur neighbor) then expand cur path end_ ns' visited queue
      else
        let newPath := path ++ [neighbor] in
        if hexEquals neighbor end_ then Found newPath
        else expand cur path end_ ns' (visited ++ [neighbor]) (queue ++ [(neighbor, newPath)])
  end.

(** The [while (queue.length > 0)] loop; [queue.shift()] takes the front. *)
Fixpoint bfs (fuel : nat) (end_ : HexCoord) (queue : list (HexCoord * list HexCoord))
  (visited : list HexCoord) : list HexCoord :=
  match fuel with
  | O => []
  | S fuel' =>
      match queue with
      | [] => []
      | (c, path) :: rest =>
          match expand c path end_ (getAllNeighbors c) visited rest with
          | Found p => p
          | Continue visited' queue' => bfs fuel' end_ queue' visited'
          end
      end
  end.

Definition findPath (fuel : nat) (start end_ : HexCoord) : list HexCoord :=
  if hexEquals start end_ then [start]
  else if isBlocked end_ then []
  else bfs fuel end_ [(start, [start])] [start].

End FindPath.

End HexMath.

(* ================================================================= *)
(** ** The board layout: [config/HexConstants.ts] *)

Module HexConstants.
Import HexMath.

Definition BOARD_HEXES : list HexCoord :=
  [ createHexCoord 0 0;
    createHexCoord 1 0; createHexCoord 1 (-1); createHexCoord 0 (-1);
    createHexCoord (-1) 0; createHexCoord (-1) 1; createHexCoord 0 1;
    createHexCoord 0 (-2); createHexCoord 1 (-2); createHexCoord 2 (-2);
    createHexCoord 2 (-1); createHexCoord 2 0; createHexCoord 1 1;
    createHexCoord 0 2; createHexCoord (-1) 2; createHexCoord (-2) 2;
    createHexCoord (-2) 1; createHexCoord (-2) 0; createHexCoord (-1) (-1) ].

Definition isOnBoard (coord : HexCoord) : bool :=
  existsb (fun hex => (q hex =? q coord) && (r hex =? r coord)) BOARD_HEXES.

Definition getValidNeighbors (coord : HexCoord) : list HexCoord :=
  filter isOnBoard (getAllNeighbors coord).

End HexConstants.

(* ================================================================= *)
(** ** Ships, islands, hexes and the board *)

Module BoardModel.
Import HexMath HexConstants.

Inductive ShipType := SLOOP | GALLEON | PORT.

Definition ShipType_eqb (a b : ShipType) : bool :=
  match a, b with
  | SLOOP, SLOOP | GALLEON, GALLEON | PORT, PORT => true
  | _, _ => false
  end.

(** [GAME_CONSTANTS.INFLUENCE_VALUES] *)
Definition influence_of (t : ShipType) : Z :=
  match t with SLOOP => 1 | GALLEON => 2 | PORT => 3 end.

(** [core/Ship.ts] *)
Record Ship := mkShip { type : ShipType; playerId : string }.

Definition influence (sh : Ship) : Z := influence_of (type sh).

Definition Ship_equals (a b : Ship) : bool :=
  ShipType_eqb (type a) (type b) && String.eqb (playerId a) (playerId b).

(** [core/Island.ts] *)
Record Island := mkIsland {
  island_name : string;
  hexCoord : HexCoord;
  impassableEdges : list Z }.

Definition isEdgePassable (isl : Island) (edge : Z) : bool :=
  negb (existsb (Z.eqb edge) (impassableEdges isl)).

Definition canSailInDirection (isl : Island) (direction : Z) : bool :=
  isEdgePassable isl direction.

(** The [Map<string, Ship[]>] of a hex, keyed by player id, as an association
    list in insertion order: [set] of an existing key keeps its place, of a new
    key appends; [delete] removes the entry. *)
Definition ShipMap := list (string * list Ship).

Fixpoint map_get (m : ShipMap) (k : string) : option (list Ship) :=
  match m with
  | [] => None
  | (k', v) :: m' => if String.eqb k k' then Some v else map_get m' k
  end.

Fixpoint map_set (m : ShipMap) (k : string) (v : list Ship) : ShipMap :=
  match m with
  | [] => [(k, v)]
  | (k', v') :: m' => if String.eqb k k' then (k', v) :: m' else (k', v') :: map_set m' k v
  end.

Fixpoint map_delete (m : ShipMap) (k : string) : ShipMap :=
  match m with
  | [] => []
  | (k', v') :: m' => if String.eqb k k' then m' else (k', v') :: map_delete m' k
  end.

(** [core/Hex.ts] *)
Record Hex := mkHex {
  coord : HexCoord;
  ships : ShipMap;
  island : option Island }.

Definition with_ships (h : Hex) (m : ShipMap) : Hex := mkHex (coord h) m (island h).

Definition getPlayerShips (h : Hex) (pid : string) : list Ship :=
  match map_get (ships h) pid with Some l => l | None => [] end.

Definition addShip (h : Hex) (sh : Ship) : Hex :=
  let playerShips := getPlayerShips h (playerId sh) in
  with_ships h (map_set (ships h) (playerId sh) (playerShips ++ [sh])).

Fixpoint findIndex {A} (f : A -> bool) (l : list A) : option nat :=
  match l with
  | [] => None
  | x :: l' => if f x then Some O else option_map S (findIndex f l')
  end.

Fixpoint splice1 {A} (l : list A) (i : nat) : list A :=
  match l, i with
  | [], _ => []
  | _ :: l', O => l'
  | x :: l', S i' => x :: splice1 l' i'
  end.

(** [removeShip] returns the new hex and the boolean the method returns. *)
Definition removeShip (h : Hex) (sh : Ship) : Hex * bool :=
  match map_get (ships h) (playerId sh) with
  | None => (h, false)
  | Some playerShips =>
      match findIndex (fun x => Ship_equals x sh) playerShips with
      | None => (h, false)
      | Some index =>
          let rest := splice1 playerShips index in
          let m := map_set (ships h) (playerId sh) rest in
          (with_ships h (match rest with [] => map_delete m (playerId sh) | _ => m end), true)
      end
  end.

Definition getInfluence (h : Hex) (pid : string) : Z :=
  fold_left (fun total sh => total + influence sh) (getPlayerShips h pid) 0.

Definition getPlayerIds (h : Hex) : list string := map fst (ships h).

(** [core/Board.ts]: the hexes (a [Map] keyed by [hexToKey], modelled as the
    list of hexes in creation order) and the placed islands. *)
Record Board := mkBoard { hexes : list Hex; islands : list Island }.

Definition getHex (b : Board) (c : HexCoord) : option Hex :=
  find (fun h => hexEquals (coord h) c) (hexes b).

(** Writing back a hex object that was mutated in place. *)
Definition setHex (b : Board) (h : Hex) : Board :=
  mkBoard (map (fun h' => if hexEquals (coord h') (coord h) then h else h') (hexes b))
          (islands b).

Definition getNeighbors (b : Board) (c : HexCoord) : list Hex :=
  flat_map (fun c' => match getHex b c' with Some h => [h] | None => [] end)
           (getValidNeighbors c).

Definition isAdjacent (c1 c2 : HexCoord) : bool :=
  areAdjacent c1 c2 && isOnBoard c1 && isOnBoard c2.

Definition canSailBetween (b : Board) (from to : HexCoord) : bool :=
  if negb (isAdjacent from to) then false else
  match getHex b from, getHex b to with
  | Some fromHex, Some toHex =>
      let blockedFrom :=
        match island fromHex with
        | Some isl => let direction := getDirection from to in
                      (negb (direction =? -1)) && negb (canSailInDirection isl direction)
        | None => false
        end in
      if blockedFrom then false else
      let blockedTo :=
        match island toHex with
        | Some isl => let direction := getDirection to from in
                      (negb (direction =? -1)) && negb (canSailInDirection isl direction)
        | None => false
        end in
      if blockedTo then false else true
  | _, _ => false
  end.

Definition placeShip (b : Board) (c : HexCoord) (sh : Ship) : Board * bool :=
  match getHex b c with
  | None => (b, false)
  | Some h => (setHex b (addShip h sh), true)
  end.

Definition moveShip (b : Board) (from to : HexCoord) (sh : Ship) : Board * bool :=
  if negb (canSailBetween b from to) then (b, false) else
  match getHex b from, getHex b to with
  | Some fromHex, Some _ =>
      let (fromHex', removed) := removeShip fromHex sh in
      if negb removed then (b, false) else
      let b1 := setHex b fromHex' in
      match getHex b1 to with
      | Some toHex => (setHex b1 (addShip toHex sh), true)
      | None => (b1, true)
      end
  | _, _ => (b, false)
  end.

End BoardModel.

(* ================================================================= *)
(** ** Charts and the chart deck: [core/Chart.ts], [core/ChartDeck.ts] *)

Module Charts.
Import HexMath.

Inductive ChartBody :=
  | TreasureMap (targetHex : HexCoord)
  | IslandRaid (targetIsland : string) (doubloonsOnChart : Z) (notorietyReward : Z)
  | SmugglerRoute (islandA : string) (islandB : string).

Record AnyChart := mkChart { chart_id : string; body : ChartBody }.

Record ChartDeck := mkDeck {
  drawPile : list AnyChart;      (* the back of the array is drawn first *)
  discardPile : list AnyChart;
  activeIslandRaids : list AnyChart;
  allIslandRaids : list AnyChart;
  playerCount : Z }.

Section Draw.

(** The in-place Fisher-Yates [shuffle] reads [Math.random]; it is left as a
    parameter (the value the array holds after the call). *)
Variable shuffle : list AnyChart -> list AnyChart.

(** [Array.prototype.pop]: the last element and the rest. *)
Definition pop (l : list AnyChart) : option AnyChart * list AnyChart :=
  match rev l with
  | [] => (None, [])
  | x :: rl => (Some x, rev rl)
  end.

(** One iteration of the [for] loop of [drawCharts] per unit of [n]; the
    [break] ends the loop. *)
Fixpoint drawLoop (n : nat) (drawP discardP drawn : list AnyChart)
  : list AnyChart * list AnyChart * list AnyChart :=
  match n with
  | O => (drawP, discardP, drawn)
  | S n' =>
      let '(stop, drawP1, discardP1) :=
        match drawP with
        | [] => match discardP with
                | [] => (true, drawP, discardP)
                | _ :: _ => (false, shuffle discardP, [])
                end
        | _ :: _ => (false, drawP, discardP)
        end in
      if stop then (drawP1, discardP1, drawn) else
      let (chart, drawP2) := pop drawP1 in
      let drawn' := match chart with Some c => drawn ++ [c] | None => drawn end in
      drawLoop n' drawP2 discardP1 drawn'
  end.

(** [drawCharts(count)]: the new deck and the drawn charts. *)
Definition drawCharts (d : ChartDeck) (count : Z) : ChartDeck * list AnyChart :=
  let '(drawP, discardP, drawn) :=
    drawLoop (Z.to_nat count) (drawPile d) (discardPile d) [] in
  (mkDeck drawP discardP (activeIslandRaids d) (allIslandRaids d) (playerCount d), drawn).

End Draw.

Definition discardCharts (d : ChartDeck) (cs : list AnyChart) : ChartDeck :=
  mkDeck (drawPile d) (discardPile d ++ cs) (activeIslandRaids d) (allIslandRaids d)
         (playerCount d).

End Charts.

(* ================================================================= *)
(** ** Players: [core/Player.ts] and [types/GameTypes.ts] *)

Module PlayerModel.
Import HexMath Charts.

Inductive ActionType := SAIL | STEAL | BUILD | SINK | CHART.

Definition ActionType_eqb (a b : ActionType) : bool :=
  match a, b with
  | SAIL, SAIL | STEAL, STEAL | BUILD, BUILD | SINK, SINK | CHART, CHART => true
  | _, _ => false
  end.

Definition WINNING_NOTORIETY : Z := 24.
Definition STARTING_CAPTAINS : Z := 2.
Definition CAPTAIN_UNLOCK_THRESHOLDS : list Z := [5; 12].
Definition STARTING_SLOOPS : Z := 4.
Definition STARTING_GALLEONS : Z := 2.
Definition STARTING_DOUBLOONS : Z := 0.

Record ShipInventory := mkInventory { sloops : Z; galleons : Z }.

(** The ['sloops' | 'galleons'] keys of [ShipInventory]. *)
Inductive InvKey := Sloops | Galleons.

Definition inv_get (i : ShipInventory) (k : InvKey) : Z :=
  match k with Sloops => sloops i | Galleons => galleons i end.

Definition inv_set (i : ShipInventory) (k : InvKey) (v : Z) : ShipInventory :=
  match k with
  | Sloops => mkInventory v (galleons i)
  | Galleons => mkInventory (sloops i) v
  end.

Record Player := mkPlayer {
  id : string;
  notoriety : Z;
  doubloons : Z;
  captainCount : Z;
  ships : ShipInventory;
  portLocation : option HexCoord;
  placedCaptains : list ActionType;
  charts : list AnyChart }.

Definition set_notoriety (p : Player) (n : Z) : Player :=
  mkPlayer (id p) n (doubloons p) (captainCount p) (ships p) (portLocation p)
           (placedCaptains p) (charts p).
Definition set_doubloons (p : Player) (d : Z) : Player :=
  mkPlayer (id p) (notoriety p) d (captainCount p) (ships p) (portLocation p)
           (placedCaptains p) (charts p).
Definition set_captainCount (p : Player) (c : Z) : Player :=
  mkPlayer (id p) (notoriety p) (doubloons p) c (ships p) (portLocation p)
           (placedCaptains p) (charts p).
Definition set_ships (p : Player) (i : ShipInventory) : Player :=
  mkPlayer (id p) (notoriety p) (doubloons p) (captainCount p) i (portLocation p)
           (placedCaptains p) (charts p).
Definition set_charts (p : Player) (cs : list AnyChart) : Player :=
  mkPlayer (id p) (notoriety p) (doubloons p) (captainCount p) (ships p) (portLocation p)
           (placedCaptains p) cs.

(** [gainNotoriety]: the [forEach] over the thresholds, in order. *)
Definition gainNotoriety (p : Player) (amount : Z) : Player :=
  let oldNotoriety := notoriety p in
  let p1 := set_notoriety p (notoriety p + amount) in
  fold_left (fun pl threshold =>
               if (oldNotoriety <? threshold) && (threshold <=? notoriety pl)
               then set_captainCount pl (captainCount pl + 1) else pl)
            CAPTAIN_UNLOCK_THRESHOLDS p1.

Definition gainDoubloons (p : Player) (amount : Z) : Player :=
  set_doubloons p (doubloons p + amount).

Definition spendDoubloons (p : Player) (amount : Z) : Player * bool :=
  if doubloons p <? amount then (p, false) else (set_doubloons p (doubloons p - amount), true).

Definition hasShips (p : Player) (k : InvKey) (count : Z) : bool :=
  count <=? inv_get (ships p) k.

Definition spendShips (p : Player) (k : InvKey) (count : Z) : Player * bool :=
  if negb (hasShips p k count) then (p, false)
  else (set_ships p (inv_set (ships p) k (inv_get (ships p) k - count)), true).

Definition returnShips (p : Player) (k : InvKey) (count : Z) : Player :=
  set_ships p (inv_set (ships p) k (inv_get (ships p) k + count)).

Definition hasWon (p : Player) : bool := WINNING_NOTORIETY <=? notoriety p.

Definition getFinalScore (p : Player) : Z := notoriety p + doubloons p.

Definition addChart (p : Player) (c : AnyChart) : Player := set_charts p (charts p ++ [c]).

End PlayerModel.

(* ================================================================= *)
(** ** The game state: [core/GameState.ts] *)

Module GameStateModel.
Import HexMath BoardModel Charts PlayerModel.

Record GameState := mkState {
  players : list Player;
  board : Board;
  chartDeck : ChartDeck;
  windTokenHolder : option string;
  gameOver : bool;
  winner : option Player }.

Definition set_players (st : GameState) (ps : list Player) : GameState :=
  mkState ps (board st) (chartDeck st) (windTokenHolder st) (gameOver st) (winner st).
Definition set_board (st : GameState) (b : Board) : GameState :=
  mkState (players st) b (chartDeck st) (windTokenHolder st) (gameOver st) (winner st).
Definition set_deck (st : GameState) (d : ChartDeck) : GameState :=
  mkState (players st) (board st) d (windTokenHolder st) (gameOver st) (winner st).

(** [getPlayer]: [players.find(p => p.id === playerId)]. *)
Definition getPlayer (st : GameState) (pid : string) : option Player :=
  find (fun p => String.eqb (id p) pid) (players st).

(** Mutating the object [getPlayer] returned: the first player with that id. *)
Fixpoint update_first (pid : string) (f : Player -> Player) (ps : list Player) : list Player :=
  match ps with
  | [] => []
  | p :: ps' => if String.eqb (id p) pid then f p :: ps' else p :: update_first pid f ps'
  end.

Definition update_player (st : GameState) (pid : string) (f : Player -> Player) : GameState :=
  set_players st (update_first pid f (players st)).

Definition giveWindToken (st : GameState) (pid : string) : GameState :=
  mkState (players st) (board st) (chartDeck st) (Some pid) (gameOver st) (winner st).

(** [determineWinner]: the loop keeping the first strictly highest final score. *)
Definition determineWinner_loop (ps : list Player) : Z * option Player :=
  fold_left (fun acc player =>
               let '(highestScore, w) := acc in
               let score := getFinalScore player in
               if highestScore <? score then (score, Some player) else (highestScore, w))
            ps (-1, None).

Definition determineWinner (st : GameState) : GameState :=
  mkState (players st) (board st) (chartDeck st) (windTokenHolder st) (gameOver st)
          (snd (determineWinner_loop (players st))).

End GameStateModel.

(* ================================================================= *)
(** ** The action protocol: [actions/Action.ts] *)

Module Action.
Import HexMath BoardModel Charts PlayerModel GameStateModel.

Record ValidationResult := mkValidation { valid : bool; reason : option string }.

Definition ok : ValidationResult := mkValidation true None.
Definition invalid (why : string) : ValidationResult := mkValidation false (Some why).

Record ActionResult := mkResult {
  success : bool;
  message : string;
  notorietyGained : option Z;
  doubloonsGained : option Z;
  drawnChartsOut : list AnyChart }.

(** Modelled from the spec: [BaseAction.createFailureResult] ([actions/Action.ts]
    is not among the sources) returns a failure result ([success = false])
    carrying the reason, as section 6 of the spec describes the
    "discriminated success/failure result". *)
Definition createFailureResult (why : string) : ActionResult :=
  mkResult false why None None [].

(** Modelled from the spec: [BaseAction.createSuccessResult]. *)
Definition createSuccessResult (msg : string) (n d : option Z) : ActionResult :=
  mkResult true msg n d [].

(** Modelled from the spec: [BaseAction.validatePlayer] checks that the acting
    player exists and holds a captain committed to the action kind (spec,
    section 4.3, check (a)). *)
Definition validatePlayer (kind : ActionType) (pid : string) (st : GameState)
  : ValidationResult :=
  match getPlayer st pid with
  | None => invalid "Player not found"
  | Some p =>
      if existsb (ActionType_eqb kind) (placedCaptains p) then ok
      else invalid "No captain placed on this action"
  end.

Definition reason_or_default (v : ValidationResult) : string :=
  match reason v with Some why => why | None => "Invalid action" end.

End Action.

(* ================================================================= *)
(** ** [SailAction] *)

Module SailAction.
Import HexMath BoardModel Charts PlayerModel GameStateModel Action.

Record SailMove := mkSailMove { ship : ShipType; from : HexCoord; to : HexCoord }.

Record SailAction := mkSail {
  sail_playerId : string;
  moves : list SailMove;
  sail_bribesUsed : Z }.

Definition isValidPath (from to : HexCoord) (b : Board) : bool :=
  let distance := hexDistance from to in
  if distance =? 1 then canSailBetween b from to
  else if distance =? 2 then
    existsb (fun neighbor =>
               (hexDistance (coord neighbor) to =? 1) &&
               (canSailBetween b from (coord neighbor) &&
                canSailBetween b (coord neighbor) to))
            (getNeighbors b from)
  else false.

Fixpoint validate_moves (a : SailAction) (b : Board) (ms : list SailMove) : ValidationResult :=
  match ms with
  | [] => ok
  | move :: ms' =>
      match getHex b (from move), getHex b (to move) with
      | Some fromHex, Some _ =>
          let playerShips := getPlayerShips fromHex (sail_playerId a) in
          if negb (existsb (fun sh => ShipType_eqb (type sh) (ship move)) playerShips)
          then invalid "No ship at source hex"
          else if negb (isValidPath (from move) (to move) b)
          then invalid "Invalid path (blocked by island or too far)"
          else validate_moves a b ms'
      | _, _ => invalid "Invalid hex coordinates"
      end
  end.

Definition validate (a : SailAction) (st : GameState) : ValidationResult :=
  let playerCheck := validatePlayer SAIL (sail_playerId a) st in
  if negb (valid playerCheck) then playerCheck else
  match getPlayer st (sail_playerId a) with
  | None => playerCheck
  | Some player =>
      if doubloons player <? sail_bribesUsed a
      then invalid "Not enough doubloons for bribes"
      else validate_moves a (board st) (moves a)
  end.

(** The [for] loop of [execute]; [None] when [board.moveShip] throws on an
    [undefined] ship (the [!] assertion does not hold). *)
Fixpoint execute_moves (pid : string) (ms : list SailMove) (st : GameState)
  : option GameState :=
  match ms with
  | [] => Some st
  | move :: ms' =>
      match getHex (board st) (from move) with
      | None => None
      | Some fromHex =>
          match find (fun sh => ShipType_eqb (type sh) (ship move))
                     (getPlayerShips fromHex pid) with
          | Some shipToMove =>
              execute_moves pid ms'
                (set_board st (fst (moveShip (board st) (from move) (to move) shipToMove)))
          | None =>
              if canSailBetween (board st) (from move) (to move) then None
              else execute_moves pid ms' st
          end
      end
  end.

Definition execute (a : SailAction) (st : GameState) : option (ActionResult * GameState) :=
  let validation := validate a st in
  if negb (valid validation) then Some (createFailureResult (reason_or_default validation), st)
  else
  let pid := sail_playerId a in
  let st1 := if 0 <? sail_bribesUsed a
             then update_player st pid (fun p => fst (spendDoubloons p (sail_bribesUsed a)))
             else st in
  match execute_moves pid (moves a) st1 with
  | None => None
  | Some st2 => Some (createSuccessResult "Sailed ship(s)" None None, st2)
  end.

End SailAction.

(* ================================================================= *)
(** ** [BuildAction] *)

Module BuildAction.
Import HexMath BoardModel Charts PlayerModel GameStateModel Action.

Record Placement := mkPlacement { place_hex : HexCoord; shipType : ShipType }.

Record BuildAction := mkBuild {
  build_playerId : string;
  placements : list Placement;
  build_bribesUsed : Z }.

Fixpoint validate_placements (a : BuildAction) (player : Player) (b : Board)
  (ps : list Placement) : ValidationResult :=
  match ps with
  | [] => ok
  | placement :: ps' =>
      match getHex b (place_hex placement) with
      | None => invalid "Invalid hex coordinate"
      | Some hex =>
          let hasPlayerPieces := 0 <? Z.of_nat (List.length (getPlayerShips hex (build_playerId a))) in
          let isPortHex :=
            match portLocation player with
            | Some pl => (q pl =? q (place_hex placement)) && (r pl =? r (place_hex placement))
            | None => false
            end in
          if negb hasPlayerPieces && negb isPortHex
          then invalid "Must build in hex with your pieces or port" else
          let hasEnemyPieces :=
            existsb (fun i => negb (String.eqb i (build_playerId a))) (getPlayerIds hex) in
          if hasEnemyPieces && negb isPortHex
          then invalid "Cannot build in hex with enemy pieces (except port hex)" else
          if ShipType_eqb (shipType placement) SLOOP && negb (hasShips player Sloops 1)
          then invalid "Not enough sloops" else
          if ShipType_eqb (shipType placement) GALLEON && negb (hasShips player Galleons 1)
          then invalid "Not enough galleons" else
          validate_placements a player b ps'
      end
  end.

Definition validate (a : BuildAction) (st : GameState) : ValidationResult :=
  let playerCheck := validatePlayer BUILD (build_playerId a) st in
  if negb (valid playerCheck) then playerCheck else
  match getPlayer st (build_playerId a) with
  | None => playerCheck
  | Some player =>
      if doubloons player <? build_bribesUsed a
      then invalid "Not enough doubloons for bribes"
      else validate_placements a player (board st) (placements a)
  end.

(** The placement loop: [spendShips] and [placeShip] results are ignored. *)
Fixpoint execute_placements (pid : string) (ps : list Placement) (st : GameState)
  : GameState :=
  match ps with
  | [] => st
  | placement :: ps' =>
      let '(sh, key) :=
        if ShipType_eqb (shipType placement) SLOOP
        then (mkShip SLOOP pid, Sloops) else (mkShip GALLEON pid, Galleons) in
      let st1 := update_player st pid (fun p => fst (spendShips p key 1)) in
      let st2 := set_board st1 (fst (placeShip (board st1) (place_hex placement) sh)) in
      execute_placements pid ps' st2
  end.

Definition execute (a : BuildAction) (st : GameState) : option (ActionResult * GameState) :=
  let validation := validate a st in
  if negb (valid validation) then Some (createFailureResult (reason_or_default validation), st)
  else
  let pid := build_playerId a in
  let st1 := if 0 <? build_bribesUsed a
             then update_player st pid (fun p => fst (spendDoubloons p (build_bribesUsed a)))
             else st in
  Some (createSuccessResult "Placed ship(s)" None None,
        execute_placements pid (placements a) st1).

End BuildAction.

(* ================================================================= *)
(** ** [StealAction] *)

Module StealAction.
Import HexMath BoardModel Charts PlayerModel GameStateModel Action.

Record StealAction := mkSteal {
  steal_playerId : string;
  steal_targetHex : HexCoord;
  steal_targetPlayerId : string }.

Definition validate (a : StealAction) (st : GameState) : ValidationResult :=
  let playerCheck := validatePlayer STEAL (steal_playerId a) st in
  if negb (valid playerCheck) then playerCheck else
  match getHex (board st) (steal_targetHex a) with
  | None => invalid "Invalid hex coordinate"
  | Some hex =>
      if Nat.eqb (List.length (getPlayerShips hex (steal_playerId a))) 0
      then invalid "You have no pieces in this hex"
      else if negb (existsb (fun sh => ShipType_eqb (type sh) SLOOP)
                            (getPlayerShips hex (steal_targetPlayerId a)))
      then invalid "Target has no sloop in this hex"
      else ok
  end.

Definition execute (a : StealAction) (st : GameState) : option (ActionResult * GameState) :=
  let validation := validate a st in
  if negb (valid validation) then Some (createFailureResult (reason_or_default validation), st)
  else
  let pid := steal_playerId a in
  match getHex (board st) (steal_targetHex a) with
  | None => None
  | Some hex =>
      match find (fun sh => ShipType_eqb (type sh) SLOOP)
                 (getPlayerShips hex (steal_targetPlayerId a)) with
      | None => None
      | Some sloopToRemove =>
          let hex1 := fst (removeShip hex sloopToRemove) in
          let st1 := set_board st (setHex (board st) hex1) in
          let st2 := match getPlayer st1 (steal_targetPlayerId a) with
                     | Some _ => update_player st1 (steal_targetPlayerId a)
                                   (fun p => returnShips p Sloops 1)
                     | None => st1
                     end in
          let st3 := match getPlayer st2 pid with
                     | Some player =>
                         if hasShips player Sloops 1 then
                           let st2' := set_board st2 (setHex (board st2) (addShip hex1 (mkShip SLOOP pid))) in
                           update_player st2' pid (fun p => fst (spendShips p Sloops 1))
                         else st2
                     | None => st2
                     end in
          Some (createSuccessResult "Stole opponent's sloop" None None, st3)
      end
  end.

End StealAction.

(* ================================================================= *)
(** ** [SinkAction] *)

Module SinkAction.
Import HexMath BoardModel Charts PlayerModel GameStateModel Action.

Record SloopMove := mkSloopMove { sm_from : HexCoord; sm_to : HexCoord }.
Record ExtraSink := mkExtraSink { extra_ship : ShipType; extra_playerId : string }.

Record SinkAction := mkSink {
  sink_playerId : string;
  targetHex : HexCoord;
  targetShip : ShipType;
  targetPlayerId : string;
  sink_bribesUsed : Z;
  moveSloop : option SloopMove;
  additionalSink : option ExtraSink }.

Definition validate (a : SinkAction) (st : GameState) : ValidationResult :=
  let playerCheck := validatePlayer SINK (sink_playerId a) st in
  if negb (valid playerCheck) then playerCheck else
  match getPlayer st (sink_playerId a) with
  | None => playerCheck
  | Some player =>
  let b := board st in
  if doubloons player <? sink_bribesUsed a then invalid "Not enough doubloons for bribes" else
  let sloopCheck :=
    match moveSloop a with
    | None => ok
    | Some mv =>
        match getHex b (sm_from mv), getHex b (sm_to mv) with
        | Some fromHex, Some _ =>
            if negb (canSailBetween b (sm_from mv) (sm_to mv))
            then invalid "Cannot move sloop along this path"
            else if negb (existsb (fun sh => ShipType_eqb (type sh) SLOOP)
                                  (getPlayerShips fromHex (sink_playerId a)))
            then invalid "No sloop to move"
            else ok
        | _, _ => invalid "Invalid sloop movement hexes"
        end
    end in
  if negb (valid sloopCheck) then sloopCheck else
  match getHex b (targetHex a) with
  | None => invalid "Invalid hex coordinate"
  | Some hex =>
      if Nat.eqb (List.length (getPlayerShips hex (sink_playerId a))) 0
      then invalid "You have no pieces in this hex"
      else if negb (existsb (fun sh => ShipType_eqb (type sh) (targetShip a))
                            (getPlayerShips hex (targetPlayerId a)))
      then invalid "Target ship not found in hex"
      else if ShipType_eqb (targetShip a) GALLEON &&
              (getInfluence hex (sink_playerId a) <? getInfluence hex (targetPlayerId a))
      then invalid "Not enough influence to sink Galleon"
      else ok
  end
  end.

(** [returnShips] by ship kind; a [PORT] has no inventory slot. *)
Definition return_by_type (t : ShipType) (p : Player) : Player :=
  match t with
  | SLOOP => returnShips p Sloops 1
  | GALLEON => returnShips p Galleons 1
  | PORT => p
  end.

Definition sink_reward (t : ShipType) : Z :=
  match t with SLOOP => 1 | GALLEON => 3 | PORT => 0 end.

Definition execute (a : SinkAction) (st : GameState) : option (ActionResult * GameState) :=
  let validation := validate a st in
  if negb (valid validation) then Some (createFailureResult (reason_or_default validation), st)
  else
  let pid := sink_playerId a in
  let st1 := if 0 <? sink_bribesUsed a
             then update_player st pid (fun p => fst (spendDoubloons p (sink_bribesUsed a)))
             else st in
  (* Bribe 1: move a sloop *)
  let st2 :=
    match moveSloop a with
    | None => Some st1
    | Some mv =>
        match getHex (board st1) (sm_from mv) with
        | None => None
        | Some fromHex =>
            match find (fun sh => ShipType_eqb (type sh) SLOOP) (getPlayerShips fromHex pid) with
            | Some sloop => Some (set_board st1 (fst (moveShip (board st1) (sm_from mv) (sm_to mv) sloop)))
            | None => if canSailBetween (board st1) (sm_from mv) (sm_to mv) then None else Some st1
            end
        end
    end in
  match st2 with None => None | Some st2 =>
  match getHex (board st2) (targetHex a) with None => None | Some hex =>
  match find (fun sh => ShipType_eqb (type sh) (targetShip a))
             (getPlayerShips hex (targetPlayerId a)) with
  | None => None
  | Some shipToSink =>
  let hex1 := fst (removeShip hex shipToSink) in
  let st3 := set_board st2 (setHex (board st2) hex1) in
  let st4 := match getPlayer st3 (targetPlayerId a) with
             | Some _ => update_player st3 (targetPlayerId a) (return_by_type (targetShip a))
             | None => st3
             end in
  let '(notorietyGained, st5) :=
    match getPlayer st4 (targetPlayerId a), getPlayer st4 pid with
    | Some target, Some player =>
        if notoriety player <=? notoriety target then
          let n := sink_reward (targetShip a) in
          (n, update_player st4 pid (fun p => gainNotoriety p n))
        else (0, st4)
    | _, _ => (0, st4)
    end in
  (* Bribe 2: sink another ship in the same hex *)
  let st6 :=
    match additionalSink a with
    | None => st5
    | Some extra =>
        match find (fun sh => ShipType_eqb (type sh) (extra_ship extra))
                   (getPlayerShips hex1 (extra_playerId extra)) with
        | None => st5
        | Some additionalShip =>
            let st5' := set_board st5 (setHex (board st5) (fst (removeShip hex1 additionalShip))) in
            match getPlayer st5' (extra_playerId extra) with
            | Some _ => update_player st5' (extra_playerId extra) (return_by_type (extra_ship extra))
            | None => st5'
            end
        end
    end in
  Some (createSuccessResult "Sunk" (Some notorietyGained) None, st6)
  end end end.

End SinkAction.

(* ================================================================= *)
(** ** [ChartAction] *)

Module ChartAction.
Import HexMath BoardModel Charts PlayerModel GameStateModel Action.

(** The action object, with its mutable [drawnCharts] field. *)
Record ChartAction := mkChartAction {
  chart_playerId : string;
  chart_bribesUsed : Z;
  drawExtra : bool;
  keepExtra : bool;
  selectedChartIds : list string;
  drawnCharts : option (list AnyChart) }.

Definition set_drawn (a : ChartAction) (cs : list AnyChart) : ChartAction :=
  mkChartAction (chart_playerId a) (chart_bribesUsed a) (drawExtra a) (keepExtra a)
                (selectedChartIds a) (Some cs).

Definition validate (a : ChartAction) (st : GameState) : ValidationResult :=
  let playerCheck := validatePlayer CHART (chart_playerId a) st in
  if negb (valid playerCheck) then playerCheck else
  match getPlayer st (chart_playerId a) with
  | None => playerCheck
  | Some player =>
      if doubloons player <? chart_bribesUsed a then invalid "Not enough doubloons for bribes"
      else if negb (Nat.eqb (List.length (selectedChartIds a)) 0) then
        let keepCount := if keepExtra a then 2%nat else 1%nat in
        if negb (Nat.eqb (List.length (selectedChartIds a)) keepCount)
        then invalid "Must select exactly the keep count of charts"
        else ok
      else ok
  end.

Section Exec.
Variable shuffle : list AnyChart -> list AnyChart.

(** [execute] returns the result, the game state and the action object (its
    [drawnCharts] field is set by the first step). *)
Definition execute (a : ChartAction) (st : GameState) : ActionResult * GameState * ChartAction :=
  let validation := validate a st in
  if negb (valid validation) then (createFailureResult (reason_or_default validation), st, a)
  else
  let pid := chart_playerId a in
  let drawCount := if drawExtra a then 3 else 2 in
  match selectedChartIds a, drawnCharts a with
  | [], None =>
      let st1 := if 0 <? chart_bribesUsed a
                 then update_player st pid (fun p => fst (spendDoubloons p (chart_bribesUsed a)))
                 else st in
      let (deck', drawn) := drawCharts shuffle (chartDeck st1) drawCount in
      (mkResult false "CHART_SELECTION_REQUIRED" (Some 0) (Some 0) drawn,
       set_deck st1 deck', set_drawn a drawn)
  | _, _ =>
      let '(st1, cs) :=
        match drawnCharts a with
        | Some cs => (st, cs)
        | None => let (deck', cs) := drawCharts shuffle (chartDeck st) drawCount in
                  (set_deck st deck', cs)
        end in
      let selected c := existsb (String.eqb (chart_id c)) (selectedChartIds a) in
      let chartsToKeep := filter selected cs in
      let chartsToDiscard := filter (fun c => negb (selected c)) cs in
      let st2 := update_player st1 pid (fun p => fold_left addChart chartsToKeep p) in
      let st3 := set_deck st2 (discardCharts (chartDeck st2) chartsToDiscard) in
      let st4 := giveWindToken st3 pid in
      (createSuccessResult "Drew charts, kept charts. Gained Wind token" (Some 0) (Some 0), st4, a)
  end.

End Exec.

End ChartAction.

(* ================================================================= *)
(** ** [Board.findPath] and [core/ChartValidator.ts] *)

Module ChartValidator.
Import HexMath HexConstants BoardModel PlayerModel Action.

(** One more iteration than there are board hexes. *)
Definition BOARD_FUEL : nat := S (List.length BOARD_HEXES).

(** [Board.findPath]: blocked = off the board, edges by [canSailBetween]. *)
Definition Board_findPath (b : Board) (from to : HexCoord) : list HexCoord :=
  findPath (fun c => negb (isOnBoard c)) (canSailBetween b) BOARD_FUEL from to.

Definition find_island (b : Board) (name : string) : option Island :=
  find (fun i => String.eqb (island_name i) name) (islands b).

Fixpoint check_path_cells (pid : string) (b : Board) (path : list HexCoord) : ValidationResult :=
  match path with
  | [] => ok
  | hexCoord :: path' =>
      match getHex b hexCoord with
      | None => invalid "Hex not found on path"
      | Some hex =>
          if Nat.eqb (List.length (getPlayerShips hex pid)) 0
          then invalid "Need at least one ship on every hex of the path"
          else check_path_cells pid b path'
      end
  end.

(** [canClaimSmugglerRoute] for a chart with islands [islandA] and [islandB]. *)
Definition canClaimSmugglerRoute (islandA islandB : string) (pid : string) (b : Board)
  : ValidationResult :=
  match find_island b islandA, find_island b islandB with
  | Some ia, Some ib =>
      let path := Board_findPath b (hexCoord ia) (hexCoord ib) in
      match path with
      | [] => invalid "No sailable path exists between the islands"
      | _ :: _ => check_path_cells pid b path
      end
  | _, _ => invalid "One or both islands not found"
  end.

Definition calculateSmugglerRouteReward (islandA islandB : string) (b : Board) : Z :=
  match find_island b islandA, find_island b islandB with
  | Some ia, Some ib => Z.of_nat (List.length (Board_findPath b (hexCoord ia) (hexCoord ib)))
  | _, _ => 0
  end.

End ChartValidator.

(* ================================================================= *)
(** ** More of [utils/HexMath.ts]: [getHexesInRange] *)

Module HexRange.
Import HexMath.

(** The values [lo], [lo + 1], ..., [hi] taken by the counter of a
    [for (let x = lo; x <= hi; x++)] loop (none when [hi < lo]). *)
Fixpoint zrange_from (lo : Z) (n : nat) : list Z :=
  match n with
  | O => []
  | S n' => lo :: zrange_from (lo + 1) n'
  end.

Definition zrange (lo hi : Z) : list Z := zrange_from lo (Z.to_nat (hi - lo + 1)).

(** The two nested loops, the outer one on [q0], the inner one on [r0]; each
    pushes [createHexCoord(center.q + q0, center.r + r0)]. *)
Definition getHexesInRange (center : HexCoord) (range : Z) : list HexCoord :=
  flat_map (fun q0 =>
              map (fun r0 => createHexCoord (q center + q0) (r center + r0))
                  (zrange (Z.max (- range) (- q0 - range)) (Z.min range (- q0 + range))))
           (zrange (- range) range).

End HexRange.

(* ================================================================= *)
(** ** More of [core/Hex.ts] and [core/Board.ts]: control and islands *)

Module HexControl.
Import HexMath HexConstants BoardModel.

(** [playerShips.reduce((total, ship) => total + ship.influence, 0)] *)
Definition ships_influence (playerShips : list Ship) : Z :=
  fold_left (fun total sh => total + influence sh) playerShips 0.

(** One iteration of the second loop of [getController], on the state
    [(maxInfluence, controller, tieExists)]. *)
Definition controller_step (acc : Z * option string * bool) (e : string * Z)
  : Z * option string * bool :=
  let '(maxInfluence, controller, tieExists) := acc in
  let '(pid, inf) := e in
  if maxInfluence <? inf then (inf, Some pid, false)
  else if (inf =? maxInfluence) && (0 <? inf) then (maxInfluence, controller, true)
  else (maxInfluence, controller, tieExists).

(** [Hex.getController].  The [influences] map gets one [set] per entry of the
    ship map, whose keys are distinct, so it lists the same players in the
    same order. *)
Definition getController (h : Hex) : option string :=
  match ships h with
  | [] => None
  | _ :: _ =>
      let influences := map (fun e => (fst e, ships_influence (snd e))) (ships h) in
      let '(_, controller, tieExists) :=
        fold_left controller_step influences (0, None, false) in
      if tieExists then None else controller
  end.

Definition getHexController (b : Board) (c : HexCoord) : option string :=
  match getHex b c with Some h => getController h | None => None end.

(** [Board.placeIsland]: the hex object gets the island, which is also pushed
    on [islands]. *)
Definition placeIsland (b : Board) (isl : Island) : Board * bool :=
  match getHex b (hexCoord isl) with
  | None => (b, false)
  | Some h =>
      let b1 := setHex b (mkHex (coord h) (ships h) (Some isl)) in
      (mkBoard (hexes b1) (islands b1 ++ [isl]), true)
  end.

(** [Board.getIslandAt]: [hex?.island || null]. *)
Definition getIslandAt (b : Board) (c : HexCoord) : option Island :=
  match getHex b c with Some h => island h | None => None end.

End HexControl.

(* ================================================================= *)
(** ** More of [core/Player.ts]: captains and the chart hand *)

Module PlayerMore.
Import HexMath BoardModel Charts PlayerModel.

Definition set_placedCaptains (p : Player) (l : list ActionType) : Player :=
  mkPlayer (id p) (notoriety p) (doubloons p) (captainCount p) (ships p) (portLocation p)
           l (charts p).

Definition placeCaptain (p : Player) (action : ActionType) : Player * bool :=
  if captainCount p <=? Z.of_nat (List.length (placedCaptains p)) then (p, false)
  else (set_placedCaptains p (placedCaptains p ++ [action]), true).

(** [placedCaptains.pop()]: the last captain placed. *)
Definition removeCaptain (p : Player) : Player * option ActionType :=
  match rev (placedCaptains p) with
  | [] => (p, None)
  | action :: rest => (set_placedCaptains p (rev rest), Some action)
  end.

Definition hasUnplacedCaptains (p : Player) : bool :=
  Z.of_nat (List.length (placedCaptains p)) <? captainCount p.

Definition resetCaptains (p : Player) : Player := set_placedCaptains p [].

Definition removeChart (p : Player) (chartId : string) : Player * bool :=
  match findIndex (fun c => String.eqb (chart_id c) chartId) (charts p) with
  | Some index => (set_charts p (splice1 (charts p) index), true)
  | None => (p, false)
  end.

Definition hasChart (p : Player) (chartId : string) : bool :=
  existsb (fun c => String.eqb (chart_id c) chartId) (charts p).

End PlayerMore.

(* ================================================================= *)
(** ** More of [core/ChartDeck.ts] *)

Module DeckMore.
Import HexMath BoardModel Charts.

Definition discardChart (d : ChartDeck) (c : AnyChart) : ChartDeck :=
  mkDeck (drawPile d) (discardPile d ++ [c]) (activeIslandRaids d) (allIslandRaids d)
         (playerCount d).

Definition removeIslandRaid (d : ChartDeck) (raidId : string) : ChartDeck :=
  match findIndex (fun r => String.eqb (chart_id r) raidId) (activeIslandRaids d) with
  | Some index =>
      mkDeck (drawPile d) (discardPile d) (splice1 (activeIslandRaids d) index)
             (allIslandRaids d) (playerCount d)
  | None => d
  end.

End DeckMore.

(* ================================================================= *)
(** ** More of [core/ChartValidator.ts]: Treasure Maps and Island Raids *)

Module ClaimValidator.
Import HexMath HexConstants BoardModel PlayerModel Action ChartValidator HexControl.

(** The reasons interpolate the coordinates or the island name; the model
    keeps their fixed words. *)
Definition canClaimTreasureMap (targetHex : HexCoord) (pid : string) (b : Board)
  : ValidationResult :=
  match getHex b targetHex with
  | None => invalid "Target hex not found"
  | Some hex =>
      let playerShips := getPlayerShips hex pid in
      if negb (existsb (fun sh => ShipType_eqb (type sh) GALLEON) playerShips)
      then invalid "Need a Galleon at the target hex to claim Treasure Map" else
      let controller := getController hex in
      if negb (match controller with Some c => String.eqb c pid | None => false end)
      then invalid "Must control the target hex to claim Treasure Map" else
      ok
  end.

Definition canClaimIslandRaid (targetIsland : string) (doubloonsOnChart : Z) (pid : string)
  (b : Board) : ValidationResult :=
  match find_island b targetIsland with
  | None => invalid "Island not found"
  | Some isl =>
      match getHex b (hexCoord isl) with
      | None => invalid "Island hex not found"
      | Some hex =>
          let playerShips := getPlayerShips hex pid in
          if negb (existsb (fun sh => ShipType_eqb (type sh) GALLEON) playerShips)
          then invalid "Need a Galleon on the island to claim Island Raid" else
          let controller := getController hex in
          if negb (match controller with Some c => String.eqb c pid | None => false end)
          then invalid "Must control the island to claim Island Raid" else
          if doubloonsOnChart <? 2
          then invalid "Island Raid needs at least 2 doubloons" else
          ok
      end
  end.

End ClaimValidator.

(* ================================================================= *)
(** ** [ClaimChartAction] *)

Module ClaimChartAction.
Import HexMath BoardModel Charts PlayerModel GameStateModel Action ChartValidator
       PlayerMore DeckMore ClaimValidator.

Record ClaimChartAction := mkClaim { claim_playerId : string; chartId : string }.

(** [player.charts.find(...)], else the active Island Raids. *)
Definition find_chart (player : Player) (st : GameState) (cid : string) : option AnyChart :=
  match find (fun c => String.eqb (chart_id c) cid) (charts player) with
  | Some c => Some c
  | None => find (fun r => String.eqb (chart_id r) cid) (activeIslandRaids (chartDeck st))
  end.

Definition validate (a : ClaimChartAction) (st : GameState) : ValidationResult :=
  let playerCheck := validatePlayer CHART (claim_playerId a) st in
  if negb (valid playerCheck) then playerCheck else
  match getPlayer st (claim_playerId a) with
  | None => playerCheck
  | Some player =>
      match find_chart player st (chartId a) with
      | None => invalid "Chart not found"
      | Some chart =>
          match body chart with
          | TreasureMap targetHex => canClaimTreasureMap targetHex (id player) (board st)
          | IslandRaid targetIsland doubloonsOnChart _ =>
              canClaimIslandRaid targetIsland doubloonsOnChart (id player) (board st)
          | SmugglerRoute islandA islandB =>
              canClaimSmugglerRoute islandA islandB (id player) (board st)
          end
      end
  end.

(** [execute]; [None] where the code would throw (no player behind the [!]).
    The Treasure Map message interpolates the coordinates; the model keeps
    its fixed words. *)
Definition execute (a : ClaimChartAction) (st : GameState) : option (ActionResult * GameState) :=
  let validation := validate a st in
  if negb (valid validation) then
    Some (createFailureResult (match reason validation with
                               | Some why => why | None => "Invalid claim" end), st)
  else
  let pid := claim_playerId a in
  match getPlayer st pid with
  | None => None
  | Some player =>
      let '(chart, isIslandRaid) :=
        match find (fun c => String.eqb (chart_id c) (chartId a)) (charts player) with
        | Some c => (Some c, false)
        | None => (find (fun r => String.eqb (chart_id r) (chartId a))
                        (activeIslandRaids (chartDeck st)), true)
        end in
      match chart with
      | None => Some (createFailureResult "Chart not found", st)
      | Some c =>
          let '(notoriety0, doubloons0, message) :=
            match body c with
            | TreasureMap _ => (0, Z.of_nat (List.length (players st)), "Claimed Treasure Map"%string)
            | IslandRaid targetIsland doubloonsOnChart notorietyReward =>
                (notorietyReward, doubloonsOnChart, ("Raided " ++ targetIsland)%string)
            | SmugglerRoute islandA islandB =>
                (0, calculateSmugglerRouteReward islandA islandB (board st),
                 ("Completed Smuggler Route: " ++ islandA ++ " to " ++ islandB)%string)
            end in
          let st1 := if 0 <? notoriety0
                     then update_player st pid (fun p => gainNotoriety p notoriety0) else st in
          let st2 := if 0 <? doubloons0
                     then update_player st1 pid (fun p => gainDoubloons p doubloons0) else st1 in
          let st3 := if negb isIslandRaid
                     then update_player st2 pid (fun p => fst (removeChart p (chartId a)))
                     else st2 in
          let st4 := if isIslandRaid
                     then set_deck st3 (removeIslandRaid (chartDeck st3) (chartId a))
                     else set_deck st3 (discardChart (chartDeck st3) c) in
          Some (createSuccessResult message (Some notoriety0) (Some doubloons0), st4)
      end
  end.

End ClaimChartAction.

(* ================================================================= *)
(** ** Turns and phases: more of [core/GameState.ts] *)

Module TurnModel.
Import HexMath BoardModel Charts PlayerModel GameStateModel PlayerMore.

Inductive GamePhase := SETUP | PLACE | PLAY | PIRATE | GAME_OVER.
Inductive WindDirection := CLOCKWISE | COUNTERCLOCKWISE.

(** The fields of [GameState] that the turn and phase methods read and write,
    beside those of the [GameState] record above. *)
Record Session := mkSession {
  gs : GameState;
  currentPhase : GamePhase;
  currentRound : Z;
  activePlayerIndex : Z;
  windDirection : WindDirection }.

Definition set_activePlayerIndex (s : Session) (i : Z) : Session :=
  mkSession (gs s) (currentPhase s) (currentRound s) i (windDirection s).

(** [this.players[this.activePlayerIndex] || null] *)
Definition getActivePlayer (s : Session) : option Player :=
  if activePlayerIndex s <? 0 then None
  else nth_error (players (gs s)) (Z.to_nat (activePlayerIndex s)).

(** [nextTurn]; JS [%] is [Z.rem].  With no player JS computes [NaN]. *)
Definition nextTurn (s : Session) : Session :=
  let n := Z.of_nat (List.length (players (gs s))) in
  match windDirection s with
  | CLOCKWISE => set_activePlayerIndex s (Z.rem (activePlayerIndex s + 1) n)
  | COUNTERCLOCKWISE => set_activePlayerIndex s (Z.rem (activePlayerIndex s - 1 + n) n)
  end.

Definition toggleWindDirection (s : Session) : Session :=
  mkSession (gs s) (currentPhase s) (currentRound s) (activePlayerIndex s)
            (match windDirection s with
             | CLOCKWISE => COUNTERCLOCKWISE
             | COUNTERCLOCKWISE => CLOCKWISE
             end).

Definition set_gameOver (st : GameState) (b : bool) : GameState :=
  mkState (players st) (board st) (chartDeck st) (windTokenHolder st) b (winner st).

(** [checkGameEnd]: the first player who has won ends the game. *)
Definition checkGameEnd (st : GameState) : GameState * bool :=
  if existsb hasWon (players st) then (determineWinner (set_gameOver st true), true)
  else (st, false).

Definition resetPlayersForNewRound (st : GameState) : GameState :=
  set_players st (map resetCaptains (players st)).

Definition nextPhase (s : Session) : Session :=
  match currentPhase s with
  | SETUP => mkSession (gs s) PLACE (currentRound s) (activePlayerIndex s) (windDirection s)
  | PLACE => mkSession (gs s) PLAY (currentRound s) (activePlayerIndex s) (windDirection s)
  | PLAY => mkSession (gs s) PIRATE (currentRound s) (activePlayerIndex s) (windDirection s)
  | PIRATE =>
      let '(st', ended) := checkGameEnd (gs s) in
      if ended
      then mkSession st' GAME_OVER (currentRound s) (activePlayerIndex s) (windDirection s)
      else mkSession (resetPlayersForNewRound st') PLACE (currentRound s + 1)
                     (activePlayerIndex s) (windDirection s)
  | GAME_OVER => s
  end.

End TurnModel.

(* ================================================================= *)
(** ** Auxiliary notions used to state the properties *)

Module Specs.
Import HexMath HexConstants BoardModel Charts PlayerModel GameStateModel.

(** The number of captain-unlock thresholds reached or passed when notoriety
    goes from [old] to [new]: [old < t <= new]. *)
Definition crossed (old new : Z) : Z :=
  fold_left (fun n t => if (old <? t) && (t <=? new) then n + 1 else n)
            CAPTAIN_UNLOCK_THRESHOLDS 0.

(** A sequence of notoriety gains applied one after the other. *)
Definition gainAll (p : Player) (gains : list Z) : Player := fold_left gainNotoriety gains p.

Definition sumZ (l : list Z) : Z := fold_left Z.add l 0.

(** A route from [x] through the cells [l] to [y] whose every hop passes
    [canTraverse]; [l] lists the cells after [x], so it has one cell per hop. *)
Fixpoint trav_chain (canTraverse : HexCoord -> HexCoord -> bool)
  (x : HexCoord) (l : list HexCoord) (y : HexCoord) : Prop :=
  match l with
  | [] => x = y
  | n :: l' => canTraverse x n = true /\ trav_chain canTraverse n l' y
  end.

(** A sailable route: each hop passes [canSailBetween]. *)
Definition sail_chain (b : Board) : HexCoord -> list HexCoord -> HexCoord -> Prop :=
  trav_chain (canSailBetween b).

(** The claimant has at least one ship on the board cell [c]. *)
Definition has_ship_at (b : Board) (pid : string) (c : HexCoord) : bool :=
  match getHex b c with
  | Some h => negb (Nat.eqb (List.length (getPlayerShips h pid)) 0)
  | None => false
  end.

(** Ships of kind [t] of player [pid] on the board. *)
Definition board_count (b : Board) (pid : string) (t : ShipType) : nat :=
  fold_left (fun n h => n + List.length (filter (fun sh => ShipType_eqb (type sh) t)
                                                 (getPlayerShips h pid)))%nat
            (hexes b) 0%nat.

(** One iteration of the loop of [determineWinner]. *)
Definition winner_step (acc : Z * option Player) (player : Player) : Z * option Player :=
  let '(highestScore, w) := acc in
  let score := getFinalScore player in
  if highestScore <? score then (score, Some player) else (highestScore, w).

(** The ships of player [pid] on the board cell [c]. *)
Definition ships_at (b : Board) (pid : string) (c : HexCoord) : list Ship :=
  match getHex b c with Some h => getPlayerShips h pid | None => [] end.

(** The total hop distance of the moves of a Sail action. *)
Definition total_hops (a : SailAction.SailAction) : Z :=
  fold_left (fun n mv => n + hexDistance (SailAction.from mv) (SailAction.to mv))
            (SailAction.moves a) 0.

(** The same Sink action without its additional-sink enhancement. *)
Definition without_additional (a : SinkAction.SinkAction) : SinkAction.SinkAction :=
  SinkAction.mkSink (SinkAction.sink_playerId a) (SinkAction.targetHex a)
    (SinkAction.targetShip a) (SinkAction.targetPlayerId a) (SinkAction.sink_bribesUsed a)
    (SinkAction.moveSloop a) None.

(** The offset of direction [i] in [DIRECTION_VECTORS], as [getNeighbor] reads it. *)
Definition dq (i : Z) : Z := q (nth (Z.to_nat (Z.rem i 6)) DIRECTION_VECTORS (createHexCoord 0 0)).
Definition dr (i : Z) : Z := r (nth (Z.to_nat (Z.rem i 6)) DIRECTION_VECTORS (createHexCoord 0 0)).

(** Decidable equality of coordinates. *)
Definition HexCoord_eq_dec (a b : HexCoord) : {a = b} + {a <> b}.
Proof. decide equality; apply Z.eq_dec. Defined.

(** Bookkeeping of the breadth-first search of [findPath] over the cells
    [cells] (every cell that is not blocked): the cells not yet visited, and
    the measure (queue length plus unvisited cells) that each iteration
    lowers. *)
Definition bfs_unvisited (cells V : list HexCoord) : nat :=
  List.length (filter (fun c => negb (visited_has c V)) cells).

Definition bfs_measure (cells : list HexCoord) (Q : list (HexCoord * list HexCoord))
  (V : list HexCoord) : nat :=
  (List.length Q + bfs_unvisited cells V)%nat.

(** [p] is a route from [x] to [c] (its cells, [x] first) with the fewest hops. *)
Definition bfs_shortest_to (canTraverse : HexCoord -> HexCoord -> bool) (x c : HexCoord)
  (p : list HexCoord) : Prop :=
  exists l, p = x :: l /\ trav_chain canTraverse x l c /\
    forall l', trav_chain canTraverse x l' c -> (List.length l <= List.length l')%nat.

(** The loop invariant of the search from [x] for [end_] with queue [Q] and
    visited list [V]: [x] is visited and [end_] is not; each queued path is a
    shortest route to its cell; queued path lengths are sorted and within one
    of each other; every cell reachable in fewer hops than the front path has
    is visited; and a visited cell that is no longer queued has all its
    traversable neighbours visited. *)
Definition bfs_inv (canTraverse : HexCoord -> HexCoord -> bool) (x end_ : HexCoord)
  (Q : list (HexCoord * list HexCoord)) (V : list HexCoord) : Prop :=
  In x V /\ ~ In end_ V /\
  (forall c p, In (c, p) Q -> bfs_shortest_to canTraverse x c p) /\
  StronglySorted le (map (fun e => List.length (snd e)) Q) /\
  (forall e1 e2, In e1 Q -> In e2 Q -> (List.length (snd e2) <= List.length (snd e1) + 1)%nat) /\
  (match Q with
   | [] => True
   | (c1, p1) :: _ => forall u l, trav_chain canTraverse x l u ->
                        (List.length l + 1 <= List.length p1)%nat -> In u V
   end) /\
  (forall v, In v V -> ~ In v (map fst Q) -> forall n, canTraverse v n = true -> In n V).

End Specs.

(* ================================================================= *)
(** ** Concrete game situations *)

Module Scenarios.
Import HexMath HexConstants BoardModel Charts PlayerModel GameStateModel.

(** The 19-hex board with no ship and no island. *)
Definition emptyBoard : Board := mkBoard (map (fun c => mkHex c [] None) BOARD_HEXES) [].

Definition c00 := createHexCoord 0 0.
Definition c10 := createHexCoord 1 0.
Definition c20 := createHexCoord 2 0.
Definition c01 := createHexCoord 0 1.
Definition c0m1 := createHexCoord 0 (-1).

Definition place (b : Board) (c : HexCoord) (sh : Ship) : Board := fst (placeShip b c sh).

Definition emptyDeck : ChartDeck := mkDeck [] [] [] [] 2.

(** Player [p1], port at the centre, one sloop left in inventory, captains on
    Sail and Build, no doubloons; its sloops are on (0,0) and (0,1). *)
Definition p1 : Player :=
  mkPlayer "p1" 0 0 2 (mkInventory 1 2) (Some c00) [SAIL; BUILD] [].

Definition board_p1 : Board :=
  place (place emptyBoard c00 (mkShip SLOOP "p1")) c01 (mkShip SLOOP "p1").

Definition st_p1 : GameState := mkState [p1] board_p1 emptyDeck None false None.

(** Two ships each moved two hexes, no bribe. *)
Definition sail_two_by_two : SailAction.SailAction :=
  SailAction.mkSail "p1" [SailAction.mkSailMove SLOOP c00 c20;
                          SailAction.mkSailMove SLOOP c01 c0m1] 0.

(** One ship moved two hexes, from (0,0) through (1,0) to (2,0). *)
Definition sail_two_hexes : SailAction.SailAction :=
  SailAction.mkSail "p1" [SailAction.mkSailMove SLOOP c00 c20] 0.

(** Two sloops built on the port with one sloop left in inventory. *)
Definition build_two_sloops : BuildAction.BuildAction :=
  BuildAction.mkBuild "p1" [BuildAction.mkPlacement c00 SLOOP;
                            BuildAction.mkPlacement c00 SLOOP] 0.

(** At (0,0): a sloop of [p1] (influence 1), a sloop and a galleon of [p2]
    (influence 3); [p1] has a captain on Sink. *)
Definition sinker : Player := mkPlayer "p1" 0 2 2 (mkInventory 3 2) None [SINK] [].
Definition owner : Player := mkPlayer "p2" 0 0 2 (mkInventory 3 1) None [] [].

Definition board_sink : Board :=
  place (place (place emptyBoard c00 (mkShip SLOOP "p1")) c00 (mkShip SLOOP "p2"))
        c00 (mkShip GALLEON "p2").

Definition st_sink : GameState := mkState [sinker; owner] board_sink emptyDeck None false None.

(** Sink [p2]'s sloop, and with the additional sink its galleon. *)
Definition sink_with_extra : SinkAction.SinkAction :=
  SinkAction.mkSink "p1" c00 SLOOP "p2" 1 None (Some (SinkAction.mkExtraSink GALLEON "p2")).

(** An island on (0,0) whose only impassable edge is East (direction 0); the
    East neighbour (1,0) holds no island. *)
Definition east_wall : Island := mkIsland "Tortuga" c00 [0].

Definition board_east_wall : Board :=
  mkBoard (map (fun c => mkHex c [] (if hexEquals c c00 then Some east_wall else None))
               BOARD_HEXES) [east_wall].

(** A Chart action with one bribe and no selection yet; [p1] holds one
    doubloon and one chart, the draw pile three charts, the discard pile one. *)
Definition ch (n : string) : AnyChart := mkChart n (SmugglerRoute "Havana" "Tortuga").
Definition charter : Player := mkPlayer "p1" 0 1 2 (mkInventory 4 2) None [CHART] [ch "k"].
Definition st_chart : GameState :=
  mkState [charter] emptyBoard (mkDeck [ch "a"; ch "b"; ch "c"] [ch "d"] [] [] 2) None false None.
Definition chart_first_step : ChartAction.ChartAction :=
  ChartAction.mkChartAction "p1" 1 false false [] None.

(** Islands "Havana" on (0,0) and "Tortuga" on (2,0), no impassable edge; the
    only shortest route between them goes through (1,0).  In [board_route_ends]
    [p1] has sloops on the two island cells only, in [board_route_full] also
    on (1,0). *)
Definition havana : Island := mkIsland "Havana" c00 [].
Definition tortuga : Island := mkIsland "Tortuga" c20 [].

Definition board_route : Board :=
  mkBoard (map (fun c => mkHex c [] (if hexEquals c c00 then Some havana
                                     else if hexEquals c c20 then Some tortuga else None))
               BOARD_HEXES) [havana; tortuga].

Definition board_route_ends : Board :=
  place (place board_route c00 (mkShip SLOOP "p1")) c20 (mkShip SLOOP "p1").

Definition board_route_full : Board := place board_route_ends c10 (mkShip SLOOP "p1").

End Scenarios.

(* ================================================================= *)
(** ** Invariants used by the proofs *)

Module Invariants.
Import HexMath BoardModel HexControl PlayerModel.

(** The invariant of the second loop of [getController] after the entries
    [L]: [mx] is the largest influence (at least 0); when it is positive,
    [controller] holds the first player reaching it and [tieExists] says
    whether another one reaches it too. *)
Definition ctrl_inv (L : list (string * Z)) (acc : Z * option string * bool) : Prop :=
  let '(mx, c, t) := acc in
  0 <= mx /\ (forall e, In e L -> snd e <= mx) /\
  (mx = 0 -> c = None /\ t = false) /\
  (0 < mx -> exists p, c = Some p /\ In (p, mx) L /\
                       (t = false <-> forall p', In (p', mx) L -> p' = p)).

(** Captains placed never exceed the captain slots. *)
Definition captains_ok (p : Player) : Prop :=
  Z.of_nat (List.length (placedCaptains p)) <= captainCount p.

End Invariants.

(* ================================================================= *)
(** ** More concrete inputs *)

Module MoreScenarios.
Import HexMath HexConstants BoardModel Charts PlayerModel GameStateModel Action
       ClaimChartAction TurnModel Scenarios.

(** The hex (0,0) of [board_sink]: a sloop of [p1], a sloop and a galleon
    of [p2]. *)
Definition hex_sink : Hex :=
  mkHex c00 [("p1"%string, [mkShip SLOOP "p1"]);
             ("p2"%string, [mkShip SLOOP "p2"; mkShip GALLEON "p2"])] None.

(** [charter] playing the chart it holds, on the board where it has a ship
    on every hex of the route Havana - Tortuga. *)
Definition st_claim : GameState :=
  mkState [charter] board_route_full (mkDeck [ch "a"] [ch "d"] [] [] 2) None false None.
Definition claim_k : ClaimChartAction := mkClaim "p1" "k".

(** An active Island Raid on Havana, where [p1] has a galleon. *)
Definition raid : AnyChart := mkChart "r" (IslandRaid "Havana" 2 4).
Definition st_raid : GameState :=
  mkState [charter] (place board_route c00 (mkShip GALLEON "p1"))
          (mkDeck [ch "a"] [ch "d"] [raid] [raid] 2) None false None.
Definition claim_r : ClaimChartAction := mkClaim "p1" "r".

(** A Chart action that keeps chart "a" of the two it draws. *)
Definition chart_keep_a : ChartAction.ChartAction :=
  ChartAction.mkChartAction "p1" 1 false false ["a"%string] None.

(** The two players of [st_sink], [sinker] to play, clockwise. *)
Definition session_sink : Session := mkSession st_sink PLAY 1 0 CLOCKWISE.

(** A pirate phase in which [p1] has reached the winning notoriety. *)
Definition champion : Player := mkPlayer "p1" 24 3 3 (mkInventory 4 2) None [SAIL] [].
Definition session_end : Session :=
  mkSession (mkState [champion; owner] emptyBoard emptyDeck None false None) PIRATE 3 1 CLOCKWISE.

End MoreScenarios.

(* ================================================================= *)
(** * Properties *)

(** ** Atomicity of failed validation *)

Module AtomicityProofs.
Import HexMath BoardModel Charts PlayerModel GameStateModel Action.

(** C1: for each of the five actions, when [validate] reports invalid,
    [execute] returns a failure result ([success = false]) and the game state
    it leaves is the one it was given (board, inventories, doubloons,
    notoriety, chart deck: the whole state value); the chart action object is
    unchanged too. *)
Theorem execute_invalid_no_change (shuffle : list AnyChart -> list AnyChart) :
  (forall a st, valid (SailAction.validate a st) = false ->
     exists r, SailAction.execute a st = Some (r, st) /\ success r = false) /\
  (forall a st, valid (BuildAction.validate a st) = false ->
     exists r, BuildAction.execute a st = Some (r, st) /\ success r = false) /\
  (forall a st, valid (StealAction.validate a st) = false ->
     exists r, StealAction.execute a st = Some (r, st) /\ success r = false) /\
  (forall a st, valid (SinkAction.validate a st) = false ->
     exists r, SinkAction.execute a st = Some (r, st) /\ success r = false) /\
  (forall a st, valid (ChartAction.validate a st) = false ->
     exists r, ChartAction.execute shuffle a st = (r, st, a) /\ success r = false).
Proof.
  repeat split; intros a st Hinv; eexists; split;
    try (unfold SailAction.execute, BuildAction.execute, StealAction.execute,
                SinkAction.execute, ChartAction.execute; rewrite Hinv; reflexivity);
    reflexivity.
Qed.

End AtomicityProofs.

(** ** Final standing *)

Module WinnerProofs.
Import HexMath BoardModel Charts PlayerModel GameStateModel Action Specs.

Lemma determineWinner_loop_step ps : determineWinner_loop ps = fold_left winner_step ps (-1, None).
Proof. reflexivity. Qed.

(** The scan keeps its accumulator when nothing beats it; otherwise it ends on
    the first player of maximal final score. *)
Lemma fold_step_spec ps : forall hs wo,
  (fold_left winner_step ps (hs, wo) = (hs, wo) /\ Forall (fun p => getFinalScore p <= hs) ps) \/
  (exists pre w post, ps = pre ++ w :: post /\
     fold_left winner_step ps (hs, wo) = (getFinalScore w, Some w) /\
     hs < getFinalScore w /\
     Forall (fun p => getFinalScore p < getFinalScore w) pre /\
     Forall (fun p => getFinalScore p <= getFinalScore w) post).
Proof.
  induction ps as [|x ps IH]; intros hs wo; simpl.
  - left; auto.
  - destruct (hs <? getFinalScore x) eqn:E.
    + apply Z.ltb_lt in E. right.
      destruct (IH (getFinalScore x) (Some x)) as [[H1 H2]|(pre & w & post & H1 & H2 & H3 & H4 & H5)].
      * exists [], x, ps. simpl. repeat split; auto.
      * exists (x :: pre), w, post. subst ps. simpl.
        split; [reflexivity|]. split; [exact H2|]. split; [lia|]. split; [|exact H5].
        constructor; [lia|exact H4].
    + apply Z.ltb_ge in E.
      destruct (IH hs wo) as [[H1 H2]|(pre & w & post & H1 & H2 & H3 & H4 & H5)].
      * left. split; auto.
      * right. exists (x :: pre), w, post. subst ps. simpl.
        split; [reflexivity|]. split; [exact H2|]. split; [exact H3|]. split; [|exact H5].
        constructor; [lia|exact H4].
Qed.

(** C2 (as the code has it): the winner is the first player, in player order,
    whose final score [notoriety + doubloons] is maximal; every earlier player
    has a strictly smaller score and no later one a larger score. *)
Theorem determineWinner_max_final_score (st : GameState)
  (Hne : players st <> [])
  (Hnonneg : Forall (fun p => 0 <= getFinalScore p) (players st)) :
  exists pre w post,
    players st = pre ++ w :: post /\
    winner (determineWinner st) = Some w /\
    Forall (fun p => getFinalScore p < getFinalScore w) pre /\
    Forall (fun p => getFinalScore p <= getFinalScore w) post.
Proof.
  unfold determineWinner; simpl. rewrite determineWinner_loop_step.
  destruct (fold_step_spec (players st) (-1) None)
    as [[H1 H2]|(pre & w & post & H1 & H2 & H3 & H4 & H5)].
  - exfalso. destruct (players st) as [|p ps]; [congruence|].
    inversion H2; inversion Hnonneg; subst. lia.
  - exists pre, w, post. rewrite H2. simpl. auto.
Qed.

Lemma determineWinner_max_final_score_witness :
  let pa := mkPlayer "A" 24 0 2 (mkInventory 4 2) None [] [] in
  let pb := mkPlayer "B" 20 10 2 (mkInventory 4 2) None [] [] in
  let st := mkState [pa; pb] (BoardModel.mkBoard [] []) (mkDeck [] [] [] [] 2) None true None in
  players st <> [] /\ Forall (fun p => 0 <= getFinalScore p) (players st) /\
  exists pre w post,
    players st = pre ++ w :: post /\
    winner (determineWinner st) = Some w /\
    Forall (fun p => getFinalScore p < getFinalScore w) pre /\
    Forall (fun p => getFinalScore p <= getFinalScore w) post.
Proof.
  intros pa pb st.
  assert (Hne : players st <> []) by discriminate.
  assert (Hnn : Forall (fun p => 0 <= getFinalScore p) (players st))
    by (repeat constructor; vm_compute; discriminate).
  split; [exact Hne|]. split; [exact Hnn|].
  exact (determineWinner_max_final_score st Hne Hnn).
Defined.

(** C2 fails: player A has strictly more notoriety than player B (24 > 20) but B,
    with 10 doubloons, is the winner. *)
Lemma determineWinner_notoriety_not_decisive :
  let pa := mkPlayer "A" 24 0 2 (mkInventory 4 2) None [] [] in
  let pb := mkPlayer "B" 20 10 2 (mkInventory 4 2) None [] [] in
  let st := mkState [pa; pb] (BoardModel.mkBoard [] []) (mkDeck [] [] [] [] 2) None true None in
  notoriety pb < notoriety pa /\ winner (determineWinner st) = Some pb.
Proof. split; reflexivity. Qed.

End WinnerProofs.

(** ** Captain unlocks *)

Module UnlockProofs.
Import HexMath BoardModel Charts PlayerModel GameStateModel Specs.

Lemma crossed_eq old new :
  crossed old new =
    (if (old <? 5) && (5 <=? new) then 1 else 0) + (if (old <? 12) && (12 <=? new) then 1 else 0).
Proof.
  unfold crossed, CAPTAIN_UNLOCK_THRESHOLDS; simpl.
  destruct ((old <? 5) && (5 <=? new)), ((old <? 12) && (12 <=? new)); reflexivity.
Qed.

Lemma gainNotoriety_captainCount p amount :
  captainCount (gainNotoriety p amount) =
    captainCount p + crossed (notoriety p) (notoriety p + amount).
Proof.
  rewrite crossed_eq. unfold gainNotoriety, CAPTAIN_UNLOCK_THRESHOLDS, set_captainCount, set_notoriety.
  cbn [fold_left captainCount notoriety].
  destruct ((notoriety p <? 5) && (5 <=? notoriety p + amount)); cbn [captainCount notoriety];
  destruct ((notoriety p <? 12) && (12 <=? notoriety p + amount)); cbn [captainCount notoriety]; lia.
Qed.

Lemma gainNotoriety_notoriety p amount :
  notoriety (gainNotoriety p amount) = notoriety p + amount.
Proof.
  unfold gainNotoriety, CAPTAIN_UNLOCK_THRESHOLDS, set_captainCount, set_notoriety.
  cbn [fold_left captainCount notoriety].
  destruct ((notoriety p <? 5) && (5 <=? notoriety p + amount)); cbn [captainCount notoriety];
  destruct ((notoriety p <? 12) && (12 <=? notoriety p + amount)); reflexivity.
Qed.

Lemma crossed_split a b c : a <= b -> b <= c -> crossed a c = crossed a b + crossed b c.
Proof.
  intros H1 H2. rewrite !crossed_eq.
  destruct (a <? 5) eqn:E1, (5 <=? c) eqn:E2, (a <? 12) eqn:E3, (12 <=? c) eqn:E4,
           (5 <=? b) eqn:E5, (b <? 5) eqn:E6, (12 <=? b) eqn:E7, (b <? 12) eqn:E8;
    simpl; rewrite ?Z.ltb_lt, ?Z.ltb_ge, ?Z.leb_le, ?Z.leb_gt in *; lia.
Qed.

Lemma sumZ_cons a l : sumZ (a :: l) = a + sumZ l.
Proof.
  assert (Hacc : forall l z, fold_left Z.add l z = z + fold_left Z.add l 0).
  { induction l0 as [|x l0 IH]; intros z; simpl; [lia|].
    rewrite (IH (z + x)), (IH x). lia. }
  unfold sumZ; simpl. apply Hacc.
Qed.

Lemma gainAll_spec gains : forall p, Forall (Z.le 0) gains ->
  notoriety (gainAll p gains) = notoriety p + sumZ gains /\
  captainCount (gainAll p gains) =
    captainCount p + crossed (notoriety p) (notoriety p + sumZ gains).
Proof.
  induction gains as [|a gains IH]; intros p Hnn; simpl.
  - unfold sumZ; simpl. rewrite Z.add_0_r, crossed_eq.
    destruct (notoriety p <? 5) eqn:E1, (5 <=? notoriety p) eqn:E2,
             (notoriety p <? 12) eqn:E3, (12 <=? notoriety p) eqn:E4;
      simpl; rewrite ?Z.ltb_lt, ?Z.ltb_ge, ?Z.leb_le, ?Z.leb_gt in *; split; lia.
  - inversion Hnn as [|? ? Ha Hrest]; subst.
    destruct (IH (gainNotoriety p a) Hrest) as [IH1 IH2].
    unfold gainAll in *; simpl.
    rewrite sumZ_cons, IH1, IH2, gainNotoriety_notoriety, gainNotoriety_captainCount.
    assert (0 <= sumZ gains).
    { clear -Hrest. induction Hrest; [unfold sumZ; simpl; lia|].
      rewrite sumZ_cons; lia. }
    split; [lia|].
    rewrite (crossed_split (notoriety p) (notoriety p + a) (notoriety p + (a + sumZ gains)))
      by lia.
    replace (notoriety p + a + sumZ gains) with (notoriety p + (a + sumZ gains)) by lia.
    lia.
Qed.

(** C9: a single notoriety gain raises [captainCount] by the number of unlock
    thresholds (5 and 12) it reaches or passes ([old < t <= new]); a gain from
    4 to 6 raises it exactly once; and along any sequence of non-negative
    gains the total raise is the number of thresholds between the first and
    the last notoriety, so no threshold is counted twice. *)
Theorem gainNotoriety_unlocks (p : Player) (gains : list Z)
  (Hnn : Forall (Z.le 0) gains) :
  (forall amount, captainCount (gainNotoriety p amount) =
                  captainCount p + crossed (notoriety p) (notoriety p + amount)) /\
  captainCount (gainNotoriety (set_notoriety p 4) 2) = captainCount p + 1 /\
  captainCount (gainAll p gains) =
    captainCount p + crossed (notoriety p) (notoriety (gainAll p gains)).
Proof.
  split; [apply gainNotoriety_captainCount|]. split.
  - rewrite gainNotoriety_captainCount. reflexivity.
  - destruct (gainAll_spec gains p Hnn) as [H1 H2]. rewrite H2, H1. reflexivity.
Qed.

Lemma gainNotoriety_unlocks_witness :
  let p := mkPlayer "A" 4 0 2 (mkInventory 4 2) None [] [] in
  Forall (Z.le 0) [2; 3; 10] /\
  captainCount (gainAll p [2; 3; 10]) = 4 /\
  ((forall amount, captainCount (gainNotoriety p amount) =
                  captainCount p + crossed (notoriety p) (notoriety p + amount)) /\
  captainCount (gainNotoriety (set_notoriety p 4) 2) = captainCount p + 1 /\
  captainCount (gainAll p [2; 3; 10]) =
    captainCount p + crossed (notoriety p) (notoriety (gainAll p [2; 3; 10]))).
Proof.
  intros p.
  assert (H : Forall (Z.le 0) [2; 3; 10]) by (repeat constructor; lia).
  split; [exact H|]. split; [reflexivity|].
  exact (gainNotoriety_unlocks p [2; 3; 10] H).
Defined.

End UnlockProofs.

(** ** Sailing *)

Module SailProofs.
Import HexMath BoardModel Charts PlayerModel GameStateModel Action Specs Scenarios.

(** C3 (code_bug): with no bribe, two ships each moved two hexes (four hops in
    total, above the budget of two) pass [SailAction.validate]: the validation
    checks each move on its own and has no total hop budget. *)
Theorem sail_no_hop_budget :
  SailAction.sail_bribesUsed sail_two_by_two = 0 /\
  total_hops sail_two_by_two = 4 /\
  valid (SailAction.validate sail_two_by_two st_p1) = true.
Proof. vm_compute. repeat split. Qed.

(** C4 (code_bug): a two-hex move from (0,0) to (2,0) through (1,0) passes
    validation and [execute] reports success, but the ship stays on (0,0) and
    (2,0) stays empty: [board.moveShip] only moves between adjacent hexes and
    its [false] is ignored. *)
Theorem sail_two_hexes_not_moved :
  hexDistance c00 c20 = 2 /\
  valid (SailAction.validate sail_two_hexes st_p1) = true /\
  exists res st',
    SailAction.execute sail_two_hexes st_p1 = Some (res, st') /\
    success res = true /\
    ships_at (board st') "p1" c00 = [mkShip SLOOP "p1"] /\
    ships_at (board st') "p1" c20 = [].
Proof.
  split; [reflexivity|]. split; [vm_compute; reflexivity|].
  do 2 eexists. split; [vm_compute; reflexivity|]. vm_compute. repeat split.
Qed.

End SailProofs.

(** ** Building *)

Module BuildProofs.
Import HexMath BoardModel Charts PlayerModel GameStateModel Action Specs Scenarios.

(** C5 (code_bug): with one sloop left in inventory, a Build of two sloops on
    the port passes validation (each placement is checked against the same
    inventory) and succeeds; the player's on-board sloops plus inventory sloops
    go from 3 to 4. *)
Theorem build_creates_sloop :
  valid (BuildAction.validate build_two_sloops st_p1) = true /\
  (board_count (board st_p1) "p1" SLOOP + Z.to_nat (sloops (PlayerModel.ships p1)) = 3)%nat /\
  exists res st' p',
    BuildAction.execute build_two_sloops st_p1 = Some (res, st') /\
    success res = true /\
    getPlayer st' "p1" = Some p' /\
    (board_count (board st') "p1" SLOOP + Z.to_nat (sloops (PlayerModel.ships p')) = 4)%nat.
Proof.
  split; [vm_compute; reflexivity|]. split; [vm_compute; reflexivity|].
  do 3 eexists. split; [vm_compute; reflexivity|]. split; [reflexivity|].
  split; [vm_compute; reflexivity|]. vm_compute. reflexivity.
Qed.

End BuildProofs.

(** ** Sinking *)

Module SinkProofs.
Import HexMath BoardModel Charts PlayerModel GameStateModel Action Specs Scenarios.

(** C6 (code_bug): [p1] (influence 1 at (0,0)) sinks a sloop of [p2] and,
    with the additional sink, [p2]'s galleon although [p2]'s influence there
    is 3.  The action validates, while a primary sink of that galleon by [p1]
    is refused for lack of influence; both ships are gone, and only the
    sloop's point of notoriety is gained, exactly as without the additional
    sink. *)
Theorem sink_additional_bypasses_rules :
  valid (SinkAction.validate sink_with_extra st_sink) = true /\
  valid (SinkAction.validate (SinkAction.mkSink "p1" c00 GALLEON "p2" 1 None None) st_sink)
    = false /\
  (match getHex board_sink c00 with
   | Some h => getInfluence h "p1" < getInfluence h "p2"
   | None => False
   end) /\
  exists res st',
    SinkAction.execute sink_with_extra st_sink = Some (res, st') /\
    ships_at (board st') "p2" c00 = [] /\
    notorietyGained res = Some 1 /\
    exists res0 st0,
      SinkAction.execute (without_additional sink_with_extra) st_sink = Some (res0, st0) /\
      notorietyGained res0 = Some 1 /\
      map notoriety (players st') = map notoriety (players st0).
Proof.
  split; [vm_compute; reflexivity|]. split; [vm_compute; reflexivity|].
  split; [vm_compute; reflexivity|].
  do 2 eexists. split; [vm_compute; reflexivity|]. split; [vm_compute; reflexivity|].
  split; [vm_compute; reflexivity|].
  do 2 eexists. split; [vm_compute; reflexivity|]. vm_compute. split; reflexivity.
Qed.

End SinkProofs.

(** ** Island edges *)

Module IslandProofs.
Import HexMath HexConstants BoardModel Specs Scenarios.

Lemma hexDistance_offset c a b :
  hexDistance c (createHexCoord (q c + a) (r c + b)) = (Z.abs a + Z.abs b + Z.abs (a + b)) / 2.
Proof.
  unfold hexDistance, s, createHexCoord; cbn [q r].
  replace (q c - (q c + a)) with (- a) by lia.
  replace (r c - (r c + b)) with (- b) by lia.
  replace (- (q c + r c) - - (q c + a + (r c + b))) with (a + b) by lia.
  rewrite !Z.abs_opp. reflexivity.
Qed.

Lemma Zeqb_add_cancel x a b : (x + a =? x + b) = (a =? b).
Proof. destruct (Z.eqb_spec a b), (Z.eqb_spec (x + a) (x + b)); auto; lia. Qed.

Lemma getNeighbor_offset c i : getNeighbor c i = createHexCoord (q c + dq i) (r c + dr i).
Proof. reflexivity. Qed.

Lemma hexEquals_neighbors c i d :
  hexEquals (getNeighbor c i) (getNeighbor c d) = (dq i =? dq d) && (dr i =? dr d).
Proof.
  rewrite !getNeighbor_offset. unfold hexEquals, createHexCoord; cbn [q r].
  rewrite !Zeqb_add_cancel. reflexivity.
Qed.

Lemma getDirection_getNeighbor c d :
  0 <= d < 6 -> getDirection c (getNeighbor c d) = d.
Proof.
  intros Hd. unfold getDirection, areAdjacent.
  rewrite (getNeighbor_offset c d) at 1. rewrite hexDistance_offset.
  cbn [getDirection_loop Z.add]. rewrite !hexEquals_neighbors.
  assert (d = 0 \/ d = 1 \/ d = 2 \/ d = 3 \/ d = 4 \/ d = 5) as Hc by lia.
  destruct Hc as [ -> | [ -> | [ -> | [ -> | [ -> | -> ]]]]]; reflexivity.
Qed.

Lemma canSailInDirection_blocked isl d :
  In d (impassableEdges isl) -> canSailInDirection isl d = false.
Proof.
  intros Hin. unfold canSailInDirection, isEdgePassable.
  assert (existsb (Z.eqb d) (impassableEdges isl) = true) as ->; [|reflexivity].
  apply existsb_exists. exists d. split; [exact Hin|apply Z.eqb_refl].
Qed.

(** C7 (as the code has it): an impassable edge [d] of the island on [c] blocks
    the edge in both directions: [canSailBetween] is false from [c] to its
    neighbour in direction [d] and from that neighbour back to [c], whatever
    the neighbour's own island. *)
Theorem island_edge_blocks_both_ways b c h isl d
  (Hhex : getHex b c = Some h) (Hisl : island h = Some isl)
  (Hin : In d (impassableEdges isl)) (Hd : 0 <= d < 6) :
  canSailBetween b c (getNeighbor c d) = false /\
  canSailBetween b (getNeighbor c d) c = false.
Proof.
  assert (Hdir : getDirection c (getNeighbor c d) = d) by (apply getDirection_getNeighbor; exact Hd).
  assert (Hblk : negb (d =? -1) && negb (canSailInDirection isl d) = true).
  { rewrite canSailInDirection_blocked by exact Hin.
    destruct (Z.eqb_spec d (-1)); [lia|reflexivity]. }
  split; unfold canSailBetween.
  - destruct (negb (isAdjacent c (getNeighbor c d))); [reflexivity|].
    rewrite Hhex. destruct (getHex b (getNeighbor c d)); [|reflexivity].
    rewrite Hisl, Hdir, Hblk. reflexivity.
  - destruct (negb (isAdjacent (getNeighbor c d) c)); [reflexivity|].
    rewrite Hhex. destruct (getHex b (getNeighbor c d)) as [hn|]; [|reflexivity].
    destruct (match island hn with Some _ => _ | None => false end); [reflexivity|].
    rewrite Hisl, Hdir, Hblk. reflexivity.
Qed.

Lemma island_edge_blocks_both_ways_witness :
  getHex board_east_wall c00 = Some (mkHex c00 [] (Some east_wall)) /\
  island (mkHex c00 [] (Some east_wall)) = Some east_wall /\
  In 0 (impassableEdges east_wall) /\ 0 <= 0 < 6 /\
  (canSailBetween board_east_wall c00 (getNeighbor c00 0) = false /\
   canSailBetween board_east_wall (getNeighbor c00 0) c00 = false).
Proof.
  assert (H1 : getHex board_east_wall c00 = Some (mkHex c00 [] (Some east_wall))) by reflexivity.
  assert (H2 : island (mkHex c00 [] (Some east_wall)) = Some east_wall) by reflexivity.
  assert (H3 : In 0 (impassableEdges east_wall)) by (simpl; auto).
  assert (H4 : 0 <= 0 < 6) by lia.
  split; [exact H1|]. split; [exact H2|]. split; [exact H3|]. split; [exact H4|].
  exact (island_edge_blocks_both_ways board_east_wall c00 _ east_wall 0 H1 H2 H3 H4).
Defined.

(** C7 fails: the island on (0,0) blocks only its East edge and the East
    neighbour (1,0) has no island, yet sailing from (1,0) back to (0,0) is
    refused. *)
Lemma island_edge_reverse_counterexample :
  hexEquals (getNeighbor c00 0) c10 = true /\
  getHex board_east_wall c10 = Some (mkHex c10 [] None) /\
  In 0 (impassableEdges east_wall) /\
  canSailBetween board_east_wall c10 c00 = false.
Proof. vm_compute. repeat split; auto. Qed.

End IslandProofs.

(** ** Charts *)

Module ChartProofs.
Import HexMath BoardModel Charts PlayerModel GameStateModel Action Specs Scenarios.

Section DrawProofs.
Variable shuffle : list AnyChart -> list AnyChart.
Hypothesis Hperm : forall l, Permutation (shuffle l) l.

Lemma pop_spec l :
  match pop l with
  | (Some x, l') => l = l' ++ [x]
  | (None, l') => l = [] /\ l' = []
  end.
Proof.
  unfold pop. destruct (rev l) as [|x rl] eqn:E;
    apply (f_equal (@rev AnyChart)) in E; rewrite rev_involutive in E; simpl in E; auto.
Qed.

Lemma drawLoop_perm n : forall dp dc dr,
  let '(dp', dc', dr') := drawLoop shuffle n dp dc dr in
  Permutation (dr ++ dp ++ dc) (dr' ++ dp' ++ dc').
Proof.
  induction n as [|n IH]; intros dp dc dr; simpl; [reflexivity|].
  assert (Hpre : forall dp1 dc1, Permutation (dp ++ dc) (dp1 ++ dc1) ->
    let '(dp', dc', dr') :=
      (let (chart, drawP2) := pop dp1 in
       drawLoop shuffle n drawP2 dc1 match chart with Some c => dr ++ [c] | None => dr end) in
    Permutation (dr ++ dp ++ dc) (dr' ++ dp' ++ dc')).
  { intros dp1 dc1 Hp. pose proof (pop_spec dp1) as Hpop.
    destruct (pop dp1) as [[x|] rest].
    - specialize (IH rest dc1 (dr ++ [x])).
      destruct (drawLoop shuffle n rest dc1 (dr ++ [x])) as [[dp' dc'] dr'].
      eapply perm_trans; [|exact IH].
      rewrite <- app_assoc. apply Permutation_app_head.
      eapply perm_trans; [exact Hp|]. subst dp1. rewrite <- app_assoc.
      simpl. apply Permutation_sym, Permutation_middle.
    - destruct Hpop as [-> ->].
      specialize (IH [] dc1 dr).
      destruct (drawLoop shuffle n [] dc1 dr) as [[dp' dc'] dr'].
      eapply perm_trans; [|exact IH]. apply Permutation_app_head. exact Hp. }
  destruct dp as [|y dp0].
  - destruct dc as [|z dc0]; [simpl; reflexivity|].
    apply Hpre. simpl. rewrite app_nil_r. apply Permutation_sym, Hperm.
  - apply Hpre. reflexivity.
Qed.

End DrawProofs.

Lemma drawCharts_perm shuffle (Hperm : forall l, Permutation (shuffle l) l) d count :
  Permutation (drawPile d ++ discardPile d)
    (snd (drawCharts shuffle d count) ++ drawPile (fst (drawCharts shuffle d count)) ++
     discardPile (fst (drawCharts shuffle d count))).
Proof.
  unfold drawCharts.
  pose proof (drawLoop_perm shuffle Hperm (Z.to_nat count) (drawPile d) (discardPile d) []) as H.
  destruct (drawLoop shuffle (Z.to_nat count) (drawPile d) (discardPile d) []) as [[dp' dc'] dr'].
  exact H.
Qed.

Lemma getPlayer_update_player st pid f :
  (forall p, id (f p) = id p) ->
  getPlayer (update_player st pid f) pid = option_map f (getPlayer st pid).
Proof.
  intros Hf. unfold getPlayer, update_player, set_players; cbn [players].
  induction (players st) as [|x ps IH]; simpl; [reflexivity|].
  destruct (String.eqb (id x) pid) eqn:E; simpl.
  - rewrite Hf, E. reflexivity.
  - rewrite E. exact IH.
Qed.

Lemma NoDup_disjoint_app {A} (l1 l2 : list A) x :
  NoDup (l1 ++ l2) -> In x l1 -> ~ In x l2.
Proof.
  induction l1 as [|y l1 IH]; simpl; [tauto|].
  intros Hnd [->|Hin]; inversion Hnd as [|? ? Hnot Hrest]; subst.
  - intros Hx. apply Hnot, in_or_app. auto.
  - apply IH; auto.
Qed.

(** C10: a valid Chart action with no selection and no pending draw mutates
    the state and still returns [success = false] with message
    [CHART_SELECTION_REQUIRED]: the bribe is paid, the drawn charts leave the
    deck (draw and discard piles together lose exactly them), they are in
    neither pile nor the player's hand (which is unchanged), and they are kept
    only on the action object; the wind token does not move. *)
Theorem chart_selection_required_mutates
  (shuffle : list AnyChart -> list AnyChart)
  (Hperm : forall l, Permutation (shuffle l) l)
  (a : ChartAction.ChartAction) (st : GameState) (player : Player)
  (Hval : valid (ChartAction.validate a st) = true)
  (Hsel : ChartAction.selectedChartIds a = [])
  (Hnone : ChartAction.drawnCharts a = None)
  (Hpl : getPlayer st (ChartAction.chart_playerId a) = Some player)
  (Hnd : NoDup (drawPile (chartDeck st) ++ discardPile (chartDeck st) ++ charts player)) :
  exists res st' a' player',
    ChartAction.execute shuffle a st = (res, st', a') /\
    success res = false /\ message res = "CHART_SELECTION_REQUIRED"%string /\
    getPlayer st' (ChartAction.chart_playerId a) = Some player' /\
    doubloons player' =
      doubloons player - (if 0 <? ChartAction.chart_bribesUsed a
                          then ChartAction.chart_bribesUsed a else 0) /\
    charts player' = charts player /\
    Permutation (drawPile (chartDeck st) ++ discardPile (chartDeck st))
      (drawnChartsOut res ++ drawPile (chartDeck st') ++ discardPile (chartDeck st')) /\
    (forall c, In c (drawnChartsOut res) ->
       ~ In c (drawPile (chartDeck st')) /\ ~ In c (discardPile (chartDeck st')) /\
       ~ In c (charts player')) /\
    ChartAction.drawnCharts a' = Some (drawnChartsOut res) /\
    windTokenHolder st' = windTokenHolder st.
Proof.
  set (pid := ChartAction.chart_playerId a) in *.
  set (br := ChartAction.chart_bribesUsed a).
  assert (Henough : br <= doubloons player).
  { revert Hval. unfold ChartAction.validate. fold pid. fold br.
    destruct (valid (validatePlayer CHART pid st)) eqn:Ev; cbn [negb];
      [|intros H; rewrite Ev in H; discriminate H].
    rewrite Hpl. destruct (doubloons player <? br) eqn:E; [discriminate|].
    apply Z.ltb_ge in E. intros _. exact E. }
  set (st1 := if 0 <? br then update_player st pid (fun p => fst (spendDoubloons p br)) else st).
  assert (Hst1 : chartDeck st1 = chartDeck st /\ windTokenHolder st1 = windTokenHolder st /\
                 exists player1, getPlayer st1 pid = Some player1 /\
                   doubloons player1 = doubloons player - (if 0 <? br then br else 0) /\
                   charts player1 = charts player).
  { unfold st1. destruct (0 <? br).
    - split; [reflexivity|]. split; [reflexivity|].
      exists (fst (spendDoubloons player br)).
      rewrite getPlayer_update_player, Hpl.
      2: { intros p. unfold spendDoubloons. destruct (doubloons p <? br); reflexivity. }
      split; [reflexivity|].
      unfold spendDoubloons. destruct (doubloons player <? br) eqn:E.
      + apply Z.ltb_lt in E. lia.
      + split; reflexivity.
    - split; [reflexivity|]. split; [reflexivity|]. exists player.
      split; [exact Hpl|]. split; [lia|reflexivity]. }
  destruct Hst1 as (Hdeck & Hwind & player1 & Hp1 & Hd1 & Hc1).
  unfold ChartAction.execute. rewrite Hval. cbn [negb]. rewrite Hsel, Hnone.
  fold pid. fold br. fold st1.
  pose proof (drawCharts_perm shuffle Hperm (chartDeck st1)
                (if ChartAction.drawExtra a then 3 else 2)) as Hp.
  destruct (drawCharts shuffle (chartDeck st1) (if ChartAction.drawExtra a then 3 else 2))
    as [deck' drawn] eqn:Edraw.
  cbn [fst snd] in Hp. rewrite Hdeck in Hp.
  do 4 eexists. split; [reflexivity|].
  cbn [success message drawnChartsOut chartDeck windTokenHolder set_deck ChartAction.set_drawn
       ChartAction.drawnCharts].
  split; [reflexivity|]. split; [reflexivity|].
  split; [unfold getPlayer, set_deck; cbn [players]; exact Hp1|].
  split; [exact Hd1|]. split; [exact Hc1|]. split; [exact Hp|].
  split; [|split; [reflexivity|exact Hwind]].
  intros c Hin.
  assert (Hnd' : NoDup (drawn ++ drawPile deck' ++ discardPile deck' ++ charts player)).
  { replace (drawn ++ drawPile deck' ++ discardPile deck' ++ charts player)
      with ((drawn ++ drawPile deck' ++ discardPile deck') ++ charts player)
      by (rewrite <- !app_assoc; reflexivity).
    apply (Permutation_NoDup (l := (drawPile (chartDeck st) ++ discardPile (chartDeck st)) ++ charts player)).
    - apply Permutation_app_tail. exact Hp.
    - rewrite <- app_assoc. exact Hnd. }
  pose proof (NoDup_disjoint_app _ _ c Hnd' Hin) as Hout.
  rewrite Hc1. repeat split; intros H; apply Hout; rewrite ?in_app_iff; auto.
Qed.

Lemma chart_selection_required_mutates_witness :
  (forall l : list AnyChart, Permutation l l) /\
  valid (ChartAction.validate chart_first_step st_chart) = true /\
  ChartAction.selectedChartIds chart_first_step = [] /\
  ChartAction.drawnCharts chart_first_step = None /\
  getPlayer st_chart (ChartAction.chart_playerId chart_first_step) = Some charter /\
  NoDup (drawPile (chartDeck st_chart) ++ discardPile (chartDeck st_chart) ++ charts charter) /\
  exists res st' a' player',
    ChartAction.execute (fun l => l) chart_first_step st_chart = (res, st', a') /\
    success res = false /\ message res = "CHART_SELECTION_REQUIRED"%string /\
    getPlayer st' (ChartAction.chart_playerId chart_first_step) = Some player' /\
    doubloons player' =
      doubloons charter - (if 0 <? ChartAction.chart_bribesUsed chart_first_step
                          then ChartAction.chart_bribesUsed chart_first_step else 0) /\
    charts player' = charts charter /\
    Permutation (drawPile (chartDeck st_chart) ++ discardPile (chartDeck st_chart))
      (drawnChartsOut res ++ drawPile (chartDeck st') ++ discardPile (chartDeck st')) /\
    (forall c, In c (drawnChartsOut res) ->
       ~ In c (drawPile (chartDeck st')) /\ ~ In c (discardPile (chartDeck st')) /\
       ~ In c (charts player')) /\
    ChartAction.drawnCharts a' = Some (drawnChartsOut res) /\
    windTokenHolder st' = windTokenHolder st_chart.
Proof.
  assert (H1 : forall l : list AnyChart, Permutation l l) by (intros; apply Permutation_refl).
  assert (H2 : valid (ChartAction.validate chart_first_step st_chart) = true) by reflexivity.
  assert (H3 : ChartAction.selectedChartIds chart_first_step = []) by reflexivity.
  assert (H4 : ChartAction.drawnCharts chart_first_step = None) by reflexivity.
  assert (H5 : getPlayer st_chart (ChartAction.chart_playerId chart_first_step) = Some charter)
    by reflexivity.
  assert (H6 : NoDup (drawPile (chartDeck st_chart) ++ discardPile (chartDeck st_chart) ++
                      charts charter))
    by (vm_compute; repeat constructor; simpl; intuition discriminate).
  split; [exact H1|]. split; [exact H2|]. split; [exact H3|]. split; [exact H4|].
  split; [exact H5|]. split; [exact H6|].
  exact (chart_selection_required_mutates (fun l => l) H1 chart_first_step st_chart charter
           H2 H3 H4 H5 H6).
Defined.

End ChartProofs.

(** ** Breadth-first search and smuggler routes *)

Module PathProofs.
Import HexMath HexConstants BoardModel Specs.

Lemma hexEquals_eq a b : hexEquals a b = true <-> a = b.
Proof.
  destruct a as [qa ra], b as [qb rb]. unfold hexEquals; cbn [q r].
  rewrite andb_true_iff, !Z.eqb_eq. split.
  - intros [-> ->]; reflexivity.
  - intros H; inversion H; auto.
Qed.

Lemma visited_has_In c V : visited_has c V = true <-> In c V.
Proof.
  unfold visited_has. rewrite existsb_exists. split.
  - intros (y & Hy & He). apply hexEquals_eq in He. subst. exact Hy.
  - intros H. exists c. split; [exact H|]. apply hexEquals_eq. reflexivity.
Qed.

Lemma filter_length_lt {A} (f f' : A -> bool) (l : list A) a :
  (forall c, f' c = true -> f c = true) -> In a l -> f a = true -> f' a = false ->
  (List.length (filter f' l) < List.length (filter f l))%nat.
Proof.
  intros Hsub. induction l as [|y l IH]; simpl; [tauto|].
  assert (Hle : forall l0, (List.length (filter f' l0) <= List.length (filter f l0))%nat).
  { induction l0 as [|z l0 IH0]; simpl; [lia|].
    destruct (f' z) eqn:E1; [rewrite (Hsub z E1); simpl; lia|].
    destruct (f z); simpl; lia. }
  intros [->|Hin] Ha Ha'.
  - rewrite Ha, Ha'. simpl. specialize (Hle l). lia.
  - specialize (IH Hin Ha Ha').
    destruct (f' y) eqn:E1; [rewrite (Hsub y E1); simpl; lia|].
    destruct (f y); simpl; lia.
Qed.

Lemma StronglySorted_app {A} (R : A -> A -> Prop) l1 l2 :
  StronglySorted R l1 -> StronglySorted R l2 ->
  (forall a b, In a l1 -> In b l2 -> R a b) -> StronglySorted R (l1 ++ l2).
Proof.
  induction l1 as [|a l1 IH]; simpl; intros H1 H2 H12; [exact H2|].
  inversion H1 as [|? ? Hs Hf]; subst. constructor.
  - apply IH; auto.
  - apply Forall_app. split; [exact Hf|]. apply Forall_forall. intros y Hy. apply H12; auto.
Qed.

Lemma trav_chain_app ct x l1 y l2 z :
  trav_chain ct x l1 y -> trav_chain ct y l2 z -> trav_chain ct x (l1 ++ l2) z.
Proof.
  revert x. induction l1 as [|n l1 IH]; simpl; intros x H1 H2.
  - subst. exact H2.
  - destruct H1 as [Hn Hc]. split; [exact Hn|]. eapply IH; eauto.
Qed.

(** The last hop of a non-empty route. *)
Lemma trav_chain_last ct x l y :
  trav_chain ct x l y -> l <> [] ->
  exists l0 w, l = l0 ++ [y] /\ trav_chain ct x l0 w /\ ct w y = true.
Proof.
  revert x. induction l as [|n l IH]; simpl; intros x H Hne; [congruence|].
  destruct H as [Hn Hc]. destruct l as [|m l'].
  - simpl in Hc. subst. exists [], x. simpl. auto.
  - destruct (IH n Hc ltac:(discriminate)) as (l0 & w & E & H0 & Hw).
    exists (n :: l0), w. rewrite E. simpl. auto.
Qed.

Lemma filter_length_le_any {A} (f : A -> bool) l :
  (List.length (filter f l) <= List.length l)%nat.
Proof. induction l as [|a l IH]; simpl; [lia|]. destruct (f a); simpl; lia. Qed.

Lemma StronglySorted_const (l : list nat) k :
  (forall y, In y l -> y = k) -> StronglySorted le l.
Proof.
  induction l as [|a l IH]; intros H; constructor.
  - apply IH. intros y Hy. apply H. simpl; auto.
  - apply Forall_forall. intros y Hy. rewrite (H a), (H y); simpl; auto.
Qed.

Section BFS.
Variable isBlocked : HexCoord -> bool.
Variable canTraverse : HexCoord -> HexCoord -> bool.
Variable cells : list HexCoord.
Hypothesis Htrav : forall a b, canTraverse a b = true ->
  isBlocked b = false /\ In b (getAllNeighbors a).
Hypothesis Hcells : forall c, isBlocked c = false -> In c cells.

Local Abbreviation chain := (trav_chain canTraverse).
Local Abbreviation unvisited := (bfs_unvisited cells).
Local Abbreviation bfs_measure := (Specs.bfs_measure cells).

Lemma expand_spec cur path end_ ns : forall V Q,
  match expand isBlocked canTraverse cur path end_ ns V Q with
  | Found p => exists n, p = path ++ [n] /\ n = end_ /\ canTraverse cur n = true /\ ~ In n V
  | Continue V' Q' =>
      exists added, V' = V ++ added /\ Q' = Q ++ map (fun n => (n, path ++ [n])) added /\
        NoDup added /\
        (forall n, In n added -> canTraverse cur n = true /\ ~ In n V /\ n <> end_) /\
        (forall n, In n ns -> canTraverse cur n = true -> In n V')
  end.
Proof.
  induction ns as [|n ns IH]; intros V Q; simpl.
  - exists []. rewrite !app_nil_r. split; [reflexivity|]. split; [reflexivity|].
    split; [constructor|]. split; intros n H; simpl in H; tauto.
  - destruct (visited_has n V) eqn:Ev.
    { specialize (IH V Q). destruct (expand _ _ _ _ _ ns V Q) as [p|V' Q'].
      - exact IH.
      - destruct IH as (added & -> & -> & Hnd & Hadd & Hcl). exists added.
        split; [reflexivity|]. split; [reflexivity|]. split; [exact Hnd|].
        split; [exact Hadd|]. intros m [<-|Hm] Hc; [|auto].
        apply visited_has_In in Ev. apply in_or_app; auto. }
    destruct (isBlocked n) eqn:Eb.
    { specialize (IH V Q). destruct (expand _ _ _ _ _ ns V Q) as [p|V' Q'].
      - exact IH.
      - destruct IH as (added & -> & -> & Hnd & Hadd & Hcl). exists added.
        split; [reflexivity|]. split; [reflexivity|]. split; [exact Hnd|].
        split; [exact Hadd|]. intros m [<-|Hm] Hc; [|auto].
        destruct (Htrav _ _ Hc) as [Hb _]. congruence. }
    destruct (canTraverse cur n) eqn:Et; simpl.
    2: { specialize (IH V Q). destruct (expand _ _ _ _ _ ns V Q) as [p|V' Q'].
      - exact IH.
      - destruct IH as (added & -> & -> & Hnd & Hadd & Hcl). exists added.
        split; [reflexivity|]. split; [reflexivity|]. split; [exact Hnd|].
        split; [exact Hadd|]. intros m [<-|Hm] Hc; [congruence|auto]. }
    assert (Hnv : ~ In n V) by (intros H; apply visited_has_In in H; congruence).
    destruct (hexEquals n end_) eqn:Ee.
    { exists n. apply hexEquals_eq in Ee. auto. }
    specialize (IH (V ++ [n]) (Q ++ [(n, path ++ [n])])).
    destruct (expand _ _ _ _ _ ns (V ++ [n]) (Q ++ [(n, path ++ [n])])) as [p|V' Q'].
    + destruct IH as (m & Hp & Hm & Hc & Hnin). exists m. repeat split; auto.
      intros H. apply Hnin, in_or_app. auto.
    + destruct IH as (added & -> & -> & Hnd & Hadd & Hcl). exists (n :: added).
      split; [rewrite <- app_assoc; reflexivity|].
      split; [rewrite <- app_assoc; reflexivity|].
      split.
      { constructor; [|exact Hnd]. intros H. destruct (Hadd n H) as (_ & Hn & _).
        apply Hn, in_or_app. simpl; auto. }
      split.
      * intros m [<-|Hm].
        -- split; [exact Et|]. split; [exact Hnv|]. intros He. subst.
           rewrite (proj2 (hexEquals_eq end_ end_) eq_refl) in Ee. discriminate.
        -- destruct (Hadd m Hm) as (H1 & H2 & H3). repeat split; auto.
           intros H. apply H2, in_or_app. auto.
      * intros m [<-|Hm] Hc.
        -- apply in_or_app. left. apply in_or_app. simpl. auto.
        -- apply Hcl; auto.
Qed.

Lemma unvisited_added added : forall V,
  NoDup added -> (forall n, In n added -> In n cells /\ ~ In n V) ->
  (unvisited (V ++ added) + List.length added <= unvisited V)%nat.
Proof.
  induction added as [|a added IH]; intros V Hnd Hin; simpl.
  - rewrite app_nil_r. lia.
  - inversion Hnd as [|? ? Hna Hnd']; subst.
    replace (V ++ a :: added) with ((V ++ [a]) ++ added) by (rewrite <- app_assoc; reflexivity).
    assert (H1 : (unvisited ((V ++ [a]) ++ added) + List.length added <= unvisited (V ++ [a]))%nat).
    { apply IH; [exact Hnd'|]. intros n Hn. destruct (Hin n (or_intror Hn)) as [Hc Hv].
      split; [exact Hc|]. intros H. apply in_app_or in H as [H|[H|[]]]; [tauto|subst; tauto]. }
    assert (H2 : (unvisited (V ++ [a]) < unvisited V)%nat).
    { destruct (Hin a (or_introl eq_refl)) as [Hc Hv]. unfold bfs_unvisited.
      apply (filter_length_lt _ _ _ a); auto.
      - intros c. rewrite !negb_true_iff. intros H.
        destruct (visited_has c V) eqn:E; [|reflexivity].
        apply visited_has_In in E. rewrite <- H. symmetry. apply visited_has_In, in_or_app. auto.
      - rewrite negb_true_iff. destruct (visited_has a V) eqn:E; [|reflexivity].
        apply visited_has_In in E. tauto.
      - rewrite negb_false_iff. apply visited_has_In, in_or_app. simpl; auto. }
    lia.
Qed.

Lemma expand_measure c p rest V end_ V' Q' :
  expand isBlocked canTraverse c p end_ (getAllNeighbors c) V rest = Continue V' Q' ->
  (bfs_measure Q' V' < bfs_measure ((c, p) :: rest) V)%nat.
Proof.
  intros E. pose proof (expand_spec c p end_ (getAllNeighbors c) V rest) as H.
  rewrite E in H. destruct H as (added & -> & -> & Hnd & Hadd & _).
  unfold Specs.bfs_measure. rewrite length_app, length_map. simpl.
  pose proof (unvisited_added added V Hnd) as Hu.
  assert (Hu' : (unvisited (V ++ added) + List.length added <= unvisited V)%nat).
  { apply Hu. intros n Hn. destruct (Hadd n Hn) as (Hc & Hv & _).
    split; [apply Hcells, (Htrav c n Hc)|exact Hv]. }
  lia.
Qed.

Variable x end_ : HexCoord.

Local Abbreviation shortest_to := (bfs_shortest_to canTraverse x).
Local Abbreviation bfs_inv := (Specs.bfs_inv canTraverse x end_).

Lemma closed_reach V :
  (forall v, In v V -> forall n, canTraverse v n = true -> In n V) ->
  forall l a u, In a V -> chain a l u -> In u V.
Proof.
  intros Hcl. induction l as [|n l IH]; simpl; intros a u Ha Hc.
  - subst. exact Ha.
  - destruct Hc as [Hn Hc]. apply (IH n); auto. apply (Hcl a); auto.
Qed.

Lemma bfs_inv_empty V : bfs_inv [] V -> forall l, ~ chain x l end_.
Proof.
  intros (Hx & He & _ & _ & _ & _ & Hcl) l Hc. apply He.
  apply (closed_reach V) with (l := l) (a := x); auto.
  intros v Hv n Hn. apply (Hcl v Hv); simpl; auto.
Qed.

Lemma bfs_inv_found c1 p1 rest V p :
  bfs_inv ((c1, p1) :: rest) V ->
  expand isBlocked canTraverse c1 p1 end_ (getAllNeighbors c1) V rest = Found p ->
  shortest_to end_ p.
Proof.
  intros (Hx & He & Hq & Hs & Hb & Hlvl & Hcl) E.
  pose proof (expand_spec c1 p1 end_ (getAllNeighbors c1) V rest) as H.
  rewrite E in H. destruct H as (n & -> & -> & Ht & Hnv).
  destruct (Hq c1 p1 (or_introl eq_refl)) as (l1 & -> & Hc1 & _).
  exists (l1 ++ [end_]). split; [reflexivity|]. split.
  - apply trav_chain_app with c1; [exact Hc1|]. simpl. auto.
  - intros l' Hl'. rewrite length_app. simpl.
    destruct (Nat.le_gt_cases (List.length l1 + 1) (List.length l')) as [Hle|Hgt]; [lia|].
    exfalso. apply Hnv. apply (Hlvl end_ l' Hl'). simpl. lia.
Qed.

Lemma bfs_inv_step c1 p1 rest V V' Q' :
  bfs_inv ((c1, p1) :: rest) V ->
  expand isBlocked canTraverse c1 p1 end_ (getAllNeighbors c1) V rest = Continue V' Q' ->
  bfs_inv Q' V'.
Proof.
  intros (Hx & He & Hq & Hs & Hb & Hlvl & Hcl) E.
  pose proof (expand_spec c1 p1 end_ (getAllNeighbors c1) V rest) as H.
  rewrite E in H. destruct H as (added & -> & -> & Hnd & Hadd & Hclose).
  destruct (Hq c1 p1 (or_introl eq_refl)) as (l1 & Ep1 & Hc1 & Hmin1).
  set (h1 := List.length p1) in *.
  (* lengths in [rest] lie in [h1, h1 + 1] *)
  simpl in Hs. apply StronglySorted_inv in Hs as [Hsrest Hfront].
  assert (Hrest_ge : forall e, In e rest -> (h1 <= List.length (snd e))%nat).
  { intros e He'. rewrite Forall_forall in Hfront. apply Hfront, (in_map (fun e => List.length (snd e))). exact He'. }
  assert (Hrest_le : forall e, In e rest -> (List.length (snd e) <= h1 + 1)%nat).
  { intros e He'. apply (Hb (c1, p1) e); simpl; auto. }
  assert (Hnew : forall e, In e (map (fun n => (n, p1 ++ [n])) added) ->
                   List.length (snd e) = (h1 + 1)%nat /\ In (fst e) added).
  { intros e He'. apply in_map_iff in He' as (n & <- & Hn). simpl.
    rewrite length_app. simpl. unfold h1. split; [lia|exact Hn]. }
  assert (HV : forall v, In v V -> In v (V ++ added)) by (intros; apply in_or_app; auto).
  split; [apply HV, Hx|].
  split.
  { intros Hin. apply in_app_or in Hin as [Hin|Hin]; [tauto|].
    destruct (Hadd end_ Hin) as (_ & _ & Hne). tauto. }
  split.
  { intros c p Hin. apply in_app_or in Hin as [Hin|Hin]; [apply Hq; simpl; auto|].
    apply in_map_iff in Hin as (n & Heq & Hn). inversion Heq; subst c p.
    destruct (Hadd n Hn) as (Ht & Hnv & _).
    exists (l1 ++ [n]). split; [rewrite Ep1; reflexivity|]. split.
    - apply trav_chain_app with c1; [exact Hc1|]. simpl. auto.
    - intros l' Hl'. rewrite length_app. simpl.
      destruct (Nat.le_gt_cases (List.length l1 + 1) (List.length l')) as [Hle|Hgt]; [lia|].
      exfalso. apply Hnv. apply (Hlvl n l' Hl'). unfold h1. rewrite Ep1. simpl. lia. }
  split.
  { rewrite map_app. apply StronglySorted_app; [exact Hsrest| |].
    - apply StronglySorted_const with (h1 + 1)%nat. intros y Hy.
      apply in_map_iff in Hy as (e & <- & He'). apply (Hnew e He').
    - intros a b Ha Hb'. apply in_map_iff in Ha as (ea & <- & Ha).
      apply in_map_iff in Hb' as (eb & <- & Hb').
      rewrite (proj1 (Hnew eb Hb')). apply Hrest_le. exact Ha. }
  split.
  { intros e1 e2 H1 H2. apply in_app_or in H1 as [H1|H1]; apply in_app_or in H2 as [H2|H2].
    - apply Hb; simpl; auto.
    - rewrite (proj1 (Hnew e2 H2)). specialize (Hrest_ge e1 H1). lia.
    - rewrite (proj1 (Hnew e1 H1)). specialize (Hrest_le e2 H2). lia.
    - rewrite (proj1 (Hnew e1 H1)), (proj1 (Hnew e2 H2)). lia. }
  split.
  { destruct (rest ++ map (fun n => (n, p1 ++ [n])) added) as [|[c' p'] Q''] eqn:EQ; [exact I|].
    assert (Hp' : (h1 <= List.length p')%nat /\ (List.length p' <= h1 + 1)%nat /\
                  (forall e, In e rest -> List.length p' <= List.length (snd e))%nat).
    { destruct rest as [|e0 rest'].
      - simpl in EQ. destruct added as [|a added']; [discriminate|]. simpl in EQ.
        inversion EQ; subst. rewrite length_app. simpl.
        unfold h1; simpl. split; [lia|]. split; [lia|]. intros e [].
      - simpl in EQ. inversion EQ; subst. split; [apply (Hrest_ge (c', p')); simpl; auto|].
        split; [apply (Hrest_le (c', p')); simpl; auto|].
        intros e He'. inversion Hsrest as [|? ? _ Hf]; subst.
        rewrite Forall_forall in Hf. destruct He' as [<-|He']; [simpl; lia|].
        apply Hf, (in_map (fun e => List.length (snd e))). exact He'. }
    destruct Hp' as (Hp'1 & Hp'2 & Hp'3).
    intros u l Hl Hlen.
    destruct (Nat.le_gt_cases (List.length l + 1) h1) as [Hle|Hgt].
    - apply HV. apply (Hlvl u l Hl Hle).
    - assert (Hl1 : List.length l = h1) by lia.
      destruct l as [|n0 l0'] eqn:El.
      { simpl in Hl1. unfold h1 in Hl1. rewrite Ep1 in Hl1. discriminate. }
      rewrite <- El in *.
      destruct (trav_chain_last canTraverse x l u Hl) as (l0 & w & El0 & Hw & Hwu).
      { rewrite El. discriminate. }
      assert (Hwin : In w V).
      { apply (Hlvl w l0 Hw). rewrite El0, length_app in Hl1. simpl in Hl1. lia. }
      destruct (hexEquals w c1) eqn:Ewc.
      + apply hexEquals_eq in Ewc. subst w. apply Hclose; [apply (Htrav c1 u Hwu)|exact Hwu].
      + destruct (in_dec HexCoord_eq_dec w (map fst rest)) as [Hwr|Hwr].
        * exfalso. apply in_map_iff in Hwr as ([w' pw] & Ew & Hwr). simpl in Ew. subst w'.
          destruct (Hq w pw (or_intror Hwr)) as (lw & Epw & Hcw & Hminw).
          specialize (Hminw l0 Hw). specialize (Hp'3 (w, pw) Hwr). simpl in Hp'3.
          rewrite Epw in Hp'3. simpl in Hp'3.
          rewrite El0, length_app in Hl1. simpl in Hl1. lia.
        * apply HV. apply (Hcl w Hwin); [|exact Hwu].
          simpl. intros [Hwc|Hwr']; [|tauto].
          rewrite <- Hwc, (proj2 (hexEquals_eq c1 c1) eq_refl) in Ewc. discriminate. }
  { intros v Hv Hnq n Ht. apply in_app_or in Hv as [Hv|Hv].
    - destruct (hexEquals v c1) eqn:Evc.
      + apply hexEquals_eq in Evc. subst v. apply Hclose; [apply (Htrav c1 n Ht)|exact Ht].
      + apply HV. apply (Hcl v Hv); [|exact Ht]. simpl. intros [Hvc|Hvr].
        * rewrite <- Hvc, (proj2 (hexEquals_eq c1 c1) eq_refl) in Evc. discriminate.
        * apply Hnq. rewrite map_app. apply in_or_app. auto.
    - exfalso. apply Hnq. rewrite map_app, map_map. apply in_or_app. right.
      simpl. rewrite map_id. exact Hv. }
Qed.

Lemma bfs_correct fuel : forall Q V,
  bfs_inv Q V -> (bfs_measure Q V <= fuel)%nat ->
  (bfs isBlocked canTraverse fuel end_ Q V = [] /\ forall l, ~ chain x l end_) \/
  shortest_to end_ (bfs isBlocked canTraverse fuel end_ Q V).
Proof.
  induction fuel as [|fuel IH]; intros Q V Hinv Hm.
  - destruct Q as [|e Q]; [|unfold Specs.bfs_measure in Hm; simpl in Hm; lia].
    left. split; [reflexivity|]. apply (bfs_inv_empty V Hinv).
  - destruct Q as [|[c1 p1] rest].
    + left. split; [reflexivity|]. apply (bfs_inv_empty V Hinv).
    + cbn [bfs]. destruct (expand isBlocked canTraverse c1 p1 end_ (getAllNeighbors c1) V rest)
        as [p|V' Q'] eqn:E.
      * right. apply (bfs_inv_found c1 p1 rest V p Hinv E).
      * apply IH.
        -- apply (bfs_inv_step c1 p1 rest V V' Q' Hinv E).
        -- pose proof (expand_measure c1 p1 rest V end_ V' Q' E). lia.
Qed.

Lemma bfs_fuel fuel : forall fuel' Q V,
  (bfs_measure Q V <= fuel)%nat -> (bfs_measure Q V <= fuel')%nat ->
  bfs isBlocked canTraverse fuel end_ Q V = bfs isBlocked canTraverse fuel' end_ Q V.
Proof.
  induction fuel as [|fuel IH]; intros fuel' Q V Hm Hm'.
  - destruct Q as [|e Q]; [|unfold Specs.bfs_measure in Hm; simpl in Hm; lia].
    destruct fuel'; reflexivity.
  - destruct Q as [|[c1 p1] rest].
    + destruct fuel'; reflexivity.
    + destruct fuel' as [|fuel']; [unfold Specs.bfs_measure in Hm'; simpl in Hm'; lia|].
      cbn [bfs]. destruct (expand isBlocked canTraverse c1 p1 end_ (getAllNeighbors c1) V rest)
        as [p|V' Q'] eqn:E; [reflexivity|].
      pose proof (expand_measure c1 p1 rest V end_ V' Q' E). apply IH; lia.
Qed.

Lemma bfs_inv_init : x <> end_ -> bfs_inv [(x, [x])] [x].
Proof.
  intros Hne. split; [simpl; auto|]. split; [simpl; intros [H|[]]; auto|].
  split.
  { intros c p [H|[]]. inversion H; subst. exists []. split; [reflexivity|].
    split; [reflexivity|]. intros; simpl; lia. }
  split; [repeat constructor|].
  split; [intros e1 e2 [<-|[]] [<-|[]]; simpl; lia|].
  split.
  { intros u l Hl Hlen. destruct l; [|simpl in Hlen; lia]. simpl in Hl. subst. simpl; auto. }
  intros v [<-|[]] Hnq. exfalso. apply Hnq. simpl; auto.
Qed.

Lemma findPath_correct fuel :
  (S (List.length cells) <= fuel)%nat ->
  (findPath isBlocked canTraverse fuel x end_ = [] /\ forall l, ~ chain x l end_) \/
  shortest_to end_ (findPath isBlocked canTraverse fuel x end_).
Proof.
  intros Hf. unfold findPath. destruct (hexEquals x end_) eqn:Exe.
  { right. apply hexEquals_eq in Exe. subst. exists []. split; [reflexivity|].
    split; [reflexivity|]. intros; simpl; lia. }
  assert (Hne : x <> end_).
  { intros ->. rewrite (proj2 (hexEquals_eq end_ end_) eq_refl) in Exe. discriminate. }
  destruct (isBlocked end_) eqn:Eb.
  { left. split; [reflexivity|]. intros l Hl.
    destruct l as [|n l']; [simpl in Hl; tauto|].
    destruct (trav_chain_last canTraverse x (n :: l') end_ Hl ltac:(discriminate))
      as (l0 & w & _ & _ & Hw).
    destruct (Htrav w end_ Hw) as [Hb _]. congruence. }
  apply bfs_correct; [apply bfs_inv_init, Hne|].
  unfold Specs.bfs_measure, bfs_unvisited. cbn [List.length].
  pose proof (filter_length_le_any (fun c => negb (visited_has c [x])) cells). lia.
Qed.

Lemma findPath_fuel fuel fuel' :
  (S (List.length cells) <= fuel)%nat -> (S (List.length cells) <= fuel')%nat ->
  findPath isBlocked canTraverse fuel x end_ = findPath isBlocked canTraverse fuel' x end_.
Proof.
  intros Hf Hf'. unfold findPath.
  destruct (hexEquals x end_); [reflexivity|]. destruct (isBlocked end_); [reflexivity|].
  assert (Hm : (bfs_measure [(x, [x])] [x] <= S (List.length cells))%nat).
  { unfold Specs.bfs_measure, bfs_unvisited. cbn [List.length].
    pose proof (filter_length_le_any (fun c => negb (visited_has c [x])) cells). lia. }
  apply bfs_fuel; lia.
Qed.

End BFS.


(** *** The search on the board *)

Import PlayerModel Action ChartValidator.

(** Two cells at hex distance one are neighbours. *)
Lemma hexDistance_one_neighbor a c :
  hexDistance a c = 1 -> In c (getAllNeighbors a).
Proof.
  destruct a as [aq ar], c as [cq cr]. unfold hexDistance, s; cbn [q r].
  set (N := Z.abs (aq - cq) + Z.abs (ar - cr) + Z.abs (- (aq + ar) - - (cq + cr))).
  intros HN.
  pose proof (Z.div_mod N 2 ltac:(lia)) as Hdm.
  pose proof (Z.mod_pos_bound N 2 ltac:(lia)) as Hb.
  rewrite HN in Hdm.
  assert (Hc : (cq = aq + 1 /\ cr = ar + 0) \/ (cq = aq + 1 /\ cr = ar + -1) \/
               (cq = aq + 0 /\ cr = ar + -1) \/ (cq = aq + -1 /\ cr = ar + 0) \/
               (cq = aq + -1 /\ cr = ar + 1) \/ (cq = aq + 0 /\ cr = ar + 1))
    by (unfold N in *; lia).
  unfold getAllNeighbors, DIRECTION_VECTORS, createHexCoord; cbn [map q r In].
  destruct Hc as [[-> ->]|[[-> ->]|[[-> ->]|[[-> ->]|[[-> ->]|[-> ->]]]]]]; tauto.
Qed.

Lemma isOnBoard_In c : isOnBoard c = true -> In c BOARD_HEXES.
Proof.
  unfold isOnBoard. rewrite existsb_exists. intros [h [Hin Heq]].
  rewrite andb_true_iff, !Z.eqb_eq in Heq. destruct Heq as [Hq Hr].
  destruct h as [hq hr], c as [cq cr]; cbn [q r] in *; subst; exact Hin.
Qed.

(** A sailable hop stays on the board and goes to a neighbour. *)
Lemma canSailBetween_neighbor b a c :
  canSailBetween b a c = true -> negb (isOnBoard c) = false /\ In c (getAllNeighbors a).
Proof.
  unfold canSailBetween. destruct (isAdjacent a c) eqn:Ea; [|discriminate]. intros _.
  unfold isAdjacent, areAdjacent in Ea. rewrite !andb_true_iff, Z.eqb_eq in Ea.
  destruct Ea as [[Hd _] Hc]. rewrite Hc. split; [reflexivity|].
  apply hexDistance_one_neighbor; exact Hd.
Qed.

Lemma notBlocked_In c : negb (isOnBoard c) = false -> In c BOARD_HEXES.
Proof. intros H. apply isOnBoard_In. destruct (isOnBoard c); [reflexivity|discriminate]. Qed.

(** [Board.findPath] either returns [[]] and no sailable route exists, or
    returns a sailable route with the fewest hops. *)
Lemma Board_findPath_correct b from to :
  (Board_findPath b from to = [] /\ forall l, ~ sail_chain b from l to) \/
  bfs_shortest_to (canSailBetween b) from to (Board_findPath b from to).
Proof.
  unfold Board_findPath, sail_chain.
  apply (findPath_correct (fun c => negb (isOnBoard c)) (canSailBetween b) BOARD_HEXES
           (canSailBetween_neighbor b) notBlocked_In from to BOARD_FUEL).
  unfold BOARD_FUEL. lia.
Qed.

(** The [BOARD_FUEL] iterations given to the [while] loop are never exhausted:
    any larger number of iterations gives the same path. *)
Lemma Board_findPath_fuel b from to fuel :
  (BOARD_FUEL <= fuel)%nat ->
  findPath (fun c => negb (isOnBoard c)) (canSailBetween b) fuel from to = Board_findPath b from to.
Proof.
  intros Hf. unfold Board_findPath.
  apply (findPath_fuel (fun c => negb (isOnBoard c)) (canSailBetween b) BOARD_HEXES
           (canSailBetween_neighbor b) notBlocked_In from to); unfold BOARD_FUEL in *; lia.
Qed.

Lemma check_path_cells_valid pid b path :
  valid (check_path_cells pid b path) = true <->
  Forall (fun c => has_ship_at b pid c = true) path.
Proof.
  induction path as [|c path' IH]; cbn [check_path_cells].
  - split; [constructor|reflexivity].
  - rewrite Forall_cons_iff, <- IH. unfold has_ship_at.
    destruct (getHex b c) as [h|]; [|split; [discriminate|intros [H _]; discriminate]].
    destruct (Nat.eqb (List.length (getPlayerShips h pid)) 0); cbn [negb valid invalid].
    + split; [discriminate|intros [H _]; discriminate].
    + tauto.
Qed.

(** With sloops on the two island cells only, the claim fails: the middle
    cell (1,0) of the path holds no ship of [p1]. *)
Lemma smuggler_route_ends_only_invalid :
  Board_findPath Scenarios.board_route_ends Scenarios.c00 Scenarios.c20 =
    [Scenarios.c00; Scenarios.c10; Scenarios.c20] /\
  valid (canClaimSmugglerRoute "Havana" "Tortuga" "p1" Scenarios.board_route_ends) = false.
Proof. split; vm_compute; reflexivity. Qed.

(** Claim C8: a SmugglerRoute claim between the islands named [islandA] and
    [islandB] is valid exactly when both islands exist, a sailable route
    (every hop passes [canSailBetween], which applies the island edge rule)
    joins their cells, and the claimant has a ship on every cell of the path
    [Board.findPath] returns.  When such a route exists, that path is a
    sailable route with the fewest hops (its cells listed from the first
    island's cell to the second's), and the reward is its number of cells. *)
Theorem smuggler_route_claim (islandA islandB pid : string) (b : Board) :
  (valid (canClaimSmugglerRoute islandA islandB pid b) = true <->
   exists ia ib, find_island b islandA = Some ia /\ find_island b islandB = Some ib /\
     (exists l, sail_chain b (hexCoord ia) l (hexCoord ib)) /\
     Forall (fun c => has_ship_at b pid c = true)
            (Board_findPath b (hexCoord ia) (hexCoord ib))) /\
  (forall ia ib, find_island b islandA = Some ia -> find_island b islandB = Some ib ->
     (exists l, sail_chain b (hexCoord ia) l (hexCoord ib)) ->
     bfs_shortest_to (canSailBetween b) (hexCoord ia) (hexCoord ib)
                     (Board_findPath b (hexCoord ia) (hexCoord ib)) /\
     calculateSmugglerRouteReward islandA islandB b =
       Z.of_nat (List.length (Board_findPath b (hexCoord ia) (hexCoord ib)))).
Proof.
  split.
  - unfold canClaimSmugglerRoute. split.
    + destruct (find_island b islandA) as [ia|]; [|discriminate].
      destruct (find_island b islandB) as [ib|]; [|discriminate].
      intros Hv. exists ia, ib. split; [reflexivity|]. split; [reflexivity|].
      destruct (Board_findPath_correct b (hexCoord ia) (hexCoord ib))
        as [[He _]|[l [Hp [Hl _]]]].
      * rewrite He in Hv. discriminate.
      * split; [exists l; exact Hl|]. rewrite Hp in Hv |- *.
        apply check_path_cells_valid. exact Hv.
    + intros (ia & ib & Ha & Hb & [l Hl] & Hf). rewrite Ha, Hb.
      destruct (Board_findPath_correct b (hexCoord ia) (hexCoord ib))
        as [[_ Hno]|[l' [Hp _]]]; [exfalso; exact (Hno l Hl)|].
      rewrite Hp in Hf |- *. cbn beta iota.
      apply check_path_cells_valid. exact Hf.
  - intros ia ib Ha Hb [l Hl].
    destruct (Board_findPath_correct b (hexCoord ia) (hexCoord ib)) as [[_ Hno]|Hs];
      [exfalso; exact (Hno l Hl)|].
    split; [exact Hs|]. unfold calculateSmugglerRouteReward. rewrite Ha, Hb. reflexivity.
Qed.

(** On [board_route_full] the claim between Havana and Tortuga is valid and
    pays three: the route (0,0), (1,0), (2,0) is sailable and every cell of it
    holds a sloop of [p1]. *)
Lemma smuggler_route_claim_witness :
  valid (canClaimSmugglerRoute "Havana" "Tortuga" "p1" Scenarios.board_route_full) = true /\
  calculateSmugglerRouteReward "Havana" "Tortuga" Scenarios.board_route_full = 3.
Proof.
  assert (Ha : find_island Scenarios.board_route_full "Havana" = Some Scenarios.havana)
    by reflexivity.
  assert (Hb : find_island Scenarios.board_route_full "Tortuga" = Some Scenarios.tortuga)
    by reflexivity.
  assert (Hl : exists l, sail_chain Scenarios.board_route_full (hexCoord Scenarios.havana) l
                                    (hexCoord Scenarios.tortuga))
    by (exists [Scenarios.c10; Scenarios.c20]; vm_compute; tauto).
  destruct (smuggler_route_claim "Havana" "Tortuga" "p1" Scenarios.board_route_full)
    as [[_ Hiff] Hrew].
  split.
  - apply Hiff. exists Scenarios.havana, Scenarios.tortuga.
    split; [exact Ha|]. split; [exact Hb|]. split; [exact Hl|].
    vm_compute. repeat constructor.
  - destruct (Hrew _ _ Ha Hb Hl) as [_ ->]. vm_compute. reflexivity.
Defined.

End PathProofs.


Module HexMathProofs.
Import HexMath HexConstants HexRange Specs IslandProofs PathProofs.

Lemma hexDistance_max a b :
  hexDistance a b =
  Z.max (Z.abs (q a - q b)) (Z.max (Z.abs (r a - r b)) (Z.abs (s a - s b))).
Proof.
  unfold hexDistance, s.
  set (m := Z.max (Z.abs (q a - q b)) (Z.max (Z.abs (r a - r b))
                                             (Z.abs (- (q a + r a) - - (q b + r b))))).
  replace (Z.abs (q a - q b) + Z.abs (r a - r b) + Z.abs (- (q a + r a) - - (q b + r b)))
    with (m * 2) by (unfold m; lia).
  apply Z.div_mul. lia.
Qed.

(** [hexDistance] is a metric on coordinates: non-negative, symmetric,
    zero exactly between equal coordinates, and obeying the triangle
    inequality. *)
Theorem hexDistance_metric a b c :
  0 <= hexDistance a b /\
  hexDistance a b = hexDistance b a /\
  (hexDistance a b = 0 <-> a = b) /\
  hexDistance a c <= hexDistance a b + hexDistance b c.
Proof.
  rewrite !hexDistance_max. unfold s.
  destruct a as [qa ra], b as [qb rb], c as [qc rc]; cbn [q r].
  split; [lia|]. split; [lia|]. split.
  - split.
    + intros H.
      assert (Z.abs (qa - qb) <= 0 /\ Z.abs (ra - rb) <= 0) as [H1 H2] by lia.
      f_equal; lia.
    + intros H. injection H as -> ->. rewrite !Z.sub_diag. reflexivity.
  - set (x1 := qa - qb). set (y1 := ra - rb). set (z1 := - (qa + ra) - - (qb + rb)).
    set (x2 := qb - qc). set (y2 := rb - rc). set (z2 := - (qb + rb) - - (qc + rc)).
    replace (qa - qc) with (x1 + x2) by (unfold x1, x2; lia).
    replace (ra - rc) with (y1 + y2) by (unfold y1, y2; lia).
    replace (- (qa + ra) - - (qc + rc)) with (z1 + z2) by (unfold z1, z2; lia).
    clearbody x1 y1 z1 x2 y2 z2.
    pose proof (Z.abs_triangle x1 x2). pose proof (Z.abs_triangle y1 y2).
    pose proof (Z.abs_triangle z1 z2).
    pose proof (Z.le_max_l (Z.abs x1) (Z.max (Z.abs y1) (Z.abs z1))).
    pose proof (Z.le_max_l (Z.abs y1) (Z.abs z1)).
    pose proof (Z.le_max_r (Z.abs y1) (Z.abs z1)).
    pose proof (Z.le_max_r (Z.abs x1) (Z.max (Z.abs y1) (Z.abs z1))).
    pose proof (Z.le_max_l (Z.abs x2) (Z.max (Z.abs y2) (Z.abs z2))).
    pose proof (Z.le_max_l (Z.abs y2) (Z.abs z2)).
    pose proof (Z.le_max_r (Z.abs y2) (Z.abs z2)).
    pose proof (Z.le_max_r (Z.abs x2) (Z.max (Z.abs y2) (Z.abs z2))).
    set (M1 := Z.max (Z.abs x1) (Z.max (Z.abs y1) (Z.abs z1))) in *.
    set (M2 := Z.max (Z.abs x2) (Z.max (Z.abs y2) (Z.abs z2))) in *.
    set (m1 := Z.max (Z.abs y1) (Z.abs z1)) in *. set (m2 := Z.max (Z.abs y2) (Z.abs z2)) in *.
    apply Z.max_lub; [|apply Z.max_lub]; lia.
Qed.

Lemma getAllNeighbors_getNeighbor a c :
  In c (getAllNeighbors a) <-> exists d, 0 <= d < 6 /\ getNeighbor a d = c.
Proof.
  split.
  - unfold getAllNeighbors, DIRECTION_VECTORS; cbn [map In].
    intros [H|[H|[H|[H|[H|[H|[]]]]]]]; subst;
      [exists 0|exists 1|exists 2|exists 3|exists 4|exists 5]; split; try lia; reflexivity.
  - intros [d [Hd <-]].
    assert (d = 0 \/ d = 1 \/ d = 2 \/ d = 3 \/ d = 4 \/ d = 5) as Hc by lia.
    unfold getAllNeighbors, DIRECTION_VECTORS; cbn [map In].
    destruct Hc as [ -> | [ -> | [ -> | [ -> | [ -> | -> ]]]]]; cbn; tauto.
Qed.

(** [getAllNeighbors] lists exactly the coordinates at distance one; for
    such a neighbour [getDirection] returns a direction in [0, 5] whose
    [getNeighbor] is that neighbour, and for any other coordinate it
    returns -1. *)
Theorem getDirection_spec a b :
  (In b (getAllNeighbors a) <-> areAdjacent a b = true) /\
  (areAdjacent a b = true -> 0 <= getDirection a b < 6 /\ getNeighbor a (getDirection a b) = b) /\
  (areAdjacent a b = false -> getDirection a b = -1).
Proof.
  assert (Hn : In b (getAllNeighbors a) -> areAdjacent a b = true).
  { intros Hin. apply getAllNeighbors_getNeighbor in Hin. destruct Hin as [d [Hd <-]].
    unfold areAdjacent. rewrite getNeighbor_offset, hexDistance_offset.
    assert (d = 0 \/ d = 1 \/ d = 2 \/ d = 3 \/ d = 4 \/ d = 5) as Hc by lia.
    destruct Hc as [ -> | [ -> | [ -> | [ -> | [ -> | -> ]]]]]; reflexivity. }
  split; [split; [exact Hn|]|split].
  - unfold areAdjacent. intros H. apply hexDistance_one_neighbor. apply Z.eqb_eq. exact H.
  - intros H. unfold areAdjacent in H. apply Z.eqb_eq, hexDistance_one_neighbor in H.
    apply getAllNeighbors_getNeighbor in H. destruct H as [d [Hd <-]].
    rewrite getDirection_getNeighbor by exact Hd. split; [exact Hd|reflexivity].
  - intros H. unfold getDirection. rewrite H. reflexivity.
Qed.

Lemma zrange_from_In lo n x : In x (zrange_from lo n) <-> lo <= x < lo + Z.of_nat n.
Proof.
  revert lo. induction n as [|n IH]; intros lo; cbn [zrange_from In].
  - lia.
  - rewrite IH. lia.
Qed.

Lemma zrange_In lo hi x : In x (zrange lo hi) <-> lo <= x <= hi.
Proof.
  unfold zrange. rewrite zrange_from_In.
  lia.
Qed.

Lemma zrange_from_NoDup lo n : NoDup (zrange_from lo n).
Proof.
  revert lo. induction n as [|n IH]; intros lo; cbn [zrange_from]; constructor.
  - rewrite zrange_from_In. lia.
  - apply IH.
Qed.

Lemma NoDup_flat_map {A B} (f : A -> list B) (l : list A) :
  NoDup l -> (forall x, In x l -> NoDup (f x)) ->
  (forall x y z, In x l -> In y l -> In z (f x) -> In z (f y) -> x = y) ->
  NoDup (flat_map f l).
Proof.
  induction l as [|a l IH]; intros Hl Hf Hd; cbn [flat_map]; [constructor|].
  inversion Hl as [|? ? Ha Hl']; subst.
  apply NoDup_app.
  - apply Hf; left; reflexivity.
  - apply IH; [exact Hl'| intros; apply Hf; right; assumption|].
    intros x y z Hx Hy; apply Hd; right; assumption.
  - intros z Hz Hz'. apply in_flat_map in Hz'. destruct Hz' as [y [Hy Hzy]].
    assert (a = y) by (apply (Hd a y z); [left|right|..]; auto). subst. contradiction.
Qed.

Lemma NoDup_map_inj {A B} (f : A -> B) (l : list A) :
  (forall x y, f x = f y -> x = y) -> NoDup l -> NoDup (map f l).
Proof.
  intros Hf. induction 1 as [|a l Ha Hl IH]; cbn [map]; constructor; [|exact IH].
  intros Hin. apply in_map_iff in Hin. destruct Hin as [y [Hy Hyl]].
  apply Hf in Hy. subst. contradiction.
Qed.

(** [getHexesInRange] lists every coordinate within [range] of the centre,
    once each, and nothing else. *)
Theorem getHexesInRange_spec center range :
  NoDup (getHexesInRange center range) /\
  forall c, In c (getHexesInRange center range) <-> hexDistance center c <= range.
Proof.
  split.
  - unfold getHexesInRange. apply NoDup_flat_map.
    + apply zrange_from_NoDup.
    + intros q0 _. apply NoDup_map_inj; [|apply zrange_from_NoDup].
      intros x y H. unfold createHexCoord in H. injection H. lia.
    + intros x y z _ _ Hx Hy. apply in_map_iff in Hx, Hy.
      destruct Hx as [r1 [<- _]], Hy as [r2 [Hz _]].
      unfold createHexCoord in Hz. injection Hz. lia.
  - intros c. unfold getHexesInRange. rewrite in_flat_map. rewrite hexDistance_max. unfold s.
    split.
    + intros [q0 [Hq Hc]]. apply in_map_iff in Hc. destruct Hc as [r0 [<- Hr]].
      rewrite zrange_In in Hq, Hr. unfold createHexCoord; cbn [q r]. lia.
    + intros H. exists (q c - q center). rewrite zrange_In. split; [lia|].
      apply in_map_iff. exists (r c - r center). rewrite zrange_In.
      split; [|lia]. destruct c as [cq cr]. unfold createHexCoord; cbn [q r] in *.
      f_equal; lia.
Qed.

End HexMathProofs.


Module ControlProofs.
Import HexMath HexConstants BoardModel HexControl Invariants.

Lemma ctrl_fold L :
  NoDup (map fst L) -> ctrl_inv L (fold_left controller_step L (0, None, false)).
Proof.
  induction L as [|x L IH] using rev_ind; intros Hnd.
  - cbn. split; [lia|]. split; [tauto|]. split; [auto|lia].
  - rewrite map_app in Hnd. cbn [map] in Hnd.
    pose proof (NoDup_app_remove_r _ _ Hnd) as HndL.
    assert (Hx : ~ In (fst x) (map fst L)).
    { intros Hin. apply NoDup_remove_2 in Hnd. rewrite app_nil_r in Hnd. contradiction. }
    specialize (IH HndL). rewrite fold_left_app. cbn [fold_left].
    destruct (fold_left controller_step L (0, None, false)) as [[mx c] t].
    destruct x as [p v]. cbn [fst] in Hx.
    destruct IH as (Hmx & Hle & H0 & Hpos).
    unfold controller_step.
    destruct (Z.ltb_spec mx v).
    + split; [lia|]. split.
      { intros e He. apply in_app_or in He. destruct He as [He|[<-|[]]]; [specialize (Hle e He)|]; cbn; lia. }
      split; [lia|]. intros _. exists p. split; [reflexivity|]. split; [apply in_or_app; right; left; reflexivity|].
      split; [|reflexivity]. intros _ p' Hp'. apply in_app_or in Hp'.
      destruct Hp' as [Hp'|[Hp'|[]]]; [specialize (Hle _ Hp'); cbn in Hle; lia|congruence].
    + destruct ((v =? mx) && (0 <? v)) eqn:Et.
      * apply andb_true_iff in Et. destruct Et as [Ev Ep]. apply Z.eqb_eq in Ev. apply Z.ltb_lt in Ep.
        subst v.
        split; [lia|]. split.
        { intros e He. apply in_app_or in He. destruct He as [He|[<-|[]]]; [apply Hle; exact He|cbn; lia]. }
        split; [lia|]. intros Hm. destruct (Hpos Hm) as [p0 [Hc [Hin _]]].
        exists p0. split; [exact Hc|]. split; [apply in_or_app; left; exact Hin|].
        split; [discriminate|]. intros Hall.
        assert (p = p0) by (apply Hall; apply in_or_app; right; left; reflexivity). subst p0.
        exfalso. apply Hx. apply in_map_iff. exists (p, mx). split; [reflexivity|exact Hin].
      * split; [lia|]. split.
        { intros e He. apply in_app_or in He. destruct He as [He|[<-|[]]]; [apply Hle; exact He|cbn; lia]. }
        split; [exact H0|]. intros Hm. destruct (Hpos Hm) as [p0 [Hc [Hin Ht]]].
        exists p0. split; [exact Hc|]. split; [apply in_or_app; left; exact Hin|].
        rewrite Ht. split.
        -- intros Hall p' Hp'. apply in_app_or in Hp'. destruct Hp' as [Hp'|[Hp'|[]]]; [apply Hall; exact Hp'|].
           injection Hp' as -> ->. rewrite Z.eqb_refl in Et. apply Z.ltb_ge in Et. lia.
        -- intros Hall p' Hp'. apply Hall. apply in_or_app. left. exact Hp'.
Qed.

(** With distinct keys, the winner of the loop is the one entry strictly above
    all others, with a positive value. *)
Lemma ctrl_result L p :
  NoDup (map fst L) ->
  ((let '(_, c, t) := fold_left controller_step L (0, None, false) in if t then None else c)
     = Some p <->
   exists v, In (p, v) L /\ 0 < v /\ forall p' v', In (p', v') L -> p' <> p -> v' < v).
Proof.
  intros Hnd. pose proof (ctrl_fold L Hnd) as Hinv.
  destruct (fold_left controller_step L (0, None, false)) as [[mx c] t].
  destruct Hinv as (Hmx & Hle & H0 & Hpos).
  split.
  - destruct t; [discriminate|]. intros ->.
    destruct (Z.eq_dec mx 0) as [E|E]; [destruct (H0 E) as [Hc _]; discriminate|].
    destruct (Hpos ltac:(lia)) as [p0 [Hc [Hin Ht]]]. injection Hc as <-.
    exists mx. split; [exact Hin|]. split; [lia|]. intros p' v' Hin' Hne.
    specialize (Hle _ Hin'). cbn in Hle. destruct (Z.eq_dec v' mx) as [->|]; [|lia].
    exfalso. apply Hne. apply (proj1 Ht eq_refl). exact Hin'.
  - intros [v [Hin [Hv Hmax]]].
    pose proof (Hle _ Hin) as Hvm. cbn in Hvm.
    destruct (Hpos ltac:(lia)) as [p0 [Hc [Hin0 Ht]]].
    assert (p0 = p).
    { destruct (string_dec p0 p) as [|Hne]; [assumption|].
      specialize (Hmax _ _ Hin0 Hne). lia. }
    subst p0.
    assert (mx = v).
    { assert (Hk : forall k v1 v2, In (k, v1) L -> In (k, v2) L -> v1 = v2).
      { clear -Hnd. induction L as [|[k0 w] L IH]; intros k v1 v2 H1 H2; [destruct H1|].
        cbn [map] in Hnd. inversion Hnd as [|? ? Hk0 Hnd']; subst.
        destruct H1 as [H1|H1], H2 as [H2|H2].
        - congruence.
        - injection H1 as -> ->. exfalso. apply Hk0. apply in_map_iff. exists (k, v2). auto.
        - injection H2 as -> ->. exfalso. apply Hk0. apply in_map_iff. exists (k, v1). auto.
        - eapply IH; eauto. }
      apply (Hk p); assumption. }
    subst mx.
    assert (t = false) as ->.
    { apply Ht. intros p' Hp'. destruct (string_dec p' p) as [|Hne]; [assumption|].
      specialize (Hmax _ _ Hp' Hne). lia. }
    rewrite Hc. reflexivity.
Qed.

Lemma map_get_In (m : ShipMap) k l :
  NoDup (map fst m) -> map_get m k = Some l <-> In (k, l) m.
Proof.
  induction m as [|[k0 v0] m IH]; intros Hnd; cbn [map_get In]; [split; [discriminate|tauto]|].
  cbn [map] in Hnd. inversion Hnd as [|? ? Hk0 Hnd']; subst.
  destruct (String.eqb_spec k k0) as [->|Hne].
  - split.
    + intros H. injection H as ->. left. reflexivity.
    + intros [H|H]; [congruence|]. exfalso. apply Hk0. apply in_map_iff. exists (k0, l). auto.
  - rewrite IH by exact Hnd'. split; [auto|]. intros [H|H]; [congruence|exact H].
Qed.

Lemma map_get_None (m : ShipMap) k :
  map_get m k = None <-> ~ In k (map fst m).
Proof.
  induction m as [|[k0 v0] m IH]; cbn [map_get map In fst]; [tauto|].
  destruct (String.eqb_spec k k0) as [->|Hne].
  - split; [discriminate|]. intros H. exfalso. apply H. left. reflexivity.
  - rewrite IH. intuition congruence.
Qed.

Lemma ships_influence_nonneg l : 0 <= ships_influence l.
Proof.
  unfold ships_influence.
  assert (H : forall acc, 0 <= acc -> 0 <= fold_left (fun total sh => total + influence sh) l acc).
  { induction l as [|sh l IH]; intros acc Hacc; cbn [fold_left]; [exact Hacc|].
    apply IH. unfold influence, influence_of. destruct (type sh); lia. }
  apply H. lia.
Qed.

(** [Hex.getController]: with one entry per player in the ship map (which
    [addShip] and [removeShip] keep), the controller is the player whose
    influence is positive and strictly larger than every other player's in
    the hex; there is none on an empty hex or a tie for the largest
    influence. *)
Lemma getController_iff h p :
  NoDup (getPlayerIds h) ->
  getController h = Some p <->
  0 < getInfluence h p /\
  forall p', In p' (getPlayerIds h) -> p' <> p -> getInfluence h p' < getInfluence h p.
Proof.
  unfold getPlayerIds. intros Hnd.
  assert (Hinf : forall k, getInfluence h k =
                 match map_get (ships h) k with Some l => ships_influence l | None => 0 end).
  { intros k. unfold getInfluence, getPlayerShips, ships_influence. destruct (map_get (ships h) k); reflexivity. }
  set (L := map (fun e => (fst e, ships_influence (snd e))) (ships h)).
  assert (HndL : NoDup (map fst L)).
  { unfold L. rewrite map_map. exact Hnd. }
  assert (HL : forall k v, In (k, v) L <-> exists l, In (k, l) (ships h) /\ v = ships_influence l).
  { intros k v. unfold L. rewrite in_map_iff. split.
    - intros [[k' l] [He Hin]]. injection He as Hk Hv. subst. exists l. auto.
    - intros [l [Hin ->]]. exists (k, l). auto. }
  destruct (ships h) as [|e0 m] eqn:Es.
  - unfold getController. rewrite Es. split; [discriminate|]. rewrite Hinf. try rewrite Es. cbn. lia.
  - assert (Hg : getController h =
      (let '(_, c, t) := fold_left controller_step L (0, None, false) in if t then None else c)).
    { unfold getController, L. rewrite Es. reflexivity. }
    rewrite Hg, (ctrl_result L p HndL). rewrite <- Es in *. split.
    + intros [v [Hin [Hv Hmax]]]. apply HL in Hin. destruct Hin as [l [Hin ->]].
      rewrite Hinf, (proj2 (map_get_In _ _ _ Hnd) Hin). split; [exact Hv|].
      intros p' Hp' Hne. apply in_map_iff in Hp'. destruct Hp' as [[k l'] [Hk Hin']]. cbn in Hk. subst k.
      rewrite Hinf, (proj2 (map_get_In _ _ _ Hnd) Hin').
      apply (Hmax p'); [apply HL; exists l'; auto|exact Hne].
    + intros [Hv Hmax]. rewrite Hinf in Hv.
      destruct (map_get (ships h) p) as [l|] eqn:Eg; [|lia].
      apply (map_get_In _ _ _ Hnd) in Eg.
      exists (ships_influence l). split; [apply HL; exists l; auto|]. split; [exact Hv|].
      intros p' v' Hin' Hne. apply HL in Hin'. destruct Hin' as [l' [Hin' ->]].
      specialize (Hmax p' ltac:(apply in_map_iff; exists (p', l'); auto) Hne).
      rewrite Hinf, (proj2 (map_get_In _ _ _ Hnd) Hin') in Hmax.
      rewrite Hinf, (proj2 (map_get_In _ _ _ Hnd) Eg) in Hmax. exact Hmax.
Qed.

(** [Hex.getController]: on a hex whose ship map has one entry per player,
    the controller is [p] exactly when [p]'s influence is positive and
    strictly larger than the influence of every other player present; an
    empty hex and a tie for the largest influence have no controller. *)
Theorem getController_spec h p :
  NoDup (getPlayerIds h) ->
  getController h = Some p <->
  0 < getInfluence h p /\
  forall p', In p' (getPlayerIds h) -> p' <> p -> getInfluence h p' < getInfluence h p.
Proof.
  exact (getController_iff h p).
Qed.

Lemma getController_spec_witness :
  NoDup (getPlayerIds MoreScenarios.hex_sink) /\ 0 < getInfluence MoreScenarios.hex_sink "p2".
Proof.
  assert (Hnd : NoDup (getPlayerIds MoreScenarios.hex_sink)).
  { unfold MoreScenarios.hex_sink, getPlayerIds; cbn [ships map fst].
    constructor; [intros [H|[]]; discriminate|constructor; [intros []|constructor]]. }
  split; [exact Hnd|].
  exact (proj1 (proj1 (getController_spec MoreScenarios.hex_sink "p2" Hnd) eq_refl)).
Defined.

End ControlProofs.


Module ShipProofs.
Import HexMath HexConstants BoardModel Specs PathProofs ControlProofs.

Lemma map_get_set m k v k' :
  map_get (map_set m k v) k' = if String.eqb k' k then Some v else map_get m k'.
Proof.
  induction m as [|[k0 v0] m IH]; cbn [map_set map_get].
  - reflexivity.
  - destruct (String.eqb_spec k k0) as [->|Hne]; cbn [map_get].
    + destruct (String.eqb_spec k' k0); reflexivity.
    + rewrite IH. destruct (String.eqb_spec k' k0) as [->|]; [|reflexivity].
      destruct (String.eqb_spec k0 k); [congruence|reflexivity].
Qed.

Lemma map_set_keys m k v :
  map fst (map_set m k v) = if existsb (String.eqb k) (map fst m) then map fst m
                            else map fst m ++ [k].
Proof.
  induction m as [|[k0 v0] m IH]; cbn [map_set map fst existsb]; [reflexivity|].
  destruct (String.eqb_spec k k0) as [->|Hne]; cbn [map fst orb]; [reflexivity|].
  rewrite IH. destruct (existsb (String.eqb k) (map fst m)); reflexivity.
Qed.

Lemma map_set_NoDup m k v : NoDup (map fst m) -> NoDup (map fst (map_set m k v)).
Proof.
  intros Hnd. rewrite map_set_keys.
  destruct (existsb (String.eqb k) (map fst m)) eqn:Ek; [exact Hnd|].
  apply NoDup_app; [exact Hnd|constructor; [intros []|constructor]|].
  intros x Hx [Hk|[]]. subst x. assert (existsb (String.eqb k) (map fst m) = true) as Hc.
  { apply existsb_exists. exists k. split; [exact Hx|apply String.eqb_refl]. }
  congruence.
Qed.

Lemma map_delete_keys m k :
  NoDup (map fst m) ->
  NoDup (map fst (map_delete m k)) /\ ~ In k (map fst (map_delete m k)) /\
  forall k', k' <> k -> map_get (map_delete m k) k' = map_get m k'.
Proof.
  induction m as [|[k0 v0] m IH]; intros Hnd; cbn [map_delete map fst].
  - split; [constructor|]. split; [intros []|reflexivity].
  - cbn [map fst] in Hnd. inversion Hnd as [|? ? Hk0 Hnd']; subst.
    destruct (String.eqb_spec k k0) as [->|Hne].
    + split; [exact Hnd'|]. split; [exact Hk0|].
      intros k' Hk'. cbn [map_get]. destruct (String.eqb_spec k' k0); [congruence|reflexivity].
    + destruct (IH Hnd') as (H1 & H2 & H3). cbn [map fst].
      split.
      * constructor; [|exact H1]. intros Hin. apply Hk0.
        assert (Hsub : forall x, In x (map fst (map_delete m k)) -> In x (map fst m)).
        { clear. induction m as [|[k1 v1] m IH]; cbn [map_delete map fst]; [tauto|].
          destruct (String.eqb k k1); cbn [map fst In]; [tauto|]. intros x [H|H]; [left; exact H|right; apply IH; exact H]. }
        apply Hsub. exact Hin.
      * split; [intros [H|H]; [congruence|contradiction]|].
        intros k' Hk'. cbn [map_get]. destruct (String.eqb k' k0); [reflexivity|]. apply H3. exact Hk'.
Qed.

Lemma Ship_equals_eq a b : Ship_equals a b = true <-> a = b.
Proof.
  destruct a as [ta pa], b as [tb pb]. unfold Ship_equals; cbn [type playerId].
  rewrite andb_true_iff, String.eqb_eq.
  split.
  - intros [Ht ->]. destruct ta, tb; try discriminate; reflexivity.
  - intros H. injection H as -> ->. split; [destruct tb; reflexivity|reflexivity].
Qed.

Lemma findIndex_splice (sh : Ship) l :
  match findIndex (fun x => Ship_equals x sh) l with
  | None => ~ In sh l
  | Some i => Permutation l (sh :: splice1 l i)
  end.
Proof.
  induction l as [|x l IH]; cbn [findIndex]; [intros []|].
  destruct (Ship_equals x sh) eqn:Ex.
  - apply Ship_equals_eq in Ex. subst. cbn [splice1]. reflexivity.
  - destruct (findIndex (fun x0 => Ship_equals x0 sh) l) as [i|]; cbn [option_map splice1].
    + rewrite IH at 1. apply perm_swap.
    + intros [H|H]; [subst; rewrite (proj2 (Ship_equals_eq sh sh) eq_refl) in Ex; discriminate|contradiction].
Qed.

(** What [Hex.removeShip] does to a hex whose ship map has one entry per
    player. *)
Lemma removeShip_cases h sh :
  NoDup (getPlayerIds h) ->
  (removeShip h sh = (h, false) /\ ~ In sh (getPlayerShips h (playerId sh))) \/
  (exists h', removeShip h sh = (h', true) /\ coord h' = coord h /\ island h' = island h /\
     NoDup (getPlayerIds h') /\
     Permutation (getPlayerShips h (playerId sh)) (sh :: getPlayerShips h' (playerId sh)) /\
     forall p, p <> playerId sh -> getPlayerShips h' p = getPlayerShips h p).
Proof.
  intros Hnd. unfold removeShip, getPlayerShips.
  destruct (map_get (ships h) (playerId sh)) as [l|] eqn:Eg.
  2: { left. split; [reflexivity|intros []]. }
  pose proof (findIndex_splice sh l) as Hf.
  destruct (findIndex (fun x => Ship_equals x sh) l) as [i|].
  2: { left. split; [reflexivity|exact Hf]. }
  right. set (rest := splice1 l i) in *.
  set (m := map_set (ships h) (playerId sh) rest).
  assert (Hm : NoDup (map fst m)) by (apply map_set_NoDup; exact Hnd).
  destruct rest as [|y rest'] eqn:Er.
  - destruct (map_delete_keys m (playerId sh) Hm) as (H1 & H2 & H3).
    eexists. split; [reflexivity|]. cbn [coord island ships with_ships].
    split; [reflexivity|]. split; [reflexivity|]. split; [exact H1|].
    split.
    + rewrite (proj2 (map_get_None _ _) H2). exact Hf.
    + intros p Hp. rewrite H3 by exact Hp. unfold m. rewrite map_get_set.
      destruct (String.eqb_spec p (playerId sh)); [contradiction|reflexivity].
  - eexists. split; [reflexivity|]. cbn [coord island ships with_ships].
    split; [reflexivity|]. split; [reflexivity|]. split; [exact Hm|].
    unfold m. rewrite !map_get_set, String.eqb_refl. split; [exact Hf|].
    intros p Hp. rewrite map_get_set. destruct (String.eqb_spec p (playerId sh)); [contradiction|reflexivity].
Qed.

Lemma addShip_ships h sh p :
  coord (addShip h sh) = coord h /\ island (addShip h sh) = island h /\
  getPlayerShips (addShip h sh) p =
    if String.eqb p (playerId sh) then getPlayerShips h p ++ [sh] else getPlayerShips h p.
Proof.
  unfold addShip, with_ships, getPlayerShips; cbn [coord island ships].
  split; [reflexivity|]. split; [reflexivity|]. rewrite map_get_set.
  destruct (String.eqb_spec p (playerId sh)) as [->|]; reflexivity.
Qed.

Lemma addShip_NoDup h sh : NoDup (getPlayerIds h) -> NoDup (getPlayerIds (addShip h sh)).
Proof. intros Hnd. apply map_set_NoDup. exact Hnd. Qed.

(** [getHex] after writing back a hex that is on the board. *)
Lemma getHex_setHex b h c h0 :
  getHex b (coord h) = Some h0 ->
  getHex (setHex b h) c = if hexEquals (coord h) c then Some h else getHex b c.
Proof.
  unfold getHex, setHex; cbn [hexes].
  destruct (hexEquals (coord h) c) eqn:Ec.
  - apply hexEquals_eq in Ec. subst c.
    induction (hexes b) as [|h1 l IH]; cbn [find map]; [discriminate|].
    destruct (hexEquals (coord h1) (coord h)) eqn:E1; cbn [find].
    + intros _. rewrite (proj2 (hexEquals_eq (coord h) (coord h)) eq_refl). reflexivity.
    + rewrite E1. exact IH.
  - intros _. induction (hexes b) as [|h1 l IH]; cbn [find map]; [reflexivity|].
    destruct (hexEquals (coord h1) (coord h)) eqn:E1; cbn [find].
    + apply hexEquals_eq in E1. rewrite E1, Ec. exact IH.
    + destruct (hexEquals (coord h1) c); [reflexivity|exact IH].
Qed.

Lemma getHex_coord b c h : getHex b c = Some h -> coord h = c.
Proof.
  unfold getHex. intros H. apply find_some in H. destruct H as [_ H].
  apply hexEquals_eq. exact H.
Qed.

Lemma getHex_setHex_ships b h h0 p c :
  getHex b (coord h) = Some h0 ->
  ships_at (setHex b h) p c = if hexEquals (coord h) c then getPlayerShips h p else ships_at b p c.
Proof.
  intros H. unfold ships_at. rewrite (getHex_setHex b h c h0 H).
  destruct (hexEquals (coord h) c); reflexivity.
Qed.

Lemma areAdjacent_irrefl a : areAdjacent a a = false.
Proof. unfold areAdjacent, hexDistance, s. rewrite !Z.sub_diag. reflexivity. Qed.

Lemma canSailBetween_hexes b from to :
  canSailBetween b from to = true ->
  from <> to /\ (exists hf, getHex b from = Some hf) /\ (exists ht, getHex b to = Some ht).
Proof.
  unfold canSailBetween, isAdjacent.
  destruct (areAdjacent from to) eqn:Ea; cbn [negb andb]; [|discriminate].
  intros H. split; [intros ->; rewrite areAdjacent_irrefl in Ea; discriminate|].
  destruct (getHex b from) as [hf|], (getHex b to) as [ht|];
    [split; eexists; reflexivity|destruct (isOnBoard from && isOnBoard to); discriminate ..].
Qed.

(** [Board.moveShip]: the move succeeds exactly when the two cells can be
    sailed between and the ship is at the origin; a failed move leaves the
    board as it was; a successful one takes one copy of the ship from the
    origin, appends it to the player's ships at the destination, and changes
    nothing else. *)
Theorem moveShip_spec b from to sh :
  (forall h, getHex b from = Some h -> NoDup (getPlayerIds h)) ->
  let '(b', moved) := moveShip b from to sh in
  (moved = true <-> canSailBetween b from to = true /\ In sh (ships_at b (playerId sh) from)) /\
  (moved = false -> b' = b) /\
  (moved = true ->
     Permutation (ships_at b (playerId sh) from) (sh :: ships_at b' (playerId sh) from) /\
     ships_at b' (playerId sh) to = ships_at b (playerId sh) to ++ [sh] /\
     forall p c, (p <> playerId sh \/ (c <> from /\ c <> to)) -> ships_at b' p c = ships_at b p c).
Proof.
  intros Hnd. unfold moveShip.
  destruct (canSailBetween b from to) eqn:Ec; cbn [negb].
  2: { split; [split; [discriminate|intros [H _]; discriminate]|]. split; [reflexivity|discriminate]. }
  destruct (canSailBetween_hexes b from to Ec) as (Hne & [hf Ehf] & [ht Eht]).
  rewrite Ehf, Eht. specialize (Hnd hf Ehf).
  assert (Hcf : coord hf = from) by (exact (getHex_coord _ _ _ Ehf)).
  assert (Hct : coord ht = to) by (exact (getHex_coord _ _ _ Eht)).
  assert (Hsa : forall p c, ships_at b p c = match getHex b c with Some h => getPlayerShips h p | None => [] end)
    by reflexivity.
  destruct (removeShip_cases hf sh Hnd) as [[-> Hnin]|(hf' & -> & Hcf' & _ & _ & Hperm & Hoth)]; cbn [negb].
  - split; [|split; [reflexivity|discriminate]].
    split; [discriminate|]. intros [_ Hin]. unfold ships_at in Hin. rewrite Ehf in Hin. contradiction.
  - assert (Hb1 : getHex b (coord hf') = Some hf) by (rewrite Hcf', Hcf; exact Ehf).
    pose proof (getHex_setHex b hf' to hf Hb1) as Hg1.
    rewrite Hcf', Hcf in Hg1.
    assert (Hft : hexEquals from to = false).
    { destruct (hexEquals from to) eqn:E; [apply hexEquals_eq in E; contradiction|reflexivity]. }
    rewrite Hft, Eht in Hg1. rewrite Hg1.
    assert (Hb2 : getHex (setHex b hf') (coord (addShip ht sh)) = Some ht).
    { destruct (addShip_ships ht sh (playerId sh)) as [-> _]. rewrite Hct. exact Hg1. }
    assert (Hsh : forall p c, ships_at (setHex (setHex b hf') (addShip ht sh)) p c =
      if hexEquals to c then getPlayerShips (addShip ht sh) p
      else if hexEquals from c then getPlayerShips hf' p else ships_at b p c).
    { intros p c. rewrite (getHex_setHex_ships _ _ _ p c Hb2), (getHex_setHex_ships _ _ _ p c Hb1).
      destruct (addShip_ships ht sh p) as [-> _]. rewrite Hct, Hcf', Hcf. reflexivity. }
    assert (Hfrom : forall p, ships_at b p from = getPlayerShips hf p) by (intros p; unfold ships_at; rewrite Ehf; reflexivity).
    assert (Hto : forall p, ships_at b p to = getPlayerShips ht p) by (intros p; unfold ships_at; rewrite Eht; reflexivity).
    split; [|split; [discriminate|intros _]].
    + split; [intros _|reflexivity]. split; [reflexivity|].
      rewrite Hfrom. eapply Permutation_in; [symmetry; exact Hperm|left; reflexivity].
    + rewrite !Hsh. rewrite (proj2 (hexEquals_eq to to) eq_refl).
      assert (Htf : hexEquals to from = false).
      { destruct (hexEquals to from) eqn:E; [apply hexEquals_eq in E; congruence|reflexivity]. }
      rewrite Htf, (proj2 (hexEquals_eq from from) eq_refl).
      destruct (addShip_ships ht sh (playerId sh)) as (_ & _ & ->). rewrite String.eqb_refl.
      rewrite Hfrom, Hto. split; [exact Hperm|]. split; [reflexivity|].
      intros p c Hpc. rewrite Hsh.
      destruct (hexEquals to c) eqn:Etc.
      * apply hexEquals_eq in Etc. subst c. destruct Hpc as [Hp|[_ Hc]]; [|contradiction].
        destruct (addShip_ships ht sh p) as (_ & _ & ->).
        destruct (String.eqb_spec p (playerId sh)); [contradiction|]. rewrite Hto. reflexivity.
      * destruct (hexEquals from c) eqn:Efc; [|reflexivity].
        apply hexEquals_eq in Efc. subst c. destruct Hpc as [Hp|[Hc _]]; [|contradiction].
        rewrite (Hoth p Hp), Hfrom. reflexivity.
Qed.

(** [Hex.removeShip] on a hex with one ship-map entry per player: either the
    ship is not there and the hex is returned unchanged with [false], or one
    copy of it leaves its owner's list (the others keep their order), the
    other players' lists are unchanged and the map still has one entry per
    player. *)
Theorem removeShip_spec h sh :
  NoDup (getPlayerIds h) ->
  (removeShip h sh = (h, false) /\ ~ In sh (getPlayerShips h (playerId sh))) \/
  (exists h', removeShip h sh = (h', true) /\ coord h' = coord h /\ island h' = island h /\
     NoDup (getPlayerIds h') /\
     Permutation (getPlayerShips h (playerId sh)) (sh :: getPlayerShips h' (playerId sh)) /\
     forall p, p <> playerId sh -> getPlayerShips h' p = getPlayerShips h p).
Proof.
  exact (removeShip_cases h sh).
Qed.

End ShipProofs.


Module PlaceProofs.
Import HexMath HexConstants BoardModel HexControl Specs PathProofs ControlProofs ShipProofs.

(** [Board.placeShip]: succeeds exactly on a cell of the board, appends the
    ship to its player's ships there and changes nothing else. *)
Theorem placeShip_spec b c sh :
  let '(b', placed) := placeShip b c sh in
  (placed = true <-> exists h, getHex b c = Some h) /\
  (placed = false -> b' = b) /\
  (placed = true ->
     ships_at b' (playerId sh) c = ships_at b (playerId sh) c ++ [sh] /\
     forall p c', (p <> playerId sh \/ c' <> c) -> ships_at b' p c' = ships_at b p c').
Proof.
  unfold placeShip. destruct (getHex b c) as [h|] eqn:Eh.
  - assert (Hc : coord h = c) by exact (getHex_coord _ _ _ Eh).
    destruct (addShip_ships h sh (playerId sh)) as (Hc' & _ & _).
    assert (Hb : getHex b (coord (addShip h sh)) = Some h) by (rewrite Hc', Hc; exact Eh).
    split; [split; [intros _; exists h; reflexivity|reflexivity]|]. split; [discriminate|intros _].
    rewrite !(getHex_setHex_ships _ _ _ _ _ Hb). rewrite Hc', Hc.
    rewrite (proj2 (hexEquals_eq c c) eq_refl).
    destruct (addShip_ships h sh (playerId sh)) as (_ & _ & ->). rewrite String.eqb_refl.
    split; [unfold ships_at; rewrite Eh; reflexivity|].
    intros p c' Hpc. rewrite (getHex_setHex_ships _ _ _ _ _ Hb), Hc', Hc.
    destruct (hexEquals c c') eqn:E; [|reflexivity].
    apply hexEquals_eq in E. subst c'. destruct Hpc as [Hp|]; [|contradiction].
    destruct (addShip_ships h sh p) as (_ & _ & ->).
    destruct (String.eqb_spec p (playerId sh)); [contradiction|]. unfold ships_at. rewrite Eh. reflexivity.
  - split; [split; [discriminate|intros [h H]; discriminate]|]. split; [reflexivity|discriminate].
Qed.

(** [Board.placeIsland] then [Board.getIslandAt]: the island is found at its
    cell, is appended to the islands, and no other cell and no ship
    changes; off the board nothing changes. *)
Theorem placeIsland_getIslandAt b isl :
  let '(b', placed) := placeIsland b isl in
  (placed = true <-> exists h, getHex b (hexCoord isl) = Some h) /\
  (placed = false -> b' = b) /\
  (placed = true ->
     getIslandAt b' (hexCoord isl) = Some isl /\ islands b' = islands b ++ [isl] /\
     (forall c, c <> hexCoord isl -> getIslandAt b' c = getIslandAt b c) /\
     forall p c, ships_at b' p c = ships_at b p c).
Proof.
  unfold placeIsland. destruct (getHex b (hexCoord isl)) as [h|] eqn:Eh.
  2: { split; [split; [discriminate|intros [h H]; discriminate]|]. split; [reflexivity|discriminate]. }
  assert (Hc : coord h = hexCoord isl) by exact (getHex_coord _ _ _ Eh).
  set (h' := mkHex (coord h) (ships h) (Some isl)).
  assert (Hb : getHex b (coord h') = Some h) by (cbn; rewrite Hc; exact Eh).
  assert (Hg : forall c, getHex (mkBoard (hexes (setHex b h')) (islands (setHex b h') ++ [isl])) c =
                         getHex (setHex b h') c) by reflexivity.
  split; [split; [intros _; exists h; reflexivity|reflexivity]|]. split; [discriminate|intros _].
  unfold getIslandAt, ships_at. rewrite !Hg. split; [|split; [reflexivity|split]].
  - rewrite (getHex_setHex _ _ _ _ Hb). cbn [coord h']. rewrite Hc, (proj2 (hexEquals_eq _ _) eq_refl). reflexivity.
  - intros c Hne. rewrite Hg, (getHex_setHex _ _ _ _ Hb). cbn [coord h']. rewrite Hc.
    destruct (hexEquals (hexCoord isl) c) eqn:E; [apply hexEquals_eq in E; congruence|reflexivity].
  - intros p c. rewrite Hg, (getHex_setHex _ _ _ _ Hb). cbn [coord h'].
    destruct (hexEquals (coord h) c) eqn:E; [|reflexivity].
    apply hexEquals_eq in E. rewrite Hc in E. subst c. rewrite Eh. reflexivity.
Qed.

Lemma influence_pos sh : 0 < influence sh.
Proof. unfold influence, influence_of. destruct (type sh); lia. Qed.

Lemma fold_influence_ge l acc :
  acc <= fold_left (fun total sh => total + influence sh) l acc.
Proof.
  revert acc. induction l as [|x l IH]; intros acc; cbn [fold_left]; [lia|].
  specialize (IH (acc + influence x)). pose proof (influence_pos x). lia.
Qed.

Lemma getInfluence_pos h p :
  getPlayerShips h p <> [] -> 0 < getInfluence h p.
Proof.
  unfold getInfluence. destruct (getPlayerShips h p) as [|x l]; [congruence|intros _].
  cbn [fold_left]. pose proof (fold_influence_ge l (0 + influence x)). pose proof (influence_pos x). lia.
Qed.

Lemma has_galleon_iff l :
  existsb (fun sh => ShipType_eqb (type sh) GALLEON) l = true <->
  exists sh, In sh l /\ type sh = GALLEON.
Proof.
  rewrite existsb_exists. split; intros [sh [Hin Ht]]; exists sh; split; try exact Hin.
  - destruct (type sh); [discriminate|reflexivity|discriminate].
  - rewrite Ht. reflexivity.
Qed.

(** The two checks the Treasure Map and Island Raid validators share: a
    galleon of the player on the hex, and control of the hex. *)
Lemma galleon_control_iff h pid :
  NoDup (getPlayerIds h) ->
  (existsb (fun sh => ShipType_eqb (type sh) GALLEON) (getPlayerShips h pid) &&
   match getController h with Some c => String.eqb c pid | None => false end = true <->
   (exists sh, In sh (getPlayerShips h pid) /\ type sh = GALLEON) /\
   forall p', In p' (getPlayerIds h) -> p' <> pid -> getInfluence h p' < getInfluence h pid).
Proof.
  intros Hnd. rewrite andb_true_iff, has_galleon_iff.
  assert (Hc : match getController h with Some c => String.eqb c pid | None => false end = true <->
               getController h = Some pid).
  { destruct (getController h) as [c|]; [rewrite String.eqb_eq; split; congruence|split; discriminate]. }
  rewrite Hc, (getController_iff h pid Hnd).
  split.
  - intros [Hg [_ Hm]]. split; assumption.
  - intros [Hg Hm]. split; [exact Hg|]. split; [|exact Hm].
    apply getInfluence_pos. destruct Hg as [sh [Hin _]]. intros E. rewrite E in Hin. contradiction.
Qed.

End PlaceProofs.

Module ClaimValidatorProofs.
Import HexMath HexConstants BoardModel HexControl Action ChartValidator ClaimValidator
       Specs ControlProofs PlaceProofs.

(** [canClaimTreasureMap]: a Treasure Map can be claimed exactly when its
    target cell is on the board, the player has a galleon there, and every
    other player there has strictly less influence. *)
Theorem canClaimTreasureMap_spec targetHex pid b :
  (forall h, getHex b targetHex = Some h -> NoDup (getPlayerIds h)) ->
  valid (canClaimTreasureMap targetHex pid b) = true <->
  exists h, getHex b targetHex = Some h /\
    (exists sh, In sh (getPlayerShips h pid) /\ type sh = GALLEON) /\
    forall p', In p' (getPlayerIds h) -> p' <> pid -> getInfluence h p' < getInfluence h pid.
Proof.
  intros Hnd. unfold canClaimTreasureMap.
  destruct (getHex b targetHex) as [h|] eqn:Eh.
  2: { split; [discriminate|intros [h [H _]]; discriminate]. }
  pose proof (galleon_control_iff h pid (Hnd h eq_refl)) as Hgc.
  rewrite andb_true_iff in Hgc.
  split.
  - intros Hv. exists h. split; [reflexivity|].
    destruct (existsb (fun sh => ShipType_eqb (type sh) GALLEON) (getPlayerShips h pid)) eqn:E1; cbn [negb] in Hv; [|discriminate].
    destruct (match getController h with Some c => String.eqb c pid | None => false end) eqn:E2; cbn [negb] in Hv; [|discriminate].
    exact (proj1 Hgc (conj eq_refl eq_refl)).
  - intros (h' & Hh & Hgm). injection Hh as <-.
    destruct (proj2 Hgc Hgm) as [-> ->]. reflexivity.
Qed.

(** [canClaimIslandRaid]: an Island Raid can be claimed exactly when its
    island is placed on a cell of the board where the player has a galleon
    and strictly more influence than every other player, and the chart holds
    at least 2 doubloons. *)
Theorem canClaimIslandRaid_spec targetIsland doubloonsOnChart pid b :
  (forall isl h, find_island b targetIsland = Some isl -> getHex b (hexCoord isl) = Some h ->
                 NoDup (getPlayerIds h)) ->
  valid (canClaimIslandRaid targetIsland doubloonsOnChart pid b) = true <->
  exists isl h, find_island b targetIsland = Some isl /\ getHex b (hexCoord isl) = Some h /\
    (exists sh, In sh (getPlayerShips h pid) /\ type sh = GALLEON) /\
    (forall p', In p' (getPlayerIds h) -> p' <> pid -> getInfluence h p' < getInfluence h pid) /\
    2 <= doubloonsOnChart.
Proof.
  intros Hnd. unfold canClaimIslandRaid.
  destruct (find_island b targetIsland) as [isl|] eqn:Ei.
  2: { split; [discriminate|intros (isl & h & H & _); discriminate]. }
  destruct (getHex b (hexCoord isl)) as [h|] eqn:Eh.
  2: { split; [discriminate|intros (isl' & h & H & H' & _); injection H as <-; congruence]. }
  pose proof (galleon_control_iff h pid (Hnd isl h eq_refl Eh)) as Hgc.
  rewrite andb_true_iff in Hgc.
  split.
  - intros Hv. exists isl, h. split; [reflexivity|]. split; [exact Eh|].
    destruct (existsb (fun sh => ShipType_eqb (type sh) GALLEON) (getPlayerShips h pid)) eqn:E1; cbn [negb] in Hv; [|discriminate].
    destruct (match getController h with Some c => String.eqb c pid | None => false end) eqn:E2; cbn [negb] in Hv; [|discriminate].
    destruct (Z.ltb_spec doubloonsOnChart 2); [discriminate|].
    destruct (proj1 Hgc (conj eq_refl eq_refl)) as [Hg Hm]. auto.
  - intros (isl' & h' & Hi & Hh & Hg & Hm & H2). injection Hi as <-. rewrite Eh in Hh. injection Hh as <-.
    destruct (proj2 Hgc (conj Hg Hm)) as [-> ->]. cbn [negb].
    destruct (Z.ltb_spec doubloonsOnChart 2); [lia|reflexivity].
Qed.

End ClaimValidatorProofs.


Module PlayerProofs.
Import HexMath BoardModel Charts PlayerModel PlayerMore ShipProofs Invariants.

Lemma gainNotoriety_captainCount_ge p amount : captainCount p <= captainCount (gainNotoriety p amount).
Proof.
  unfold gainNotoriety, CAPTAIN_UNLOCK_THRESHOLDS. cbn [fold_left].
  repeat match goal with |- context [if ?c then _ else _] => destruct c end; cbn; lia.
Qed.

Lemma gainNotoriety_placedCaptains p amount : placedCaptains (gainNotoriety p amount) = placedCaptains p.
Proof.
  unfold gainNotoriety, CAPTAIN_UNLOCK_THRESHOLDS. cbn [fold_left].
  repeat match goal with |- context [if ?c then _ else _] => destruct c end; reflexivity.
Qed.

(** Placing a captain succeeds exactly when one is left to place; removing,
    resetting and notoriety gains keep the placed captains within the
    slots. *)
Theorem captains_invariant p action amount :
  captains_ok p ->
  snd (placeCaptain p action) = hasUnplacedCaptains p /\
  captains_ok (fst (placeCaptain p action)) /\
  captains_ok (fst (removeCaptain p)) /\
  captains_ok (resetCaptains p) /\
  captains_ok (gainNotoriety p amount).
Proof.
  unfold captains_ok, placeCaptain, hasUnplacedCaptains. intros H.
  split; [destruct (Z.leb_spec (captainCount p) (Z.of_nat (List.length (placedCaptains p))));
          destruct (Z.ltb_spec (Z.of_nat (List.length (placedCaptains p))) (captainCount p)); cbn; lia|].
  split.
  { destruct (Z.leb_spec (captainCount p) (Z.of_nat (List.length (placedCaptains p)))); cbn; [lia|].
    rewrite length_app. cbn. lia. }
  split.
  { unfold removeCaptain. pose proof (f_equal (@List.length _) (rev_involutive (placedCaptains p))) as Hl.
    destruct (rev (placedCaptains p)) as [|a rest]; cbn; [lia|].
    cbn in Hl. rewrite length_app, !length_rev in Hl. cbn in Hl. rewrite length_rev. lia. }
  split; [cbn; lia|].
  rewrite gainNotoriety_placedCaptains. pose proof (gainNotoriety_captainCount_ge p amount). lia.
Qed.

Lemma set_placedCaptains_same p : set_placedCaptains p (placedCaptains p) = p.
Proof. destruct p; reflexivity. Qed.

Lemma set_charts_same p : set_charts p (charts p) = p.
Proof. destruct p; reflexivity. Qed.

(** [removeCaptain] pops what [placeCaptain] pushed. *)
Theorem removeCaptain_placeCaptain p action :
  hasUnplacedCaptains p = true ->
  removeCaptain (fst (placeCaptain p action)) = (p, Some action).
Proof.
  unfold hasUnplacedCaptains, placeCaptain, removeCaptain. intros H.
  destruct (Z.leb_spec (captainCount p) (Z.of_nat (List.length (placedCaptains p))));
    [apply Z.ltb_lt in H; lia|].
  cbn [fst placedCaptains set_placedCaptains]. rewrite rev_app_distr. cbn [rev app].
  rewrite rev_involutive. unfold set_placedCaptains; destruct p; reflexivity.
Qed.

Lemma findIndex_chart_splice cid l :
  match findIndex (fun c => String.eqb (chart_id c) cid) l with
  | None => existsb (fun c => String.eqb (chart_id c) cid) l = false
  | Some i => exists c, chart_id c = cid /\ Permutation l (c :: splice1 l i) /\
              existsb (fun c => String.eqb (chart_id c) cid) l = true
  end.
Proof.
  induction l as [|x l IH]; cbn [findIndex existsb]; [reflexivity|].
  destruct (String.eqb_spec (chart_id x) cid).
  - exists x. split; [assumption|]. split; reflexivity.
  - destruct (findIndex (fun c => String.eqb (chart_id c) cid) l) as [i|]; cbn [option_map splice1 orb].
    + destruct IH as (c & Hc & Hp & He). exists c. split; [exact Hc|]. split; [|exact He].
      rewrite Hp at 1. apply perm_swap.
    + exact IH.
Qed.

(** [removeChart] succeeds exactly when [hasChart] holds, and then takes one
    chart with that id out of the hand, touching nothing else of the player;
    otherwise the player is unchanged. *)
Theorem removeChart_spec p cid :
  let '(p', removed) := removeChart p cid in
  removed = hasChart p cid /\
  (removed = false -> p' = p) /\
  (removed = true -> exists c, chart_id c = cid /\ Permutation (charts p) (c :: charts p') /\
                               p' = set_charts p (charts p')).
Proof.
  unfold removeChart, hasChart. pose proof (findIndex_chart_splice cid (charts p)) as H.
  destruct (findIndex (fun c => String.eqb (chart_id c) cid) (charts p)) as [i|].
  - destruct H as (c & Hc & Hp & He). rewrite He.
    split; [reflexivity|]. split; [discriminate|intros _].
    exists c. split; [exact Hc|]. split; [exact Hp|]. destruct p; reflexivity.
  - rewrite H. split; [reflexivity|]. split; [reflexivity|discriminate].
Qed.

Lemma splice1_app_length {A} (l : list A) x : splice1 (l ++ [x]) (List.length l) = l.
Proof. induction l as [|y l IH]; cbn; [reflexivity|rewrite IH; reflexivity]. Qed.

(** [addChart] then [removeChart] of the same id gives the player back, when
    no chart of the hand has that id. *)
Theorem removeChart_addChart p c :
  hasChart p (chart_id c) = false ->
  removeChart (addChart p c) (chart_id c) = (p, true).
Proof.
  unfold hasChart, removeChart, addChart. intros H.
  cbn [charts set_charts].
  assert (Hf : findIndex (fun c0 => String.eqb (chart_id c0) (chart_id c)) (charts p ++ [c]) =
               Some (List.length (charts p))).
  { induction (charts p) as [|x l IH]; cbn [app findIndex]; [rewrite String.eqb_refl; reflexivity|].
    cbn [existsb] in H. apply orb_false_iff in H. destruct H as [H1 H2]. rewrite H1, IH by exact H2.
    reflexivity. }
  rewrite Hf. cbn [charts set_charts]. rewrite splice1_app_length. destruct p; reflexivity.
Qed.

(** [spendDoubloons] succeeds exactly when the player has the amount; it
    then never leaves a negative balance, and [gainDoubloons] of the same
    amount undoes it; a failed spend changes nothing. *)
Theorem spendDoubloons_spec p amount :
  let '(p', spent) := spendDoubloons p amount in
  spent = (amount <=? doubloons p) /\
  (spent = false -> p' = p) /\
  (spent = true -> 0 <= doubloons p' /\ gainDoubloons p' amount = p).
Proof.
  unfold spendDoubloons. destruct (Z.ltb_spec (doubloons p) amount); destruct (Z.leb_spec amount (doubloons p)); try lia.
  - split; [reflexivity|]. split; [reflexivity|discriminate].
  - split; [reflexivity|]. split; [discriminate|intros _]. cbn. split; [lia|].
    unfold gainDoubloons, set_doubloons; cbn. destruct p; cbn. f_equal. lia.
Qed.

(** [spendShips] succeeds exactly when the player has that many ships of the
    kind; it then never leaves a negative count, leaves the other kind alone,
    and [returnShips] of the same count undoes it; a failed spend changes
    nothing. *)
Theorem spendShips_spec p k count :
  let '(p', spent) := spendShips p k count in
  spent = hasShips p k count /\
  (spent = false -> p' = p) /\
  (spent = true -> 0 <= inv_get (ships p') k /\ returnShips p' k count = p /\
                   forall k', k' <> k -> inv_get (ships p') k' = inv_get (ships p) k').
Proof.
  unfold spendShips, hasShips. destruct (Z.leb_spec count (inv_get (ships p) k)); cbn [negb].
  - split; [reflexivity|]. split; [discriminate|intros _].
    destruct p as [i n d cc [sl ga] pl pc ch]; destruct k; cbn in *.
    + split; [lia|]. split; [unfold returnShips, set_ships; cbn; do 3 f_equal; lia|].
      intros [|] Hk; [congruence|reflexivity].
    + split; [lia|]. split; [unfold returnShips, set_ships; cbn; do 3 f_equal; lia|].
      intros [|] Hk; [reflexivity|congruence].
  - split; [reflexivity|]. split; [reflexivity|discriminate].
Qed.

End PlayerProofs.


Module DeckProofs.
Import HexMath BoardModel Charts ChartProofs.

Lemma drawLoop_length shuffle (Hlen : forall l, List.length (shuffle l) = List.length l) n :
  forall dp dc dr,
  let '(dp', dc', dr') := drawLoop shuffle n dp dc dr in
  List.length dr' = (List.length dr + Nat.min n (List.length dp + List.length dc))%nat.
Proof.
  induction n as [|n IH]; intros dp dc dr; cbn [drawLoop]; [lia|].
  assert (Hpre : forall dp1 dc1, (List.length dp1 + List.length dc1 = List.length dp + List.length dc)%nat ->
    dp1 <> [] ->
    let '(dp', dc', dr') :=
      (let (chart, drawP2) := pop dp1 in
       drawLoop shuffle n drawP2 dc1 match chart with Some c => dr ++ [c] | None => dr end) in
    List.length dr' = (List.length dr + Nat.min (S n) (List.length dp + List.length dc))%nat).
  { intros dp1 dc1 Hl Hne. pose proof (pop_spec dp1) as Hpop.
    destruct (pop dp1) as [[x|] rest]; [|destruct Hpop; contradiction].
    specialize (IH rest dc1 (dr ++ [x])).
    destruct (drawLoop shuffle n rest dc1 (dr ++ [x])) as [[dp' dc'] dr'].
    rewrite IH, length_app. subst dp1. rewrite length_app in Hl. cbn in Hl.
    rewrite <- Hl. replace (List.length rest + 1 + List.length dc1)%nat with (S (List.length rest + List.length dc1)) by lia.
    cbn [Nat.min List.length]. lia. }
  destruct dp as [|y dp0].
  - destruct dc as [|z dc0]; [cbn -[Nat.min]; rewrite Nat.min_0_r; lia|].
    apply Hpre; [rewrite Hlen; cbn; lia|].
    intros E. apply (f_equal (@List.length _)) in E. rewrite Hlen in E. discriminate.
  - apply Hpre; [reflexivity|discriminate].
Qed.

(** [drawCharts] draws [count] charts, or all the draw and discard piles
    hold when they hold fewer (a negative count draws none), for any
    shuffle that keeps the cards. *)
Theorem drawCharts_count shuffle d count :
  (forall l, Permutation (shuffle l) l) ->
  List.length (snd (drawCharts shuffle d count)) =
  Nat.min (Z.to_nat count) (List.length (drawPile d) + List.length (discardPile d)).
Proof.
  intros Hperm. unfold drawCharts.
  pose proof (drawLoop_length shuffle (fun l => Permutation_length (Hperm l)) (Z.to_nat count)
                (drawPile d) (discardPile d) []) as H.
  destruct (drawLoop shuffle (Z.to_nat count) (drawPile d) (discardPile d) []) as [[dp' dc'] dr'].
  exact H.
Qed.

Lemma drawLoop_enough shuffle n : forall a b dc dr,
  List.length b = n ->
  drawLoop shuffle n (a ++ b) dc dr = (a, dc, dr ++ rev b).
Proof.
  induction n as [|n IH]; intros a b dc dr Hb.
  - destruct b; [|discriminate]. cbn. rewrite !app_nil_r. reflexivity.
  - destruct b as [|y b0] using rev_ind; [discriminate|].
    rewrite length_app in Hb. cbn in Hb.
    cbn [drawLoop]. rewrite app_assoc.
    destruct ((a ++ b0) ++ [y]) eqn:E.
    { apply (f_equal (@List.length _)) in E. rewrite !length_app in E. cbn in E. lia. }
    rewrite <- E. unfold pop. rewrite rev_app_distr. cbn [rev app].
    rewrite rev_involutive, IH by lia. rewrite rev_app_distr, <- app_assoc. reflexivity.
Qed.

(** When the draw pile holds at least [count] charts, [drawCharts] takes the
    last [count] of them (none for a negative count), the back of the pile
    first, and leaves the discard pile alone (no reshuffle). *)
Theorem drawCharts_from_drawPile shuffle d count :
  (Z.to_nat count <= List.length (drawPile d))%nat ->
  drawCharts shuffle d count =
  (mkDeck (firstn (List.length (drawPile d) - Z.to_nat count)%nat (drawPile d)) (discardPile d)
          (activeIslandRaids d) (allIslandRaids d) (playerCount d),
   rev (skipn (List.length (drawPile d) - Z.to_nat count)%nat (drawPile d))).
Proof.
  intros Hle. unfold drawCharts.
  rewrite <- (firstn_skipn (List.length (drawPile d) - Z.to_nat count) (drawPile d)) at 1.
  rewrite drawLoop_enough; [reflexivity|].
  rewrite length_skipn. lia.
Qed.

End DeckProofs.

Module TurnProofs.
Import HexMath BoardModel Charts PlayerModel GameStateModel PlayerMore TurnModel.

Lemma nextTurn_players s : players (gs (nextTurn s)) = players (gs s).
Proof. unfold nextTurn. destruct (windDirection s); reflexivity. Qed.

Lemma nextTurn_wind s : windDirection (nextTurn s) = windDirection s.
Proof. unfold nextTurn. destruct (windDirection s) eqn:E; cbn; rewrite E; reflexivity. Qed.

Lemma nextTurn_index s :
  let n := Z.of_nat (List.length (players (gs s))) in
  0 < n -> 0 <= activePlayerIndex s < n ->
  activePlayerIndex (nextTurn s) =
  match windDirection s with
  | CLOCKWISE => (activePlayerIndex s + 1) mod n
  | COUNTERCLOCKWISE => (activePlayerIndex s - 1) mod n
  end.
Proof.
  intros n Hn Hi. unfold nextTurn. fold n. destruct (windDirection s); cbn [activePlayerIndex set_activePlayerIndex].
  - apply Z.rem_mod_nonneg; lia.
  - rewrite Z.rem_mod_nonneg by lia.
    replace (activePlayerIndex s - 1 + n) with (activePlayerIndex s - 1 + 1 * n) by lia.
    apply Z.mod_add. lia.
Qed.

(** With at least one player and the active index in range, [nextTurn]
    keeps it in range, so there is always an active player; and turning
    back the other way after toggling the wind returns to the same player. *)
Theorem nextTurn_spec s :
  0 < Z.of_nat (List.length (players (gs s))) ->
  0 <= activePlayerIndex s < Z.of_nat (List.length (players (gs s))) ->
  0 <= activePlayerIndex (nextTurn s) < Z.of_nat (List.length (players (gs s))) /\
  (exists p, getActivePlayer (nextTurn s) = Some p) /\
  activePlayerIndex (nextTurn (toggleWindDirection (nextTurn s))) = activePlayerIndex s.
Proof.
  intros Hn Hi.
  assert (Hr : 0 <= activePlayerIndex (nextTurn s) < Z.of_nat (List.length (players (gs s)))).
  { rewrite (nextTurn_index s Hn Hi). destruct (windDirection s); apply Z.mod_pos_bound; lia. }
  split; [exact Hr|]. split.
  - unfold getActivePlayer. destruct (Z.ltb_spec (activePlayerIndex (nextTurn s)) 0); [lia|].
    rewrite nextTurn_players.
    destruct (nth_error (players (gs s)) (Z.to_nat (activePlayerIndex (nextTurn s)))) eqn:E; [eexists; reflexivity|].
    apply nth_error_None in E. lia.
  - set (t := toggleWindDirection (nextTurn s)).
    assert (Ht : players (gs t) = players (gs s)) by (unfold t; cbn; apply nextTurn_players).
    assert (Hit : activePlayerIndex t = activePlayerIndex (nextTurn s)) by reflexivity.
    rewrite (nextTurn_index t); rewrite Ht, ?Hit; [|lia|lia].
    rewrite (nextTurn_index s Hn Hi).
    assert (Hw : windDirection t = match windDirection s with CLOCKWISE => COUNTERCLOCKWISE | COUNTERCLOCKWISE => CLOCKWISE end).
    { unfold t, toggleWindDirection, nextTurn. destruct (windDirection s) eqn:E; cbn; rewrite E; reflexivity. }
    rewrite Hw. set (n := Z.of_nat (List.length (players (gs s)))) in *.
    destruct (windDirection s).
    + rewrite Zminus_mod_idemp_l. replace (activePlayerIndex s + 1 - 1) with (activePlayerIndex s) by lia.
      apply Z.mod_small. lia.
    + rewrite Zplus_mod_idemp_l. replace (activePlayerIndex s - 1 + 1) with (activePlayerIndex s) by lia.
      apply Z.mod_small. lia.
Qed.

(** Going round the table: as many clockwise turns as there are players
    bring the turn back to the same player. *)
Theorem nextTurn_full_round s :
  windDirection s = CLOCKWISE ->
  0 <= activePlayerIndex s < Z.of_nat (List.length (players (gs s))) ->
  activePlayerIndex (Nat.iter (List.length (players (gs s))) nextTurn s) = activePlayerIndex s.
Proof.
  intros Hw Hi. set (N := List.length (players (gs s))) in *.
  assert (H : forall k, players (gs (Nat.iter k nextTurn s)) = players (gs s) /\
                        windDirection (Nat.iter k nextTurn s) = CLOCKWISE /\
                        activePlayerIndex (Nat.iter k nextTurn s) = (activePlayerIndex s + Z.of_nat k) mod Z.of_nat N).
  { induction k as [|k IH].
    - change (Nat.iter 0 nextTurn s) with s. split; [reflexivity|]. split; [exact Hw|].
      rewrite Z.add_0_r. symmetry. apply Z.mod_small. lia.
    - destruct IH as (Hp & Hw' & Hk). change (Nat.iter (S k) nextTurn s) with (nextTurn (Nat.iter k nextTurn s)).
      split; [rewrite nextTurn_players; exact Hp|].
      split; [rewrite nextTurn_wind; exact Hw'|].
      rewrite (nextTurn_index (Nat.iter k nextTurn s)); rewrite Hp, ?Hw', ?Hk; fold N;
        [|lia|apply Z.mod_pos_bound; lia].
      rewrite Zplus_mod_idemp_l. f_equal. lia. }
  destruct (H N) as (_ & _ & ->).
  rewrite Z.add_mod by lia. rewrite Z.mod_same by lia. rewrite Z.add_0_r, Z.mod_mod by lia.
  apply Z.mod_small. lia.
Qed.

Lemma determineWinner_loop_some ps w :
  In w ps -> -1 < getFinalScore w ->
  exists best, snd (determineWinner_loop ps) = Some best /\ In best ps.
Proof.
  unfold determineWinner_loop.
  assert (G : forall ps' acc, (forall b, snd acc = Some b -> In b ps) ->
           (forall x, In x ps' -> In x ps) ->
           snd acc <> None \/ (exists x, In x ps' /\ fst acc < getFinalScore x) ->
           exists best, snd (fold_left (fun acc player =>
               let '(highestScore, w) := acc in
               let score := getFinalScore player in
               if highestScore <? score then (score, Some player) else (highestScore, w)) ps' acc) = Some best /\ In best ps).
  { induction ps' as [|x ps' IH]; intros [hs wo] Hb Hsub Hex; cbn [fold_left]; cbn [fst snd] in Hb, Hex.
    - destruct Hex as [Hne|[x [[] _]]]. destruct wo as [b|]; [|contradiction].
      exists b. split; [reflexivity|]. apply Hb. reflexivity.
    - destruct (Z.ltb_spec hs (getFinalScore x)).
      + apply IH; cbn [fst snd]; [|intros y Hy; apply Hsub; right; exact Hy|left; discriminate].
        intros b Hb'. injection Hb' as <-. apply Hsub. left. reflexivity.
      + apply IH; cbn [fst snd]; [exact Hb|intros y Hy; apply Hsub; right; exact Hy|].
        destruct Hex as [Hne|[y [[<-|Hy] Hs]]]; [left; exact Hne|lia|right; exists y; auto]. }
  intros Hw Hs. apply (G ps (-1, None)); cbn [fst snd]; [discriminate|auto|right; exists w; auto].
Qed.

(** [nextPhase]: the round counter moves up by at most one, and only when a
    pirate phase ends without a winner, which starts a new round with every
    player's captains back in hand; the game is over only after a pirate
    phase in which a player reached the winning notoriety, and then stays
    over. *)
Theorem nextPhase_spec s :
  currentRound s <= currentRound (nextPhase s) <= currentRound s + 1 /\
  (currentPhase s = GAME_OVER -> nextPhase s = s) /\
  (currentPhase (nextPhase s) = GAME_OVER -> currentPhase s <> GAME_OVER ->
     currentPhase s = PIRATE /\ existsb hasWon (players (gs s)) = true /\
     gameOver (gs (nextPhase s)) = true /\ players (gs (nextPhase s)) = players (gs s)) /\
  (currentRound (nextPhase s) = currentRound s + 1 ->
     currentPhase s = PIRATE /\ currentPhase (nextPhase s) = PLACE /\
     existsb hasWon (players (gs s)) = false /\
     map resetCaptains (players (gs s)) = players (gs (nextPhase s)) /\
     Forall (fun p => placedCaptains p = []) (players (gs (nextPhase s)))).
Proof.
  unfold nextPhase. destruct (currentPhase s) eqn:Eph; cbn [currentRound currentPhase gs];
    try (split; [lia|]; split; [discriminate|]; split; [discriminate|intros; lia]).
  - unfold checkGameEnd. destruct (existsb hasWon (players (gs s))) eqn:Ew; cbn [currentRound currentPhase gs].
    + split; [lia|]. split; [discriminate|]. split; [|intros; lia].
      intros _ _. split; [reflexivity|]. split; [reflexivity|]. split; reflexivity.
    + split; [lia|]. split; [discriminate|]. split; [discriminate|intros _].
      split; [reflexivity|]. split; [reflexivity|]. split; [reflexivity|]. split; [reflexivity|].
      cbn. apply Forall_forall. intros p Hp. apply in_map_iff in Hp. destruct Hp as [p0 [<- _]]. reflexivity.
  - split; [lia|]. split; [intros _; destruct s; reflexivity|]. split; [intros _ H; contradiction|].
    intros; lia.
Qed.

(** When a pirate phase ends the game and no player is in debt, a winner is
    recorded, and it is one of the players. *)
Theorem nextPhase_game_over_winner s :
  currentPhase s = PIRATE -> existsb hasWon (players (gs s)) = true ->
  Forall (fun p => 0 <= doubloons p) (players (gs s)) ->
  exists w, winner (gs (nextPhase s)) = Some w /\ In w (players (gs s)).
Proof.
  intros Hph Hw Hd. unfold nextPhase. rewrite Hph. unfold checkGameEnd. rewrite Hw.
  cbn [gs winner determineWinner set_gameOver players].
  apply existsb_exists in Hw. destruct Hw as [w [Hin Hwon]].
  apply (determineWinner_loop_some _ w Hin).
  rewrite Forall_forall in Hd. specialize (Hd w Hin).
  unfold hasWon, WINNING_NOTORIETY in Hwon. apply Z.leb_le in Hwon. unfold getFinalScore. lia.
Qed.

End TurnProofs.


Module ClaimProofs.
Import HexMath BoardModel Charts PlayerModel GameStateModel Action ChartValidator
       PlayerMore DeckMore ClaimValidator ClaimChartAction ChartProofs UnlockProofs.

Lemma find_splice {A} (f : A -> bool) l c :
  find f l = Some c -> exists i, findIndex f l = Some i /\ Permutation l (c :: splice1 l i).
Proof.
  induction l as [|x l IH]; cbn [find findIndex]; [discriminate|].
  destruct (f x).
  - intros H. injection H as <-. exists O. split; reflexivity.
  - intros H. destruct (IH H) as [i [Hi Hp]]. exists (S i). rewrite Hi. split; [reflexivity|].
    cbn [splice1]. rewrite Hp at 1. apply perm_swap.
Qed.

Lemma gainNotoriety_fields p n :
  id (gainNotoriety p n) = id p /\ doubloons (gainNotoriety p n) = doubloons p /\
  charts (gainNotoriety p n) = charts p.
Proof.
  unfold gainNotoriety, CAPTAIN_UNLOCK_THRESHOLDS. cbn [fold_left].
  repeat match goal with |- context [if ?c then _ else _] => destruct c end; cbn; auto.
Qed.

Lemma getPlayer_if_update st pid (b : bool) f :
  (forall p, id (f p) = id p) ->
  getPlayer (if b then update_player st pid f else st) pid =
  if b then option_map f (getPlayer st pid) else getPlayer st pid.
Proof. intros Hf. destruct b; [apply getPlayer_update_player; exact Hf|reflexivity]. Qed.

Lemma valid_canClaimIslandRaid_doubloons t dc pid b :
  valid (canClaimIslandRaid t dc pid b) = true -> 2 <= dc.
Proof.
  unfold canClaimIslandRaid. destruct (find_island b t); [|discriminate].
  destruct (getHex b _); [|discriminate].
  destruct (negb _); [discriminate|]. destruct (negb _); [discriminate|].
  destruct (Z.ltb_spec dc 2); [discriminate|lia].
Qed.

Lemma calculateSmugglerRouteReward_nonneg A B b : 0 <= calculateSmugglerRouteReward A B b.
Proof. unfold calculateSmugglerRouteReward. destruct (find_island b A), (find_island b B); lia. Qed.

Lemma validate_chart a st p c :
  valid (validate a st) = true ->
  getPlayer st (claim_playerId a) = Some p ->
  find_chart p st (chartId a) = Some c ->
  match body c with
  | IslandRaid _ dc _ => 2 <= dc
  | _ => True
  end.
Proof.
  unfold validate. intros Hv Hp Hc. rewrite Hp, Hc in Hv.
  destruct (valid (validatePlayer CHART (claim_playerId a) st)) eqn:E; cbn [negb] in Hv; [|congruence].
  destruct (body c); [exact I| |exact I].
  exact (valid_canClaimIslandRaid_doubloons _ _ _ _ Hv).
Qed.

Lemma chain_getPlayer st pid p n d f3 :
  getPlayer st pid = Some p -> (forall q, id (f3 q) = id q) ->
  getPlayer (update_player
    (if 0 <? d then update_player (if 0 <? n then update_player st pid (fun p1 => gainNotoriety p1 n) else st)
                                  pid (fun p1 => gainDoubloons p1 d)
     else if 0 <? n then update_player st pid (fun p1 => gainNotoriety p1 n) else st) pid f3) pid =
  Some (f3 (if 0 <? d then gainDoubloons (if 0 <? n then gainNotoriety p n else p) d
            else if 0 <? n then gainNotoriety p n else p)).
Proof.
  intros Hp Hf. rewrite getPlayer_update_player by exact Hf.
  assert (Hn : forall q, id (gainNotoriety q n) = id q) by (intros; apply gainNotoriety_fields).
  destruct (0 <? n), (0 <? d); rewrite ?getPlayer_update_player by (intros; first [reflexivity|apply Hn]);
    rewrite ?getPlayer_update_player by (intros; first [reflexivity|apply Hn]); rewrite Hp; reflexivity.
Qed.

Lemma getPlayer_In st pid p : getPlayer st pid = Some p -> In p (players st).
Proof. unfold getPlayer. intros H. apply find_some in H. apply H. Qed.

(** [ClaimChartAction.execute] on a valid claim of a chart of the player's
    hand: the claim succeeds, the chart leaves the hand and goes on the
    discard pile, the board and the wind token do not change, and the player
    gains one doubloon per player for a Treasure Map, the route length for a
    Smuggler Route, and the chart's doubloons and positive notoriety for an
    Island Raid. *)
Theorem claim_held_chart a st p c :
  valid (validate a st) = true ->
  getPlayer st (claim_playerId a) = Some p ->
  find (fun c => String.eqb (chart_id c) (chartId a)) (charts p) = Some c ->
  exists res st' p', execute a st = Some (res, st') /\ success res = true /\
    getPlayer st' (claim_playerId a) = Some p' /\
    Permutation (charts p) (c :: charts p') /\
    chartDeck st' = discardChart (chartDeck st) c /\
    board st' = board st /\ windTokenHolder st' = windTokenHolder st /\
    (forall t, body c = TreasureMap t ->
       doubloons p' = doubloons p + Z.of_nat (List.length (players st)) /\ notoriety p' = notoriety p) /\
    (forall A B, body c = SmugglerRoute A B ->
       doubloons p' = doubloons p + calculateSmugglerRouteReward A B (board st) /\
       notoriety p' = notoriety p) /\
    (forall t dc nr, body c = IslandRaid t dc nr ->
       doubloons p' = doubloons p + dc /\ notoriety p' = notoriety p + Z.max 0 nr).
Proof.
  intros Hv Hp Hc.
  pose proof (validate_chart a st p c Hv Hp ltac:(unfold find_chart; rewrite Hc; reflexivity)) as Hb.
  set (pid := claim_playerId a) in *.
  set (cid := chartId a) in *.
  destruct (find_splice _ _ _ Hc) as [i [Hi Hperm]].
  assert (Hrm : forall q, charts q = charts p -> removeChart q cid = (set_charts q (splice1 (charts p) i), true)).
  { intros q Hq. unfold removeChart. rewrite Hq, Hi. reflexivity. }
  assert (Hnot : forall q n, id (gainNotoriety q n) = id q) by (intros; apply gainNotoriety_fields).
  assert (Hdbl : forall q n, id (gainDoubloons q n) = id q) by reflexivity.
  assert (Hrc : forall q, id (fst (removeChart q cid)) = id q).
  { intros q. unfold removeChart. destruct (findIndex (fun c => String.eqb (chart_id c) cid) (charts q)); reflexivity. }
  unfold execute. rewrite Hv. cbn [negb]. fold pid. rewrite Hp. fold cid. rewrite Hc.
  cbv iota beta zeta.
  assert (Hch : forall n d, charts (if 0 <? d then gainDoubloons (if 0 <? n then gainNotoriety p n else p) d
                                    else if 0 <? n then gainNotoriety p n else p) = charts p).
  { intros n d. destruct (gainNotoriety_fields p n) as (_ & _ & Hc').
    destruct (0 <? n), (0 <? d); cbn; auto. }
  destruct (body c) as [t|t dc nr|A B] eqn:Eb; cbn [negb];
  (eexists _, _, _; split; [reflexivity|]; cbn [success createSuccessResult]; split; [reflexivity|];
   split; [change (getPlayer (set_deck ?X ?D) pid) with (getPlayer X pid);
           rewrite (chain_getPlayer _ _ _ _ _ _ Hp Hrc); reflexivity|]).
  all: rewrite (Hrm _ (Hch _ _)); cbn [fst charts set_charts].
  all: split; [exact Hperm|].
  all: split; [repeat (match goal with |- context [if ?b then _ else _] => destruct b end); reflexivity|].
  all: split; [repeat (match goal with |- context [if ?b then _ else _] => destruct b end); reflexivity|].
  all: split; [repeat (match goal with |- context [if ?b then _ else _] => destruct b end); reflexivity|].
  all: cbn [set_charts doubloons notoriety].
  - assert (Hlen : 0 < Z.of_nat (List.length (players st))).
    { pose proof (getPlayer_In _ _ _ Hp) as Hin. destruct (players st); [contradiction|cbn [List.length]; lia]. }
    rewrite (proj2 (Z.ltb_lt _ _) Hlen). cbn [Z.ltb Z.compare].
    split; [intros _ _; cbn; split; reflexivity|].
    split; intros; discriminate.
  - split; [intros; discriminate|]. split; [intros; discriminate|].
    intros t' dc' nr' He. injection He as <- <- <-.
    rewrite (proj2 (Z.ltb_lt 0 dc) ltac:(lia)). destruct (gainNotoriety_fields p nr) as (_ & Hd & _).
    destruct (Z.ltb_spec 0 nr); cbn [gainDoubloons set_doubloons doubloons notoriety];
      rewrite ?Hd, ?gainNotoriety_notoriety; lia.
  - split; [intros; discriminate|]. split; [|intros; discriminate].
    intros A' B' He. injection He as <- <-.
    pose proof (calculateSmugglerRouteReward_nonneg A B (board st)).
    destruct (Z.ltb_spec 0 (calculateSmugglerRouteReward A B (board st))); cbn; split; lia.
Qed.

(** [ClaimChartAction.execute] on a valid claim of an active Island Raid
    (not a chart of the hand): the claim succeeds, the raid leaves the active
    raids and goes to no pile, the hand and the board do not change, and the
    player gains the chart's doubloons (at least 2) and its notoriety when
    positive. *)
Theorem claim_island_raid a st p c t dc nr :
  valid (validate a st) = true ->
  getPlayer st (claim_playerId a) = Some p ->
  find (fun c => String.eqb (chart_id c) (chartId a)) (charts p) = None ->
  find (fun r => String.eqb (chart_id r) (chartId a)) (activeIslandRaids (chartDeck st)) = Some c ->
  body c = IslandRaid t dc nr ->
  exists res st' p', execute a st = Some (res, st') /\ success res = true /\
    getPlayer st' (claim_playerId a) = Some p' /\ charts p' = charts p /\
    2 <= dc /\ doubloons p' = doubloons p + dc /\ notoriety p' = notoriety p + Z.max 0 nr /\
    Permutation (activeIslandRaids (chartDeck st)) (c :: activeIslandRaids (chartDeck st')) /\
    drawPile (chartDeck st') = drawPile (chartDeck st) /\
    discardPile (chartDeck st') = discardPile (chartDeck st) /\
    board st' = board st.
Proof.
  intros Hv Hp Hh Hc Eb.
  pose proof (validate_chart a st p c Hv Hp ltac:(unfold find_chart; rewrite Hh, Hc; reflexivity)) as Hb.
  rewrite Eb in Hb.
  set (pid := claim_playerId a) in *.
  set (cid := chartId a) in *.
  destruct (find_splice _ _ _ Hc) as [i [Hi Hperm]].
  unfold execute. rewrite Hv. cbn [negb]. fold pid. rewrite Hp. fold cid. rewrite Hh, Hc.
  cbv iota beta zeta. rewrite Eb. cbn [negb].
  rewrite (proj2 (Z.ltb_lt 0 dc) ltac:(lia)).
  set (st2 := update_player (if 0 <? nr then update_player st pid (fun p1 => gainNotoriety p1 nr) else st)
                            pid (fun p1 => gainDoubloons p1 dc)).
  assert (Hd2 : chartDeck st2 = chartDeck st /\ board st2 = board st).
  { unfold st2. destruct (0 <? nr); split; reflexivity. }
  destruct Hd2 as [Hd2 Hb2].
  eexists _, _, (gainDoubloons (if 0 <? nr then gainNotoriety p nr else p) dc).
  split; [reflexivity|]. cbn [success createSuccessResult]. split; [reflexivity|].
  split.
  { change (getPlayer (set_deck st2 ?D) pid) with (getPlayer st2 pid). unfold st2.
    rewrite getPlayer_update_player by reflexivity.
    rewrite getPlayer_if_update by (intros; apply gainNotoriety_fields). rewrite Hp.
    destruct (0 <? nr); reflexivity. }
  destruct (gainNotoriety_fields p nr) as (_ & Hd & Hch).
  split; [destruct (0 <? nr); cbn [gainDoubloons set_doubloons charts]; [exact Hch|reflexivity]|].
  split; [exact Hb|].
  split; [destruct (Z.ltb_spec 0 nr); cbn [gainDoubloons set_doubloons doubloons]; rewrite ?Hd; lia|].
  split; [destruct (Z.ltb_spec 0 nr); cbn [gainDoubloons set_doubloons notoriety]; rewrite ?gainNotoriety_notoriety; lia|].
  cbn [chartDeck set_deck board]. rewrite Hd2, Hb2. unfold removeIslandRaid. rewrite Hi. cbn.
  split; [exact Hperm|]. repeat split.
Qed.

End ClaimProofs.


Module ChartActionProofs.
Import HexMath BoardModel Charts PlayerModel GameStateModel Action ChartAction ChartProofs.

Lemma fold_addChart l : forall p, fold_left addChart l p = set_charts p (charts p ++ l).
Proof.
  induction l as [|x l IH]; intros p; cbn [fold_left].
  - rewrite app_nil_r. destruct p; reflexivity.
  - rewrite IH. unfold addChart, set_charts. cbn. rewrite <- app_assoc. reflexivity.
Qed.

Lemma validatePlayer_update st pid f :
  (forall p, id (f p) = id p) -> (forall p, placedCaptains (f p) = placedCaptains p) ->
  validatePlayer CHART pid (update_player st pid f) = validatePlayer CHART pid st.
Proof.
  intros Hid Hpc. unfold validatePlayer. rewrite getPlayer_update_player by exact Hid.
  destruct (getPlayer st pid); cbn [option_map]; [rewrite Hpc|]; reflexivity.
Qed.

(** A Chart action built with a selection draws fresh charts and completes
    in one step: the selected ones among them join the hand, the others go on
    the discard pile, the player takes the Wind token, and the bribe the
    validation checked for is never paid. *)
Theorem chart_selection_fresh shuffle a st p :
  valid (validate a st) = true ->
  selectedChartIds a <> [] -> drawnCharts a = None ->
  getPlayer st (chart_playerId a) = Some p ->
  let '(res, st', a') := execute shuffle a st in
  let '(deck', drawn) := drawCharts shuffle (chartDeck st) (if drawExtra a then 3 else 2) in
  let selected c := existsb (String.eqb (chart_id c)) (selectedChartIds a) in
  success res = true /\ a' = a /\
  (exists p', getPlayer st' (chart_playerId a) = Some p' /\ doubloons p' = doubloons p /\
              charts p' = charts p ++ filter selected drawn) /\
  drawPile (chartDeck st') = drawPile deck' /\
  discardPile (chartDeck st') = discardPile deck' ++ filter (fun c => negb (selected c)) drawn /\
  windTokenHolder st' = Some (chart_playerId a) /\ board st' = board st.
Proof.
  intros Hv Hsel Hdr Hp. unfold execute. rewrite Hv. cbn [negb].
  destruct (selectedChartIds a) as [|s0 sel] eqn:Es; [contradiction|]. rewrite Hdr.
  destruct (drawCharts shuffle (chartDeck st) (if drawExtra a then 3 else 2)) as [deck' drawn] eqn:Ed.
  cbn [success createSuccessResult]. split; [reflexivity|]. split; [reflexivity|].
  split.
  - eexists. split.
    + change (getPlayer (giveWindToken ?X ?i) ?q) with (getPlayer X q).
      change (getPlayer (set_deck ?X ?D) ?q) with (getPlayer X q).
      rewrite getPlayer_update_player by (intros; rewrite fold_addChart; reflexivity).
      change (getPlayer (set_deck ?X ?D) ?q) with (getPlayer X q).
      rewrite Hp. reflexivity.
    + rewrite fold_addChart. split; reflexivity.
  - split; [reflexivity|]. split; [reflexivity|]. split; reflexivity.
Qed.

(** Executing the same Chart action object a second time, after the first
    step drew charts and paid the bribe: the second validation asks for the
    bribe again, against the already reduced doubloons; when it passes, the
    action completes with none of the drawn charts kept (the object's
    selection is still empty), all of them discarded, the Wind token taken,
    and the bribe not paid a second time. *)
Theorem chart_execute_twice shuffle a st p :
  valid (validate a st) = true ->
  selectedChartIds a = [] -> drawnCharts a = None ->
  getPlayer st (chart_playerId a) = Some p ->
  let '(r1, st1, a1) := execute shuffle a st in
  valid (validate a1 st1) =
    (chart_bribesUsed a <=? doubloons p - (if 0 <? chart_bribesUsed a then chart_bribesUsed a else 0)) /\
  (valid (validate a1 st1) = true ->
   let '(r2, st2, a2) := execute shuffle a1 st1 in
   success r2 = true /\
   (exists p2, getPlayer st2 (chart_playerId a) = Some p2 /\ charts p2 = charts p /\
      doubloons p2 = doubloons p - (if 0 <? chart_bribesUsed a then chart_bribesUsed a else 0)) /\
   discardPile (chartDeck st2) = discardPile (chartDeck st1) ++ drawnChartsOut r1 /\
   drawPile (chartDeck st2) = drawPile (chartDeck st1) /\
   windTokenHolder st2 = Some (chart_playerId a)).
Proof.
  intros Hv Hsel Hdr Hp.
  assert (Hvp : valid (validatePlayer CHART (chart_playerId a) st) = true).
  { unfold validate in Hv. destruct (valid (validatePlayer CHART (chart_playerId a) st)) eqn:E; [reflexivity|].
    cbn [negb] in Hv. congruence. }
  assert (Hdp : chart_bribesUsed a <= doubloons p).
  { unfold validate in Hv. rewrite Hvp, Hp in Hv. cbn [negb] in Hv.
    destruct (Z.ltb_spec (doubloons p) (chart_bribesUsed a)); [discriminate|lia]. }
  unfold execute at 1. rewrite Hv. cbn [negb]. rewrite Hsel, Hdr.
  set (pid := chart_playerId a) in *.
  set (b := chart_bribesUsed a) in *.
  set (st1 := if 0 <? b then update_player st pid (fun q => fst (spendDoubloons q b)) else st).
  set (p1 := if 0 <? b then fst (spendDoubloons p b) else p).
  assert (Hid : forall q, id (fst (spendDoubloons q b)) = id q).
  { intros q. unfold spendDoubloons. destruct (doubloons q <? b); reflexivity. }
  assert (Hp1 : getPlayer st1 pid = Some p1).
  { unfold st1, p1. destruct (0 <? b); [rewrite getPlayer_update_player by exact Hid; rewrite Hp|exact Hp]; reflexivity. }
  assert (Hd1 : doubloons p1 = doubloons p - (if 0 <? b then b else 0) /\ charts p1 = charts p /\
                placedCaptains p1 = placedCaptains p).
  { unfold p1, spendDoubloons. destruct (Z.ltb_spec 0 b); [|cbn; split; [lia|split; reflexivity]].
    destruct (Z.ltb_spec (doubloons p) b); [lia|]. cbn. split; [lia|split; reflexivity]. }
  destruct (drawCharts shuffle (chartDeck st1) (if drawExtra a then 3 else 2)) as [deck' drawn] eqn:Ed.
  set (a1 := set_drawn a drawn).
  set (st1' := set_deck st1 deck').
  assert (Hp1' : getPlayer st1' pid = Some p1) by exact Hp1.
  assert (Hv1 : valid (validate a1 st1') = (b <=? doubloons p - (if 0 <? b then b else 0))).
  { unfold validate. cbn [chart_playerId a1 set_drawn selectedChartIds chart_bribesUsed]. fold pid b.
    assert (Hvp1 : valid (validatePlayer CHART pid st1') = true).
    { unfold validatePlayer in Hvp |- *. rewrite Hp1'. fold pid in Hvp. rewrite Hp in Hvp.
      destruct Hd1 as (_ & _ & ->). exact Hvp. }
    rewrite Hvp1, Hp1'. cbn [negb]. rewrite Hsel. cbn [List.length Nat.eqb negb].
    destruct Hd1 as (-> & _).
    destruct (Z.ltb_spec (doubloons p - (if 0 <? b then b else 0)) b);
      destruct (Z.leb_spec b (doubloons p - (if 0 <? b then b else 0))); try lia; reflexivity. }
  split; [exact Hv1|]. intros Hok.
  unfold execute. rewrite Hok. cbn [negb]. cbn [a1 set_drawn selectedChartIds drawnCharts]. rewrite Hsel.
  cbn [success createSuccessResult]. split; [reflexivity|].
  assert (Hnone : forall l, filter (fun c => existsb (String.eqb (chart_id c)) []) l = []).
  { intros l; induction l as [|x l IH]; [reflexivity|exact IH]. }
  assert (Hall : forall l, filter (fun c => negb (existsb (String.eqb (chart_id c)) [])) l = l).
  { intros l; induction l as [|x l IH]; [reflexivity|exact (f_equal (cons x) IH)]. }
  cbn [chart_playerId a1 set_drawn]. fold pid. cbv beta. rewrite Hnone, Hall.
  split.
  - exists p1. split; [|split; [apply Hd1|apply Hd1]].
    change (getPlayer (update_player st1' pid (fun q => fold_left addChart [] q)) pid = Some p1).
    rewrite getPlayer_update_player by reflexivity. rewrite Hp1'. reflexivity.
  - split; [reflexivity|]. split; reflexivity.
Qed.

End ChartActionProofs.

(* ================================================================= *)
(** ** Concrete instances of the hypotheses of the properties above *)

Module BoardWitnesses.
Import HexMath HexConstants BoardModel HexControl Specs PathProofs ControlProofs ShipProofs MoreScenarios Scenarios.


Lemma hex_sink_NoDup : NoDup (getPlayerIds hex_sink).
Proof.
  unfold hex_sink, getPlayerIds; cbn [ships map fst].
  constructor; [intros [H|[]]; discriminate|constructor; [intros []|constructor]].
Qed.

Lemma removeShip_spec_witness :
  NoDup (getPlayerIds hex_sink) /\
  exists h', removeShip hex_sink (mkShip GALLEON "p2") = (h', true).
Proof.
  split; [exact hex_sink_NoDup|].
  destruct (removeShip_spec hex_sink (mkShip GALLEON "p2") hex_sink_NoDup) as [[_ H]|(h' & E & _)].
  - exfalso. apply H. cbn. right. left. reflexivity.
  - exists h'. exact E.
Defined.

Lemma board_sink_c00_NoDup :
  forall h, getHex board_sink c00 = Some h -> NoDup (getPlayerIds h).
Proof.
  intros h Eh. vm_compute in Eh. injection Eh as <-.
  vm_compute. constructor; [intros [H|[]]; discriminate|constructor; [intros []|constructor]].
Qed.

Lemma moveShip_spec_witness :
  (forall h, getHex board_sink c00 = Some h -> NoDup (getPlayerIds h)) /\
  snd (moveShip board_sink c00 c10 (mkShip GALLEON "p2")) = true /\
  ships_at (fst (moveShip board_sink c00 c10 (mkShip GALLEON "p2"))) "p2" c10 =
  [mkShip GALLEON "p2"].
Proof.
  split; [exact board_sink_c00_NoDup|].
  pose proof (moveShip_spec board_sink c00 c10 (mkShip GALLEON "p2") board_sink_c00_NoDup) as H.
  destruct (moveShip board_sink c00 c10 (mkShip GALLEON "p2")) as [b' moved] eqn:E.
  destruct H as (Hiff & _ & Hmv).
  assert (Hm : moved = true).
  { apply Hiff. split; [vm_compute; reflexivity|]. vm_compute. right. left. reflexivity. }
  destruct (Hmv Hm) as (_ & Hto & _).
  split; [exact Hm|]. cbn [fst]. cbn [playerId] in Hto. rewrite Hto. vm_compute. reflexivity.
Defined.

End BoardWitnesses.

Module ValidatorPlayerWitnesses.
Import HexMath HexConstants BoardModel HexControl Action ChartValidator ClaimValidator GameStateModel
       PlaceProofs ClaimValidatorProofs ControlProofs MoreScenarios Scenarios Charts PlayerModel PlayerMore PlayerProofs Invariants.

Lemma canClaimTreasureMap_spec_witness :
  (forall h, getHex board_sink c00 = Some h -> NoDup (getPlayerIds h)) /\
  valid (canClaimTreasureMap c00 "p2" board_sink) = true /\
  exists h, getHex board_sink c00 = Some h /\
    exists sh, In sh (getPlayerShips h "p2") /\ type sh = GALLEON.
Proof.
  assert (Hnd : forall h, getHex board_sink c00 = Some h -> NoDup (getPlayerIds h)).
  { intros h Eh. vm_compute in Eh. injection Eh as <-.
    vm_compute. constructor; [intros [H|[]]; discriminate|constructor; [intros []|constructor]]. }
  assert (Hv : valid (canClaimTreasureMap c00 "p2" board_sink) = true) by (vm_compute; reflexivity).
  split; [exact Hnd|]. split; [exact Hv|].
  destruct (proj1 (canClaimTreasureMap_spec c00 "p2" board_sink Hnd) Hv) as (h & Eh & Hg & _).
  exists h. split; [exact Eh|exact Hg].
Defined.

Lemma canClaimIslandRaid_spec_witness :
  (forall isl h, find_island (board st_raid) "Havana" = Some isl ->
     getHex (board st_raid) (hexCoord isl) = Some h -> NoDup (getPlayerIds h)) /\
  valid (canClaimIslandRaid "Havana" 2 "p1" (board st_raid)) = true /\
  valid (canClaimIslandRaid "Havana" 1 "p1" (board st_raid)) = false.
Proof.
  assert (Hnd : forall isl h, find_island (board st_raid) "Havana" = Some isl ->
     getHex (board st_raid) (hexCoord isl) = Some h -> NoDup (getPlayerIds h)).
  { intros isl h Ei Eh. vm_compute in Ei. injection Ei as <-. vm_compute in Eh. injection Eh as <-.
    vm_compute. constructor; [intros []|constructor]. }
  split; [exact Hnd|]. split; [vm_compute; reflexivity|].
  destruct (valid (canClaimIslandRaid "Havana" 1 "p1" (board st_raid))) eqn:E; [|reflexivity].
  exfalso. apply (canClaimIslandRaid_spec "Havana" 1 "p1" (board st_raid) Hnd) in E.
  destruct E as (_ & _ & _ & _ & _ & _ & H). lia.
Defined.

Lemma captains_invariant_witness :
  captains_ok p1 /\ snd (placeCaptain p1 CHART) = false /\ captains_ok (gainNotoriety p1 12).
Proof.
  assert (H : captains_ok p1) by (unfold captains_ok; vm_compute; discriminate).
  split; [exact H|].
  destruct (captains_invariant p1 CHART 12 H) as (Hs & _ & _ & _ & Hg).
  split; [rewrite Hs; vm_compute; reflexivity|exact Hg].
Defined.

Lemma removeCaptain_placeCaptain_witness :
  hasUnplacedCaptains charter = true /\
  removeCaptain (fst (placeCaptain charter SAIL)) = (charter, Some SAIL).
Proof.
  assert (H : hasUnplacedCaptains charter = true) by (vm_compute; reflexivity).
  split; [exact H|exact (removeCaptain_placeCaptain charter SAIL H)].
Defined.

Lemma removeChart_addChart_witness :
  hasChart charter (chart_id (ch "z")) = false /\
  removeChart (addChart charter (ch "z")) (chart_id (ch "z")) = (charter, true).
Proof.
  assert (H : hasChart charter (chart_id (ch "z")) = false) by (vm_compute; reflexivity).
  split; [exact H|exact (removeChart_addChart charter (ch "z") H)].
Defined.

End ValidatorPlayerWitnesses.

Module DeckTurnWitnesses.
Import HexMath BoardModel Charts PlayerModel GameStateModel PlayerMore TurnModel
       DeckProofs TurnProofs MoreScenarios Scenarios.

Lemma drawCharts_count_witness :
  (forall l : list AnyChart, Permutation ((fun l0 => l0) l) l) /\
  List.length (snd (drawCharts (fun l => l) (chartDeck st_chart) 5)) = 4%nat.
Proof.
  assert (Hp : forall l : list AnyChart, Permutation ((fun l0 => l0) l) l)
    by (intros l; apply Permutation_refl).
  split; [exact Hp|].
  rewrite (drawCharts_count (fun l => l) (chartDeck st_chart) 5 Hp). reflexivity.
Defined.

Lemma drawCharts_from_drawPile_witness :
  (Z.to_nat 2 <= List.length (drawPile (chartDeck st_chart)))%nat /\
  snd (drawCharts (fun l => l) (chartDeck st_chart) 2) = [ch "c"; ch "b"].
Proof.
  assert (H : (Z.to_nat 2 <= List.length (drawPile (chartDeck st_chart)))%nat)
    by (vm_compute; repeat constructor).
  split; [exact H|].
  rewrite (drawCharts_from_drawPile (fun l => l) (chartDeck st_chart) 2 H). reflexivity.
Defined.

Lemma nextTurn_spec_witness :
  0 < Z.of_nat (List.length (players (gs session_sink))) /\
  0 <= activePlayerIndex session_sink < Z.of_nat (List.length (players (gs session_sink))) /\
  exists p, getActivePlayer (nextTurn session_sink) = Some p.
Proof.
  assert (H1 : 0 < Z.of_nat (List.length (players (gs session_sink)))) by (vm_compute; reflexivity).
  assert (H2 : 0 <= activePlayerIndex session_sink < Z.of_nat (List.length (players (gs session_sink))))
    by (vm_compute; split; discriminate || reflexivity).
  split; [exact H1|]. split; [exact H2|].
  exact (proj1 (proj2 (nextTurn_spec session_sink H1 H2))).
Defined.

Lemma nextTurn_full_round_witness :
  windDirection session_sink = CLOCKWISE /\
  0 <= activePlayerIndex session_sink < Z.of_nat (List.length (players (gs session_sink))) /\
  activePlayerIndex (Nat.iter 2 nextTurn session_sink) = 0.
Proof.
  assert (H1 : windDirection session_sink = CLOCKWISE) by reflexivity.
  assert (H2 : 0 <= activePlayerIndex session_sink < Z.of_nat (List.length (players (gs session_sink))))
    by (vm_compute; split; discriminate || reflexivity).
  split; [exact H1|]. split; [exact H2|].
  exact (nextTurn_full_round session_sink H1 H2).
Defined.

Lemma nextPhase_game_over_winner_witness :
  currentPhase session_end = PIRATE /\ existsb hasWon (players (gs session_end)) = true /\
  Forall (fun p => 0 <= doubloons p) (players (gs session_end)) /\
  exists w, winner (gs (nextPhase session_end)) = Some w /\ In w (players (gs session_end)).
Proof.
  assert (H1 : currentPhase session_end = PIRATE) by reflexivity.
  assert (H2 : existsb hasWon (players (gs session_end)) = true) by (vm_compute; reflexivity).
  assert (H3 : Forall (fun p => 0 <= doubloons p) (players (gs session_end))).
  { vm_compute. repeat constructor; discriminate. }
  split; [exact H1|]. split; [exact H2|]. split; [exact H3|].
  exact (nextPhase_game_over_winner session_end H1 H2 H3).
Defined.

End DeckTurnWitnesses.

Module ClaimWitnesses.
Import HexMath BoardModel Charts PlayerModel GameStateModel Action ChartValidator
       PlayerMore DeckMore ClaimValidator ClaimChartAction ClaimProofs MoreScenarios Scenarios.

Lemma claim_held_chart_witness :
  valid (validate claim_k st_claim) = true /\
  getPlayer st_claim (claim_playerId claim_k) = Some charter /\
  find (fun c => String.eqb (chart_id c) (chartId claim_k)) (charts charter) = Some (ch "k") /\
  exists res st' p', execute claim_k st_claim = Some (res, st') /\ success res = true /\
    getPlayer st_claim "p1" = Some charter /\ getPlayer st' "p1" = Some p' /\ charts p' = [].
Proof.
  assert (H1 : valid (validate claim_k st_claim) = true) by (vm_compute; reflexivity).
  assert (H2 : getPlayer st_claim (claim_playerId claim_k) = Some charter) by reflexivity.
  assert (H3 : find (fun c => String.eqb (chart_id c) (chartId claim_k)) (charts charter) = Some (ch "k"))
    by reflexivity.
  split; [exact H1|]. split; [exact H2|]. split; [exact H3|].
  destruct (claim_held_chart claim_k st_claim charter (ch "k") H1 H2 H3)
    as (res & st' & p' & He & Hs & Hp & Hperm & _).
  exists res, st', p'. split; [exact He|]. split; [exact Hs|]. split; [exact H2|].
  split; [exact Hp|]. apply Permutation_length in Hperm.
  destruct (charts p'); [reflexivity|discriminate].
Defined.

Lemma claim_island_raid_witness :
  valid (validate claim_r st_raid) = true /\
  getPlayer st_raid (claim_playerId claim_r) = Some charter /\
  find (fun c => String.eqb (chart_id c) (chartId claim_r)) (charts charter) = None /\
  find (fun r => String.eqb (chart_id r) (chartId claim_r)) (activeIslandRaids (chartDeck st_raid))
    = Some raid /\
  body raid = IslandRaid "Havana" 2 4 /\
  exists res st' p', execute claim_r st_raid = Some (res, st') /\
    getPlayer st' "p1" = Some p' /\ doubloons p' = 3 /\ notoriety p' = 4.
Proof.
  assert (H1 : valid (validate claim_r st_raid) = true) by (vm_compute; reflexivity).
  assert (H2 : getPlayer st_raid (claim_playerId claim_r) = Some charter) by reflexivity.
  assert (H3 : find (fun c => String.eqb (chart_id c) (chartId claim_r)) (charts charter) = None)
    by reflexivity.
  assert (H4 : find (fun r => String.eqb (chart_id r) (chartId claim_r))
                 (activeIslandRaids (chartDeck st_raid)) = Some raid) by reflexivity.
  assert (H5 : body raid = IslandRaid "Havana" 2 4) by reflexivity.
  split; [exact H1|]. split; [exact H2|]. split; [exact H3|]. split; [exact H4|]. split; [exact H5|].
  destruct (claim_island_raid claim_r st_raid charter raid "Havana" 2 4 H1 H2 H3 H4 H5)
    as (res & st' & p' & He & _ & Hp & _ & _ & Hd & Hn & _).
  exists res, st', p'. split; [exact He|]. split; [exact Hp|].
  rewrite Hd, Hn. split; reflexivity.
Defined.

End ClaimWitnesses.

Module ChartActionWitnesses.
Import HexMath BoardModel Charts PlayerModel GameStateModel Action ChartAction
       ChartActionProofs MoreScenarios Scenarios.

Lemma chart_selection_fresh_witness :
  valid (validate chart_keep_a st_chart) = true /\ selectedChartIds chart_keep_a <> [] /\
  drawnCharts chart_keep_a = None /\ getPlayer st_chart (chart_playerId chart_keep_a) = Some charter /\
  success (fst (fst (execute (fun l => l) chart_keep_a st_chart))) = true.
Proof.
  assert (H1 : valid (validate chart_keep_a st_chart) = true) by (vm_compute; reflexivity).
  assert (H2 : selectedChartIds chart_keep_a <> []) by discriminate.
  assert (H3 : drawnCharts chart_keep_a = None) by reflexivity.
  assert (H4 : getPlayer st_chart (chart_playerId chart_keep_a) = Some charter) by reflexivity.
  split; [exact H1|]. split; [exact H2|]. split; [exact H3|]. split; [exact H4|].
  pose proof (chart_selection_fresh (fun l => l) chart_keep_a st_chart charter H1 H2 H3 H4) as H.
  destruct (execute (fun l => l) chart_keep_a st_chart) as [[res st'] a'].
  destruct (drawCharts (fun l => l) (chartDeck st_chart) (if drawExtra chart_keep_a then 3 else 2)).
  exact (proj1 H).
Defined.

Lemma chart_execute_twice_witness :
  valid (validate chart_first_step st_chart) = true /\ selectedChartIds chart_first_step = [] /\
  drawnCharts chart_first_step = None /\
  getPlayer st_chart (chart_playerId chart_first_step) = Some charter /\
  valid (validate (snd (execute (fun l => l) chart_first_step st_chart))
                  (snd (fst (execute (fun l => l) chart_first_step st_chart)))) = false.
Proof.
  assert (H1 : valid (validate chart_first_step st_chart) = true) by (vm_compute; reflexivity).
  assert (H2 : selectedChartIds chart_first_step = []) by reflexivity.
  assert (H3 : drawnCharts chart_first_step = None) by reflexivity.
  assert (H4 : getPlayer st_chart (chart_playerId chart_first_step) = Some charter) by reflexivity.
  split; [exact H1|]. split; [exact H2|]. split; [exact H3|]. split; [exact H4|].
  pose proof (chart_execute_twice (fun l => l) chart_first_step st_chart charter H1 H2 H3 H4) as H.
  destruct (execute (fun l => l) chart_first_step st_chart) as [[r1 st1] a1].
  cbn [fst snd]. rewrite (proj1 H). reflexivity.
Defined.

End ChartActionWitnesses.
